(** * PSGAN makeup/net.py: a shallow embedding of the generator network

    The development follows [src/makeup/net.py].  Tensors are modelled over
    the real numbers (the arithmetic of the network read exactly, without
    rounding); a tensor is a shape together with a function from
    multi-indices to values, and every tensor operation that PyTorch checks
    at run time returns a [result], so a shape mismatch is an explicit
    [RuntimeError] rather than an undefined value.  The learned parameters of
    the modules are read from a state dictionary, a function from parameter
    names to their entries.

    The PyTorch operations are given by their defining equations: zero-padded
    cross-correlation for [Conv2d], its transpose for [ConvTranspose2d],
    per-sample and per-channel statistics with biased variance and
    [eps = 1e-5] for [InstanceNorm2d], nearest-neighbour resampling for
    [F.interpolate], row-major order for [view].  The model is the forward
    computation on tensors that do not track gradients.

    One operation is not read exactly: the exponential inside [F.softmax].
    On float32 entries it underflows to zero far below the row maximum, so
    the model takes it as a function [exp32] of which only what holds of the
    float32 exponential is known: it is nowhere negative and maps 0 to 1.
    [F.softmax] subtracts the row maximum before it exponentiates, and the
    model does the same. *)

From Stdlib Require Import String DecimalString ZArith List FinFun Bool Reals Lra Lia.
From Stdlib Require Import IndefiniteDescription.
Import ListNotations.

Open Scope string_scope.
Open Scope list_scope.
Open Scope Z_scope.

(** String concatenation, as in Python's [a + b] and f-strings. *)
Notation "a @@ b" := (String.append a b) (at level 60, right associativity).

(* ================================================================= *)
(** ** Python exceptions and the result type *)

Inductive py_error : Type :=
| AssertionError
| UnboundLocalError
| AttributeError
| TypeError
| IndexError
| RuntimeError.

Inductive result (A : Type) : Type :=
| Ok (a : A)
| Err (e : py_error).

Arguments Ok {A} a.
Arguments Err {A} e.

Definition rbind {A B : Type} (m : result A) (f : A -> result B) : result B :=
  match m with
  | Ok a => f a
  | Err e => Err e
  end.

Declare Scope result_scope.
Delimit Scope result_scope with result.
Notation "x <- m ;; f" := (rbind m (fun x => f))
  (at level 61, m at next level, right associativity) : result_scope.
Notation "' p <- m ;; f" := (rbind m (fun p => f))
  (at level 61, p pattern, m at next level, right associativity) : result_scope.

Definition is_ok {A : Type} (r : result A) : bool :=
  match r with Ok _ => true | Err _ => false end.

(* ================================================================= *)
(** ** Index ranges and finite sums *)

(** [range n] is Python's [range(n)]. *)
Definition range (n : Z) : list Z := map Z.of_nat (seq 0 (Z.to_nat n)).

Definition Rsum (l : list R) : R := fold_right Rplus 0%R l.

(** [sumZ n f] is the sum of [f k] for [0 <= k < n]. *)
Definition sumZ (n : Z) (f : Z -> R) : R := Rsum (map f (range n)).

Definition zipWith {A B C : Type} (f : A -> B -> C) (l1 : list A) (l2 : list B) : list C :=
  map (fun p => f (fst p) (snd p)) (combine l1 l2).

Definition nthZ (l : list Z) (k : nat) : Z := nth k l 0.

Fixpoint set_nth (k : nat) (v : Z) (l : list Z) : list Z :=
  match l, k with
  | [], _ => []
  | _ :: t, O => v :: t
  | h :: t, S k' => h :: set_nth k' v t
  end.

Definition list_eqb (l1 l2 : list Z) : bool :=
  if list_eq_dec Z.eq_dec l1 l2 then true else false.

(* ================================================================= *)
(** ** Tensors *)

Record tensor : Type := mkT {
  shape : list Z;
  tget : list Z -> R
}.

Definition numel (sh : list Z) : Z := fold_right Z.mul 1 sh.

Definition rank (x : tensor) : nat := length (shape x).

(** A multi-index is in range for a shape when it has the same length and
    every coordinate lies in [0, d). *)
Definition in_range (sh idx : list Z) : Prop :=
  Forall2 (fun d i => 0 <= i < d) sh idx.

Fixpoint in_rangeb (sh idx : list Z) : bool :=
  match sh, idx with
  | [], [] => true
  | d :: sh', i :: idx' => (0 <=? i) && (i <? d) && in_rangeb sh' idx'
  | _, _ => false
  end.

(** Two tensors are the same value when they have the same shape and agree
    on every index in range. *)
Definition teq (x y : tensor) : Prop :=
  shape x = shape y /\ forall idx, in_range (shape x) idx -> tget x idx = tget y idx.

(** All multi-indices of a shape in row-major order. *)
Fixpoint indices (sh : list Z) : list (list Z) :=
  match sh with
  | [] => [[]]
  | d :: sh' => flat_map (fun i => map (cons i) (indices sh')) (range d)
  end.

(** Row-major offset of a multi-index, and its inverse. *)
Definition ravel (sh idx : list Z) : Z :=
  fold_left (fun acc p => acc * fst p + snd p) (combine sh idx) 0.

Fixpoint unravel (sh : list Z) (n : Z) : list Z :=
  match sh with
  | [] => []
  | d :: sh' => (n / numel sh') mod d :: unravel sh' n
  end.

Definition zeros (sh : list Z) : tensor := mkT sh (fun _ => 0%R).
Definition full (sh : list Z) (v : R) : tensor := mkT sh (fun _ => v).

(* ----------------------------------------------------------------- *)
(** *** view, permute, repeat *)

(** [x.view(sh)]: at most one entry of [sh] may be [-1], which is inferred
    from the number of elements.  Every tensor viewed in net.py is
    contiguous, so the view re-reads the elements in row-major order. *)
Definition infer_shape (n : Z) (sh : list Z) : result (list Z) :=
  let known := filter (fun d => negb (d =? -1)) sh in
  let holes := (length sh - length known)%nat in
  let p := numel known in
  if existsb (fun d => d <? 0) known then Err RuntimeError
  else match holes with
       | O => if p =? n then Ok sh else Err RuntimeError
       | S O =>
           if (p =? 0) || negb (n mod p =? 0) then Err RuntimeError
           else Ok (map (fun d => if d =? -1 then n / p else d) sh)
       | _ => Err RuntimeError
       end.

Definition view (x : tensor) (sh : list Z) : result tensor :=
  (sh' <- infer_shape (numel (shape x)) sh ;;
   Ok (mkT sh' (fun idx => tget x (unravel (shape x) (ravel sh' idx)))))%result.

Fixpoint index_of (d : Z) (l : list Z) : nat :=
  match l with
  | [] => O
  | h :: t => if h =? d then O else S (index_of d t)
  end.

(** [x.permute(perm)]: dimension [k] of the result is dimension [perm[k]]
    of [x]. *)
Definition permute (x : tensor) (perm : list Z) : result tensor :=
  let r := Z.of_nat (rank x) in
  if (length perm =? rank x)%nat
     && forallb (fun d => existsb (Z.eqb d) perm) (range r)
  then Ok (mkT (map (fun p => nthZ (shape x) (Z.to_nat p)) perm)
               (fun idx => tget x (map (fun d => nthZ idx (index_of d perm)) (range r))))
  else Err RuntimeError.

(** [.contiguous()] changes the memory layout only. *)
Definition contiguous (x : tensor) : tensor := x.

Definition pad_left (n : nat) (sh : list Z) : list Z :=
  List.repeat 1 (n - length sh) ++ sh.

(** [x.repeat(reps)] tiles [x]; there must be at least as many repetition
    counts as dimensions. *)
Definition repeat (x : tensor) (reps : list Z) : result tensor :=
  if (length reps <? rank x)%nat || existsb (fun d => d <? 0) reps
  then Err RuntimeError
  else
    let sh := pad_left (length reps) (shape x) in
    Ok (mkT (zipWith Z.mul reps sh)
            (fun idx => tget x (skipn (length reps - rank x)
                                      (zipWith Z.modulo idx sh)))).

(* ----------------------------------------------------------------- *)
(** *** element-wise arithmetic with broadcasting *)

Fixpoint broadcast_dims (s1 s2 : list Z) : result (list Z) :=
  match s1, s2 with
  | [], [] => Ok []
  | d1 :: t1, d2 :: t2 =>
      (t <- broadcast_dims t1 t2 ;;
       if d1 =? d2 then Ok (d1 :: t)
       else if d1 =? 1 then Ok (d2 :: t)
       else if d2 =? 1 then Ok (d1 :: t)
       else Err RuntimeError)%result
  | _, _ => Err RuntimeError
  end.

Definition broadcast_shapes (s1 s2 : list Z) : result (list Z) :=
  let r := Nat.max (length s1) (length s2) in
  broadcast_dims (pad_left r s1) (pad_left r s2).

(** The index of an operand entry that a result index reads. *)
Definition bidx (sh idx : list Z) : list Z :=
  zipWith (fun d i => if d =? 1 then 0 else i) sh
          (skipn (length idx - length sh) idx).

Definition binop (f : R -> R -> R) (x y : tensor) : result tensor :=
  (sh <- broadcast_shapes (shape x) (shape y) ;;
   Ok (mkT sh (fun idx => f (tget x (bidx (shape x) idx))
                            (tget y (bidx (shape y) idx)))))%result.

Definition tmul : tensor -> tensor -> result tensor := binop Rmult.
Definition tadd : tensor -> tensor -> result tensor := binop Rplus.

Definition tmap (f : R -> R) (x : tensor) : tensor :=
  mkT (shape x) (fun idx => f (tget x idx)).

(** [x * k] and [k + x] for a Python number [k]. *)
Definition mul_scalar (x : tensor) (k : R) : tensor := tmap (fun v => (v * k)%R) x.
Definition scalar_add (k : R) (x : tensor) : tensor := tmap (fun v => (k + v)%R) x.

(* ----------------------------------------------------------------- *)
(** *** cat, bmm, softmax, indexing *)

(** [torch.cat((x, y), dim)]. *)
Definition cat (x y : tensor) (dim : nat) : result tensor :=
  let dx := nthZ (shape x) dim in
  let dy := nthZ (shape y) dim in
  if (dim <? rank x)%nat && list_eqb (set_nth dim 0 (shape x)) (set_nth dim 0 (shape y))
  then Ok (mkT (set_nth dim (dx + dy) (shape x))
               (fun idx => let i := nthZ idx dim in
                           if i <? dx then tget x idx
                           else tget y (set_nth dim (i - dx) idx)))
  else Err RuntimeError.

(** [torch.bmm(x, y)]. *)
Definition bmm (x y : tensor) : result tensor :=
  match shape x, shape y with
  | [b; n; m], [b'; m'; p] =>
      if (b =? b') && (m =? m')
      then Ok (mkT [b; n; p]
                   (fun idx =>
                      match idx with
                      | [i; j; k] => sumZ m (fun l => (tget x [i; j; l] * tget y [i; l; k])%R)
                      | _ => 0%R
                      end))
      else Err RuntimeError
  | _, _ => Err RuntimeError
  end.

(** What is known of the exponential that [F.softmax] applies to float32
    entries: it is never negative and it maps 0 to 1.  The real exponential
    has both properties; so has one that underflows to zero. *)
Definition exp32_spec (f : R -> R) : Prop :=
  (forall x, (0 <= f x)%R) /\ f 0%R = 1%R.

(** The exponential of [F.softmax]: some function with these properties. *)
Definition exp32 : R -> R :=
  proj1_sig
    (constructive_indefinite_description exp32_spec
       (ex_intro exp32_spec exp (conj (fun x => Rlt_le 0 (exp x) (exp_pos x)) exp_0))).

(** The largest of [f 0], ..., [f (m - 1)]. *)
Definition row_max (m : Z) (f : Z -> R) : R :=
  fold_right Rmax (f 0) (map f (range m)).

(** [F.softmax(x, dim=-1)]: along the last dimension, the exponentials of
    the entries less the row maximum, divided by their sum. *)
Definition softmax_last (x : tensor) : result tensor :=
  match rev (shape x) with
  | [] => Err IndexError
  | m :: _ =>
      let last := (rank x - 1)%nat in
      Ok (mkT (shape x)
              (fun idx =>
                 let row := fun j => tget x (set_nth last j idx) in
                 let mx := row_max m row in
                 (exp32 (tget x idx - mx)
                  / sumZ m (fun j => exp32 (row j - mx)))%R))
  end.

Definition Rnonzero (v : R) : bool :=
  if Req_dec_T v 0 then false else true.

(** [x.nonzero()]: the coordinates of the non-zero entries in row-major
    order.  ([weight.numpy().nonzero()] gives the same coordinates as one
    array per dimension; a list of coordinates is the transposed reading.) *)
Definition nonzero (x : tensor) : list (list Z) :=
  filter (fun idx => Rnonzero (tget x idx)) (indices (shape x)).

(** [x[ind[0], ind[1], ind[2]]]: the entries of [x] at a list of coordinates. *)
Definition index_coords (x : tensor) (ind : list (list Z)) : result (list R) :=
  if forallb (in_rangeb (shape x)) ind then Ok (map (tget x) ind)
  else Err IndexError.

(** [x[i]]. *)
Definition select0 (x : tensor) (i : Z) : result tensor :=
  match shape x with
  | d :: sh => if (0 <=? i) && (i <? d)
               then Ok (mkT sh (fun idx => tget x (i :: idx)))
               else Err IndexError
  | [] => Err IndexError
  end.

(** [x.unsqueeze(0)]. *)
Definition unsqueeze0 (x : tensor) : tensor :=
  mkT (1 :: shape x) (fun idx => tget x (tl idx)).

(** [F.interpolate(x, size=(oh, ow))] with the default nearest-neighbour
    mode, on a tensor with two spatial dimensions. *)
Definition interpolate (x : tensor) (oh ow : Z) : result tensor :=
  match shape x with
  | [n; c; h; w] =>
      if (0 <? oh) && (0 <? ow) && (0 <? h) && (0 <? w)
      then Ok (mkT [n; c; oh; ow]
                   (fun idx =>
                      match idx with
                      | [i; j; y; xx] =>
                          tget x [i; j; Z.min (y * h / oh) (h - 1); Z.min (xx * w / ow) (w - 1)]
                      | _ => 0%R
                      end))
      else Err RuntimeError
  | _ => Err RuntimeError
  end.

(* ----------------------------------------------------------------- *)
(** *** sparse COO tensors *)

Record sparse : Type := mkSparse {
  sp_indices : list (list Z);
  sp_values : list R;
  sp_size : list Z
}.

(** [torch.sparse.FloatTensor(indices, values, size)]. *)
Definition sparse_FloatTensor (ind : list (list Z)) (vals : list R) (size : list Z)
  : result sparse :=
  if (length ind =? length vals)%nat && forallb (in_rangeb size) ind
  then Ok (mkSparse ind vals size)
  else Err RuntimeError.

(** [sp.to_dense()]: explicit entries at their coordinates (entries with the
    same coordinates add up), zero elsewhere. *)
Definition to_dense (sp : sparse) : tensor :=
  mkT (sp_size sp)
      (fun idx => Rsum (map (fun p => if list_eqb (fst p) idx then snd p else 0%R)
                            (combine (sp_indices sp) (sp_values sp)))).

(* ================================================================= *)
(** ** torch.nn layers *)

(** The learned parameters: PyTorch's [state_dict], read as a function from
    a parameter name and a multi-index to the entry. *)
Definition state_dict : Type := string -> list Z -> R.

(** A read that yields zero outside the tensor (zero padding). *)
Definition tget_pad (x : tensor) (idx : list Z) : R :=
  if in_rangeb (shape x) idx then tget x idx else 0%R.

Record Conv2d : Type := mkConv2d {
  c_in : Z;
  c_out : Z;
  c_k : Z;
  c_stride : Z;
  c_pad : Z;
  c_weight : list Z -> R;
  c_bias : option (list Z -> R)
}.

(** [nn.Conv2d(cin, cout, kernel_size, stride, padding, bias)]. *)
Definition nn_Conv2d (sd : state_dict) (name : string)
    (cin cout k s p : Z) (bias : bool) : Conv2d :=
  mkConv2d cin cout k s p (sd (name @@ ".weight"))
           (if bias then Some (sd (name @@ ".bias")) else None).

Definition bias_at (b : option (list Z -> R)) (o : Z) : R :=
  match b with
  | Some f => f [o]
  | None => 0%R
  end.

Definition conv2d_data (L : Conv2d) (x : tensor) (idx : list Z) : R :=
  match idx with
  | [n; o; y; xx] =>
      (sumZ (c_in L) (fun i =>
         sumZ (c_k L) (fun ky =>
           sumZ (c_k L) (fun kx =>
             c_weight L [o; i; ky; kx]
             * tget_pad x [n; i; (y * c_stride L + ky - c_pad L)%Z;
                           (xx * c_stride L + kx - c_pad L)%Z])))
       + bias_at (c_bias L) o)%R
  | _ => 0%R
  end.

Definition conv_out (h k s p : Z) : Z := (h + 2 * p - k) / s + 1.

Definition Conv2d_forward (L : Conv2d) (x : tensor) : result tensor :=
  match shape x with
  | [n; ci; h; w] =>
      if (ci =? c_in L) && (c_k L <=? h + 2 * c_pad L) && (c_k L <=? w + 2 * c_pad L)
      then Ok (mkT [n; c_out L; conv_out h (c_k L) (c_stride L) (c_pad L);
                    conv_out w (c_k L) (c_stride L) (c_pad L)]
                   (conv2d_data L x))
      else Err RuntimeError
  | _ => Err RuntimeError
  end.

Record ConvTranspose2d : Type := mkConvTranspose2d {
  ct_in : Z;
  ct_out : Z;
  ct_k : Z;
  ct_stride : Z;
  ct_pad : Z;
  ct_weight : list Z -> R
}.

(** [nn.ConvTranspose2d(cin, cout, kernel_size, stride, padding, bias=False)]. *)
Definition nn_ConvTranspose2d (sd : state_dict) (name : string)
    (cin cout k s p : Z) : ConvTranspose2d :=
  mkConvTranspose2d cin cout k s p (sd (name @@ ".weight")).

Definition convT2d_data (L : ConvTranspose2d) (x : tensor) (idx : list Z) : R :=
  match idx with
  | [n; o; y; xx] =>
      sumZ (ct_in L) (fun i =>
        sumZ (ct_k L) (fun ky =>
          sumZ (ct_k L) (fun kx =>
            let ty := y + ct_pad L - ky in
            let tx := xx + ct_pad L - kx in
            if (ty mod ct_stride L =? 0) && (tx mod ct_stride L =? 0)
            then (tget_pad x [n; i; (ty / ct_stride L)%Z; (tx / ct_stride L)%Z]
                  * ct_weight L [i; o; ky; kx])%R
            else 0%R)))
  | _ => 0%R
  end.

Definition convT_out (h k s p : Z) : Z := (h - 1) * s - 2 * p + k.

Definition ConvTranspose2d_forward (L : ConvTranspose2d) (x : tensor) : result tensor :=
  match shape x with
  | [n; ci; h; w] =>
      if (ci =? ct_in L) && (0 <? h) && (0 <? w)
      then Ok (mkT [n; ct_out L; convT_out h (ct_k L) (ct_stride L) (ct_pad L);
                    convT_out w (ct_k L) (ct_stride L) (ct_pad L)]
                   (convT2d_data L x))
      else Err RuntimeError
  | _ => Err RuntimeError
  end.

Record InstanceNorm2d : Type := mkInstanceNorm2d {
  n_features : Z;
  n_affine : option ((list Z -> R) * (list Z -> R))
}.

(** [nn.InstanceNorm2d(num_features, affine)]. *)
Definition nn_InstanceNorm2d (sd : state_dict) (name : string)
    (num_features : Z) (affine : bool) : InstanceNorm2d :=
  mkInstanceNorm2d num_features
    (if affine then Some (sd (name @@ ".weight"), sd (name @@ ".bias")) else None).

Definition in_eps : R := (1 / 100000)%R.

Definition spatial_mean (h w : Z) (f : Z -> Z -> R) : R :=
  (sumZ h (fun y => sumZ w (fun xx => f y xx)) / IZR (h * w)%Z)%R.

Definition instnorm_data (L : InstanceNorm2d) (x : tensor) (idx : list Z) : R :=
  match shape x, idx with
  | [_; _; h; w], [n; c; y; xx] =>
      let mean := spatial_mean h w (fun y' x' => tget x [n; c; y'; x']) in
      let var := spatial_mean h w
                   (fun y' x' => ((tget x [n; c; y'; x'] - mean)
                                  * (tget x [n; c; y'; x'] - mean))%R) in
      let xhat := ((tget x idx - mean) / sqrt (var + in_eps))%R in
      match n_affine L with
      | Some (gam, bet) => (xhat * gam [c] + bet [c])%R
      | None => xhat
      end
  | _, _ => 0%R
  end.

Definition InstanceNorm2d_forward (L : InstanceNorm2d) (x : tensor) : result tensor :=
  match shape x with
  | [n; c; h; w] =>
      match n_affine L with
      | Some _ => if c =? n_features L then Ok (mkT [n; c; h; w] (instnorm_data L x))
                  else Err RuntimeError
      | None => Ok (mkT [n; c; h; w] (instnorm_data L x))
      end
  | _ => Err RuntimeError
  end.

Definition ReLU_forward (x : tensor) : tensor := tmap (Rmax 0) x.
Definition Tanh_forward (x : tensor) : tensor := tmap tanh x.

Inductive layer : Type :=
| LConv2d (L : Conv2d)
| LInstanceNorm2d (L : InstanceNorm2d)
| LReLU
| LTanh
| LConvTranspose2d (L : ConvTranspose2d).

Definition layer_forward (l : layer) (x : tensor) : result tensor :=
  match l with
  | LConv2d L => Conv2d_forward L x
  | LInstanceNorm2d L => InstanceNorm2d_forward L x
  | LReLU => Ok (ReLU_forward x)
  | LTanh => Ok (Tanh_forward x)
  | LConvTranspose2d L => ConvTranspose2d_forward L x
  end.

(** [nn.Sequential]: the layers applied in order. *)
Fixpoint Sequential_forward (ls : list layer) (x : tensor) : result tensor :=
  match ls with
  | [] => Ok x
  | l :: ls' => (y <- layer_forward l x ;; Sequential_forward ls' y)%result
  end.

(* ================================================================= *)
(** ** Computations that log events and may raise *)

(** A computation yields the events it performed, in order, and either a
    value or the exception that stopped it. *)
Definition W (E A : Type) : Type := (list E * result A)%type.

Definition wret {E A : Type} (a : A) : W E A := ([], Ok a).

Definition wbind {E A B : Type} (m : W E A) (f : A -> W E B) : W E B :=
  match m with
  | (tr, Ok a) => let (tr', r) := f a in (tr ++ tr', r)
  | (tr, Err e) => (tr, Err e)
  end.

Definition lift {E A : Type} (r : result A) : W E A := ([], r).
Definition tick {E : Type} (e : E) : W E unit := ([e], Ok tt).
Definition raise {E A : Type} (e : py_error) : W E A := ([], Err e).

Declare Scope w_scope.
Delimit Scope w_scope with W.
Notation "x <- m ;; f" := (wbind m (fun x => f))
  (at level 61, m at next level, right associativity) : w_scope.
Notation "' p <- m ;; f" := (wbind m (fun p => f))
  (at level 61, p pattern, m at next level, right associativity) : w_scope.
Notation "m ;;; f" := (wbind m (fun _ => f))
  (at level 61, right associativity) : w_scope.

(** Python's [str(i)] for an integer. *)
Definition str (i : Z) : string := NilZero.string_of_int (Z.to_int i).

(* ================================================================= *)
(** ** class ResidualBlock *)

Record ResidualBlock : Type := mkResidualBlock {
  rb_main : list layer
}.

(** What the constructor does, in order. *)
Inductive init_event : Type :=
| SuperInit
| Construct (cls : string)
| SetAttr (name : string).

(** Lines 18-21: the local [use_affine] after the [if]/[elif]; [None] is the
    local left unbound. *)
Definition ResidualBlock_use_affine (net_mode : option string) : option bool :=
  match net_mode with
  | None => Some true
  | Some m => if (m =? "p")%string then Some true
              else if (m =? "t")%string then Some false
              else None
  end.

(** Reading a local variable: [UnboundLocalError] when it was never assigned. *)
Definition read_local {E A : Type} (v : option A) : W E A :=
  match v with
  | Some a => wret a
  | None => raise UnboundLocalError
  end.

(** [ResidualBlock.__init__]; the arguments of [nn.Sequential] are evaluated
    left to right, each one constructing its layer. *)
Definition ResidualBlock_init (sd : state_dict) (name : string)
    (dim_in dim_out : Z) (net_mode : option string) : W init_event ResidualBlock :=
  (let use_affine := ResidualBlock_use_affine net_mode in
   tick SuperInit ;;;
   tick (Construct "Conv2d") ;;;
   let l0 := LConv2d (nn_Conv2d sd (name @@ ".main.0") dim_in dim_out 3 1 1 false) in
   a1 <- read_local use_affine ;;
   tick (Construct "InstanceNorm2d") ;;;
   let l1 := LInstanceNorm2d (nn_InstanceNorm2d sd (name @@ ".main.1") dim_out a1) in
   tick (Construct "ReLU") ;;;
   let l2 := LReLU in
   tick (Construct "Conv2d") ;;;
   let l3 := LConv2d (nn_Conv2d sd (name @@ ".main.3") dim_out dim_out 3 1 1 false) in
   a4 <- read_local use_affine ;;
   tick (Construct "InstanceNorm2d") ;;;
   let l4 := LInstanceNorm2d (nn_InstanceNorm2d sd (name @@ ".main.4") dim_out a4) in
   tick (Construct "Sequential") ;;;
   tick (SetAttr "main") ;;;
   wret (mkResidualBlock [l0; l1; l2; l3; l4]))%W.

(** [ResidualBlock.forward]: [x + self.main(x)]. *)
Definition ResidualBlock_forward (blk : ResidualBlock) (x : tensor) : result tensor :=
  (y <- Sequential_forward (rb_main blk) x ;; tadd x y)%result.

(* ================================================================= *)
(** ** class GetMatrix *)

Record GetMatrix : Type := mkGetMatrix {
  get_gamma : Conv2d;
  get_beta : Conv2d
}.

Definition GetMatrix_init (sd : state_dict) (name : string) (dim_in dim_out : Z)
  : GetMatrix :=
  mkGetMatrix (nn_Conv2d sd (name @@ ".get_gamma") dim_in dim_out 1 1 0 false)
              (nn_Conv2d sd (name @@ ".get_beta") dim_in dim_out 1 1 0 false).

Definition GetMatrix_forward (m : GetMatrix) (x : tensor)
  : result (tensor * tensor * tensor) :=
  (gamma <- Conv2d_forward (get_gamma m) x ;;
   beta <- Conv2d_forward (get_beta m) x ;;
   Ok (x, gamma, beta))%result.

(* ================================================================= *)
(** ** class NONLocalBlock2D *)

Record NONLocalBlock2D : Type := mkNONLocalBlock2D {
  nl_g : Conv2d
}.

Definition NONLocalBlock2D_init (sd : state_dict) (name : string) : NONLocalBlock2D :=
  mkNONLocalBlock2D (nn_Conv2d sd (name @@ ".g") 1 1 1 1 0 true).

(** [x.size(k)] / [x.shape[k]]. *)
Definition size_at (x : tensor) (k : nat) : result Z :=
  match nth_error (shape x) k with
  | Some d => Ok d
  | None => Err IndexError
  end.

Definition NONLocalBlock2D_forward (blk : NONLocalBlock2D) (source : tensor)
    (weight : sparse) : result tensor :=
  (batch_size <- size_at source 0 ;;
   g_source <- view source [batch_size; 1; -1] ;;
   g_source <- permute g_source [0; 2; 1] ;;
   y <- bmm (to_dense weight) g_source ;;
   y <- permute y [0; 2; 1] ;;
   let y := contiguous y in
   view y ([batch_size; 1] ++ skipn 2 (shape source)))%result.

(* ================================================================= *)
(** ** class Generator *)

(** The sub-modules a generator holds as attributes. *)
Inductive module : Type :=
| MLayer (l : layer)
| MSequential (ls : list layer)
| MResidualBlock (blk : ResidualBlock)
| MGetMatrix (m : GetMatrix)
| MNONLocalBlock2D (blk : NONLocalBlock2D).

(** The attributes of [self], most recent assignment first. *)
Record Generator : Type := mkGenerator {
  attrs : list (string * module)
}.

Definition setattr (self : Generator) (name : string) (m : module) : Generator :=
  mkGenerator ((name, m) :: attrs self).

Fixpoint lookup (name : string) (l : list (string * module)) : option module :=
  match l with
  | [] => None
  | (k, m) :: t => if (k =? name)%string then Some m else lookup name t
  end.

Definition getattr (self : Generator) (name : string) : result module :=
  match lookup name (attrs self) with
  | Some m => Ok m
  | None => Err AttributeError
  end.

(** Calling a module on one tensor. *)
Definition module_call (m : module) (x : tensor) : result tensor :=
  match m with
  | MLayer l => layer_forward l x
  | MSequential ls => Sequential_forward ls x
  | MResidualBlock blk => ResidualBlock_forward blk x
  | MGetMatrix _ => Err TypeError
  | MNONLocalBlock2D _ => Err TypeError
  end.

(** A [for] loop over [l] whose body updates a state and may raise. *)
Fixpoint for_result {S : Type} (l : list Z) (body : Z -> S -> result S) (s : S)
  : result S :=
  match l with
  | [] => Ok s
  | i :: l' => (s' <- body i s ;; for_result l' body s')%result
  end.

(** [Generator.__init__] (lines 70-131).  The loops carry [self] and
    [curr_dim]. *)
Definition Generator_init (sd : state_dict) : result Generator :=
  (let self := mkGenerator [] in
   (* PNet *)
   let layers := [LConv2d (nn_Conv2d sd "pnet_in.0" 3 64 7 1 3 false);
                  LInstanceNorm2d (nn_InstanceNorm2d sd "pnet_in.1" 64 true);
                  LReLU] in
   let self := setattr self "pnet_in" (MSequential layers) in
   (* Down-Sampling *)
   let curr_dim := 64 in
   st <- for_result (range 2)
           (fun i '(self, curr_dim) =>
              let name := "pnet_down_" @@ str (i + 1) in
              let layers := [LConv2d (nn_Conv2d sd (name @@ ".0") curr_dim (curr_dim * 2) 4 2 1 false);
                             LInstanceNorm2d (nn_InstanceNorm2d sd (name @@ ".1") (curr_dim * 2) true);
                             LReLU] in
              Ok (setattr self name (MSequential layers), curr_dim * 2))
           (self, curr_dim) ;;
   let '(self, curr_dim) := st in
   (* Bottleneck *)
   let self := setattr self "atten_bottleneck_g"
                 (MNONLocalBlock2D (NONLocalBlock2D_init sd "atten_bottleneck_g")) in
   let self := setattr self "atten_bottleneck_b"
                 (MNONLocalBlock2D (NONLocalBlock2D_init sd "atten_bottleneck_b")) in
   let self := setattr self "simple_spade"
                 (MGetMatrix (GetMatrix_init sd "simple_spade" curr_dim 1)) in
   self <- for_result (range 3)
             (fun i self =>
                let name := "pnet_bottleneck_" @@ str (i + 1) in
                blk <- snd (ResidualBlock_init sd name curr_dim curr_dim (Some "p")) ;;
                Ok (setattr self name (MResidualBlock blk)))
             self ;;
   (* TNet *)
   let self := setattr self "tnet_in_conv"
                 (MLayer (LConv2d (nn_Conv2d sd "tnet_in_conv" 3 64 7 1 3 false))) in
   let self := setattr self "tnet_in_spade"
                 (MLayer (LInstanceNorm2d (nn_InstanceNorm2d sd "tnet_in_spade" 64 false))) in
   let self := setattr self "tnet_in_relu" (MLayer LReLU) in
   (* Down-Sampling *)
   let curr_dim := 64 in
   st <- for_result (range 2)
           (fun i '(self, curr_dim) =>
              let k := str (i + 1) in
              let self := setattr self ("tnet_down_conv_" @@ k)
                            (MLayer (LConv2d (nn_Conv2d sd ("tnet_down_conv_" @@ k)
                                                curr_dim (curr_dim * 2) 4 2 1 false))) in
              let self := setattr self ("tnet_down_spade_" @@ k)
                            (MLayer (LInstanceNorm2d
                                       (nn_InstanceNorm2d sd ("tnet_down_spade_" @@ k)
                                          (curr_dim * 2) false))) in
              let self := setattr self ("tnet_down_relu_" @@ k) (MLayer LReLU) in
              Ok (self, curr_dim * 2))
           (self, curr_dim) ;;
   let '(self, curr_dim) := st in
   (* Bottleneck *)
   self <- for_result (range 6)
             (fun i self =>
                let name := "tnet_bottleneck_" @@ str (i + 1) in
                blk <- snd (ResidualBlock_init sd name curr_dim curr_dim (Some "t")) ;;
                Ok (setattr self name (MResidualBlock blk)))
             self ;;
   (* Up-Sampling *)
   st <- for_result (range 2)
           (fun i '(self, curr_dim) =>
              let k := str (i + 1) in
              let self := setattr self ("tnet_up_conv_" @@ k)
                            (MLayer (LConvTranspose2d
                                       (nn_ConvTranspose2d sd ("tnet_up_conv_" @@ k)
                                          curr_dim (curr_dim / 2) 4 2 1))) in
              let self := setattr self ("tnet_up_spade_" @@ k)
                            (MLayer (LInstanceNorm2d
                                       (nn_InstanceNorm2d sd ("tnet_up_spade_" @@ k)
                                          (curr_dim / 2) false))) in
              let self := setattr self ("tnet_up_relu_" @@ k) (MLayer LReLU) in
              Ok (self, curr_dim / 2))
           (self, curr_dim) ;;
   let '(self, curr_dim) := st in
   let layers := [LConv2d (nn_Conv2d sd "tnet_out.0" curr_dim 3 7 1 3 false); LTanh] in
   let self := setattr self "tnet_out" (MSequential layers) in
   Ok self)%result.

(** [Generator.atten_feature] (static method, lines 134-154). *)
Definition atten_feature (mask_s : tensor) (weight : sparse) (gamma_s beta_s : tensor)
    (atten_module_g atten_module_b : NONLocalBlock2D) : result (tensor * tensor) :=
  (channel_num <- size_at gamma_s 1 ;;
   m <- match skipn 2 (shape gamma_s) with
        | [oh; ow] => interpolate mask_s oh ow
        | _ => Err RuntimeError
        end ;;
   mask_s_re <- repeat m [1; channel_num; 1; 1] ;;
   gamma_s_re <- repeat gamma_s [3; 1; 1; 1] ;;
   gamma_s <- tmul gamma_s_re mask_s_re ;;
   beta_s_re <- repeat beta_s [3; 1; 1; 1] ;;
   beta_s <- tmul beta_s_re mask_s_re ;;
   gamma <- NONLocalBlock2D_forward atten_module_g gamma_s weight ;;
   beta <- NONLocalBlock2D_forward atten_module_b beta_s weight ;;
   g0 <- select0 gamma 0 ;;
   g1 <- select0 gamma 1 ;;
   g2 <- select0 gamma 2 ;;
   g01 <- tadd g0 g1 ;;
   g012 <- tadd g01 g2 ;;
   let gamma := unsqueeze0 g012 in
   b0 <- select0 beta 0 ;;
   b1 <- select0 beta 1 ;;
   b2 <- select0 beta 2 ;;
   b01 <- tadd b0 b1 ;;
   b012 <- tadd b01 b2 ;;
   let beta := unsqueeze0 b012 in
   Ok (gamma, beta))%result.

Definition HW : Z := 64 * 64.

(** Lines 162-184 of [Generator.get_weight]: the raw similarity matrix, the
    batched product of the content and style descriptors. *)
Definition get_weight_similarity (mask_c mask_s fea_c : tensor) (fea_s : option tensor)
    (diff_c diff_s : tensor) : result tensor :=
  (let batch_size := 3 in
   fea_s <- match fea_s with
            | Some t => Ok t
            | None => Err AssertionError
            end ;;
   channel_num <- size_at fea_s 1 ;;
   m <- interpolate mask_c 64 64 ;;
   mask_c_re <- repeat m [1; channel_num; 1; 1] ;;
   fea_c <- repeat fea_c [3; 1; 1; 1] ;;
   fea_c <- tmul fea_c mask_c_re ;;
   m <- interpolate mask_s 64 64 ;;
   mask_s_re <- repeat m [1; channel_num; 1; 1] ;;
   fea_s <- repeat fea_s [3; 1; 1; 1] ;;
   fea_s <- tmul fea_s mask_s_re ;;
   theta_input <- cat (mul_scalar fea_c (1 / 100)%R) diff_c 1 ;;
   phi_input <- cat (mul_scalar fea_s (1 / 100)%R) diff_s 1 ;;
   theta_target <- view theta_input [batch_size; -1; HW] ;;
   theta_target <- permute theta_target [0; 2; 1] ;;
   phi_source <- view phi_input [batch_size; -1; HW] ;;
   bmm theta_target phi_source)%result.

(** Lines 185-189: the sparse correspondence matrix. *)
Definition sparsify (weight : tensor) : result sparse :=
  (let weight_ind := nonzero weight in
   let weight := mul_scalar weight 200%R in
   weight <- softmax_last weight ;;
   vals <- index_coords weight weight_ind ;;
   sparse_FloatTensor weight_ind vals [3; HW; HW])%result.

(** [Generator.get_weight] (static method, lines 157-189). *)
Definition get_weight (mask_c mask_s fea_c : tensor) (fea_s : option tensor)
    (diff_c diff_s : tensor) : result sparse :=
  (weight <- get_weight_similarity mask_c mask_s fea_c fea_s diff_c diff_s ;;
   sparsify weight)%result.

(* ----------------------------------------------------------------- *)
(** *** Generator.forward_atten *)

(** What a run of [forward_atten] does, in order: calls of sub-modules of
    [self], the two static helpers, and the affine modulation of line 234. *)
Inductive event : Type :=
| ECall (name : string)
| EGetWeight
| EAttenFeature
| EFuse (i : Z).

(** The two kinds of return value (lines 230 and 250). *)
Inductive retval : Type :=
| RTensor (c_tnet : tensor)
| RList (gamma beta : tensor).

(** The outcome of a loop body: go on with the next iteration, or leave the
    function with a [return]. *)
Inductive ctrl (S V : Type) : Type :=
| Continue (s : S)
| Return (v : V).

Arguments Continue {S V} s.
Arguments Return {S V} v.

Fixpoint for_each {E S V : Type} (l : list Z) (body : Z -> S -> W E (ctrl S V)) (s : S)
  : W E (ctrl S V) :=
  match l with
  | [] => wret (Continue s)
  | i :: l' =>
      (r <- body i s ;;
       match r with
       | Continue s' => for_each l' body s'
       | Return v => wret (Return v)
       end)%W
  end.

(** [self.name(x)] for a sub-module called on one tensor. *)
Definition call (self : Generator) (name : string) (x : tensor) : W event tensor :=
  (m <- lift (getattr self name) ;;
   tick (ECall name) ;;;
   lift (module_call m x))%W.

(** [getattr(self, name)(x)] where the attribute was fetched earlier. *)
Definition call_module (name : string) (m : module) (x : tensor) : W event tensor :=
  (tick (ECall name) ;;; lift (module_call m x))%W.

Definition as_GetMatrix (m : module) : result GetMatrix :=
  match m with MGetMatrix g => Ok g | _ => Err TypeError end.

Definition as_NONLocalBlock2D (m : module) : result NONLocalBlock2D :=
  match m with MNONLocalBlock2D b => Ok b | _ => Err TypeError end.

(** The local variables that the bottleneck loop reads and writes. *)
Record locals : Type := mkLocals {
  l_s : tensor;
  l_c_tnet : tensor;
  l_gamma : option tensor;
  l_beta : option tensor;
  l_cur_pnet_bottleneck : option (string * module)
}.

Definition is_None {A : Type} (o : option A) : bool :=
  match o with None => true | Some _ => false end.

(** Line 234: [c_tnet * (1 + gamma) + beta], evaluated left to right:
    [1 + gamma] first (a [TypeError] for None), then the product with
    [c_tnet] (a [RuntimeError] when the shapes do not broadcast), then the
    sum with [beta] (a [TypeError] for None). *)
Definition fuse (c_tnet : tensor) (gamma beta : option tensor) : result tensor :=
  match gamma with
  | None => Err TypeError
  | Some g =>
      (t <- tmul c_tnet (scalar_add 1%R g) ;;
       match beta with
       | Some b => tadd t b
       | None => Err TypeError
       end)%result
  end.

(** One iteration of the down-sampling loop (lines 206-215). *)
Definition down_body (self : Generator) (gamma : option tensor) (i : Z)
    (st : tensor * tensor) : W event (ctrl (tensor * tensor) retval) :=
  (let '(s, c_tnet) := st in
   let k := str (i + 1) in
   s <- (if is_None gamma
         then cur_pnet_down <- lift (getattr self ("pnet_down_" @@ k)) ;;
              call_module ("pnet_down_" @@ k) cur_pnet_down s
         else wret s) ;;
   cur_tnet_down_conv <- lift (getattr self ("tnet_down_conv_" @@ k)) ;;
   cur_tnet_down_spade <- lift (getattr self ("tnet_down_spade_" @@ k)) ;;
   cur_tnet_down_relu <- lift (getattr self ("tnet_down_relu_" @@ k)) ;;
   c_tnet <- call_module ("tnet_down_conv_" @@ k) cur_tnet_down_conv c_tnet ;;
   c_tnet <- call_module ("tnet_down_spade_" @@ k) cur_tnet_down_spade c_tnet ;;
   c_tnet <- call_module ("tnet_down_relu_" @@ k) cur_tnet_down_relu c_tnet ;;
   wret (Continue (s, c_tnet)))%W.

(** Lines 224-234: what happens at [i == 3]. *)
Definition inject (self : Generator) (mask_c mask_s diff_c diff_s : tensor)
    (ret : bool) (i : Z) (st : locals) : W event (ctrl locals retval) :=
  (r <- match l_gamma st with
        | None =>
            spade <- lift (m <- getattr self "simple_spade" ;; as_GetMatrix m)%result ;;
            tick (ECall "simple_spade") ;;;
            '(s, gamma, beta) <- lift (GetMatrix_forward spade (l_s st)) ;;
            tick EGetWeight ;;;
            weight <- lift (get_weight mask_c mask_s (l_c_tnet st) (Some s) diff_c diff_s) ;;
            ag <- lift (m <- getattr self "atten_bottleneck_g" ;; as_NONLocalBlock2D m)%result ;;
            ab <- lift (m <- getattr self "atten_bottleneck_b" ;; as_NONLocalBlock2D m)%result ;;
            tick EAttenFeature ;;;
            '(gamma, beta) <- lift (atten_feature mask_s weight gamma beta ag ab) ;;
            let st := mkLocals s (l_c_tnet st) (Some gamma) (Some beta)
                               (l_cur_pnet_bottleneck st) in
            if ret then wret (Return (RList gamma beta)) else wret (Continue st)
        | Some _ => wret (Continue st)
        end ;;
   match r with
   | Return v => wret (Return v)
   | Continue st =>
       tick (EFuse i) ;;;
       c_tnet <- lift (fuse (l_c_tnet st) (l_gamma st) (l_beta st)) ;;
       wret (Continue (mkLocals (l_s st) c_tnet (l_gamma st) (l_beta st)
                                (l_cur_pnet_bottleneck st)))
   end)%W.

(** One iteration of the bottleneck loop (lines 219-238). *)
Definition bottleneck_body (self : Generator) (mask_c mask_s diff_c diff_s : tensor)
    (ret : bool) (i : Z) (st : locals) : W event (ctrl locals retval) :=
  (let k := str (i + 1) in
   cur_pnet <- (if is_None (l_gamma st) && (i <=? 2)
                then m <- lift (getattr self ("pnet_bottleneck_" @@ k)) ;;
                     wret (Some ("pnet_bottleneck_" @@ k, m))
                else wret (l_cur_pnet_bottleneck st)) ;;
   cur_tnet_bottleneck <- lift (getattr self ("tnet_bottleneck_" @@ k)) ;;
   let st := mkLocals (l_s st) (l_c_tnet st) (l_gamma st) (l_beta st) cur_pnet in
   r <- (if i =? 3
         then inject self mask_c mask_s diff_c diff_s ret i st
         else wret (Continue st)) ;;
   match r with
   | Return v => wret (Return v)
   | Continue st =>
       s <- (if is_None (l_gamma st) && (i <=? 2)
             then '(name, m) <- read_local (l_cur_pnet_bottleneck st) ;;
                  call_module name m (l_s st)
             else wret (l_s st)) ;;
       c_tnet <- call_module ("tnet_bottleneck_" @@ k) cur_tnet_bottleneck (l_c_tnet st) ;;
       wret (Continue (mkLocals s c_tnet (l_gamma st) (l_beta st)
                                (l_cur_pnet_bottleneck st)))
   end)%W.

(** One iteration of the up-sampling loop (lines 242-247). *)
Definition up_body (self : Generator) (i : Z) (c_tnet : tensor)
  : W event (ctrl tensor retval) :=
  (let k := str (i + 1) in
   cur_tnet_up_conv <- lift (getattr self ("tnet_up_conv_" @@ k)) ;;
   cur_tnet_up_spade <- lift (getattr self ("tnet_up_spade_" @@ k)) ;;
   cur_tnet_up_relu <- lift (getattr self ("tnet_up_relu_" @@ k)) ;;
   c_tnet <- call_module ("tnet_up_conv_" @@ k) cur_tnet_up_conv c_tnet ;;
   c_tnet <- call_module ("tnet_up_spade_" @@ k) cur_tnet_up_spade c_tnet ;;
   c_tnet <- call_module ("tnet_up_relu_" @@ k) cur_tnet_up_relu c_tnet ;;
   wret (Continue c_tnet))%W.

(** Lines 240-250: the up-sampling loop and the output stage. *)
Definition forward_tail (self : Generator) (c_tnet : tensor) : W event retval :=
  (r <- for_each (range 2) (up_body self) c_tnet ;;
   match r with
   | Return v => wret v
   | Continue c_tnet =>
       c_tnet <- call self "tnet_out" c_tnet ;;
       wret (RTensor c_tnet)
   end)%W.

(** [Generator.forward_atten] (lines 191-250). *)
Definition forward_atten (self : Generator) (c s mask_c mask_s diff_c diff_s : tensor)
    (gamma beta : option tensor) (ret : bool) : W event retval :=
  (c_tnet <- call self "tnet_in_conv" c ;;
   s <- call self "pnet_in" s ;;
   c_tnet <- call self "tnet_in_spade" c_tnet ;;
   c_tnet <- call self "tnet_in_relu" c_tnet ;;
   (* down-sampling *)
   r <- for_each (range 2) (down_body self gamma) (s, c_tnet) ;;
   match r with
   | Return v => wret v
   | Continue (s, c_tnet) =>
       (* bottleneck *)
       r <- for_each (range 6)
              (bottleneck_body self mask_c mask_s diff_c diff_s ret)
              (mkLocals s c_tnet gamma beta None) ;;
       match r with
       | Return v => wret v
       | Continue st => forward_tail self (l_c_tnet st)
       end
   end)%W.

(* ================================================================= *)
(** ** Definitions used in the statements *)

(** The layers of [self.main] that [ResidualBlock.__init__] builds for
    [dim_in = dim_out = dim] and the affine flag [a]. *)
Definition residual_layers (sd : state_dict) (name : string) (dim : Z) (a : bool)
  : list layer :=
  [LConv2d (nn_Conv2d sd (name @@ ".main.0") dim dim 3 1 1 false);
   LInstanceNorm2d (nn_InstanceNorm2d sd (name @@ ".main.1") dim a);
   LReLU;
   LConv2d (nn_Conv2d sd (name @@ ".main.3") dim dim 3 1 1 false);
   LInstanceNorm2d (nn_InstanceNorm2d sd (name @@ ".main.4") dim a)].

(** A small all-zero input of shape (1, 1, 2, 2). *)
Definition x_small : tensor := zeros [1; 1; 2; 2].

(** A state dictionary whose only non-zero parameter is the bias of the
    second normalization of the block named [blk]. *)
Definition sd_bias : state_dict :=
  fun key _ => if (key =? "blk.main.4.bias")%string then 1%R else 0%R.

(** A state dictionary with every parameter zero, and an empty sparse
    matrix of size (1, 4, 4). *)
Definition sd_zero : state_dict := fun _ _ => 0%R.
Definition w_empty : sparse := mkSparse [] [] [1; 4; 4].

(** [gm] is [g], a map of shape (1, 1, H, W), replicated over the three
    region slots and multiplied by the mask resized to (H, W). *)
Definition masked_replica (mask g gm : tensor) (hm wm H W : Z) : Prop :=
  shape gm = [3; 1; H; W]
  /\ forall r y x,
      0 <= r < 3 -> 0 <= y < H -> 0 <= x < W ->
      tget gm [r; 0; y; x] =
        Rmult (tget g [0; 0; y; x])
              (tget mask [r; 0; Z.min (y * hm / H) (hm - 1); Z.min (x * wm / W) (wm - 1)]).

(** The sum of the three region slots of [yg] at a position. *)
Definition slot_sum (yg : tensor) (y x : Z) : R :=
  Rplus (Rplus (tget yg [0; 0; y; x]) (tget yg [1; 0; y; x])) (tget yg [2; 0; y; x]).


(** Small inputs of [atten_feature]: an all-ones mask of shape (3, 1, 1, 1),
    an empty correspondence matrix of size (3, 1, 1), and all-zero makeup
    maps with one and with two channels. *)
Definition mask_ones : tensor := full [3; 1; 1; 1] 1%R.
Definition w_empty3 : sparse := mkSparse [] [] [3; 1; 1].
Definition g_one : tensor := zeros [1; 1; 1; 1].
Definition g_two : tensor := zeros [1; 2; 1; 1].


(** The softmax weight of position [j] in row [(b, i)] of the similarity
    matrix [Wt] after sharpening by 200 (lines 186-187). *)
Definition softmax_row (Wt : tensor) (b i j : Z) : R :=
  let row := fun j' => Rmult (tget Wt [b; i; j']) 200 in
  let mx := row_max HW row in
  Rdiv (exp32 (Rminus (row j) mx))
       (sumZ HW (fun j' => exp32 (Rminus (row j') mx))).

(** The sum of the entries of row [(b, i)] of the densified sparse matrix:
    the retained entries of that row. *)
Definition row_sum (sp : sparse) (b i : Z) : R :=
  sumZ HW (fun j => tget (to_dense sp) [b; i; j]).

(** The softmax weight of the positions of row [(b, i)] whose raw similarity
    is exactly zero. *)
Definition dropped_mass (Wt : tensor) (b i : Z) : R :=
  sumZ HW (fun j => if Rnonzero (tget Wt [b; i; j]) then 0%R else softmax_row Wt b i j).

(** The row-stochastic property as the specification words it, for masks of
    shape (3, 1, 256, 256), features of shape (1, 256, 64, 64) and difference
    tensors of shape (3, 136, ds, ds). *)
Definition rows_sum_to_one (ds : Z) : Prop :=
  forall mask_c mask_s fea_c fea_s diff_c diff_s,
    shape mask_c = [3; 1; 256; 256] -> shape mask_s = [3; 1; 256; 256] ->
    shape fea_c = [1; 256; 64; 64] -> shape fea_s = [1; 256; 64; 64] ->
    shape diff_c = [3; 136; ds; ds] -> shape diff_s = [3; 136; ds; ds] ->
    exists sp,
      get_weight mask_c mask_s fea_c (Some fea_s) diff_c diff_s = Ok sp
      /\ forall b i, 0 <= b < 3 -> 0 <= i < HW -> row_sum sp b i = 1%R.


(** Inputs of [get_weight] in the reference configuration: all-ones masks,
    all-zero features and all-zero difference tensors of spatial size [ds]. *)
Definition mask256 : tensor := full [3; 1; 256; 256] 1%R.
Definition fea_zero : tensor := zeros [1; 256; 64; 64].
Definition diff_zero (ds : Z) : tensor := zeros [3; 136; ds; ds].


(** The generator that [Generator.__init__] returns for the parameter
    values [sd]. *)
Definition generator_of (sd : state_dict) : Generator :=
  match Generator_init sd with
  | Ok g => g
  | Err _ => mkGenerator []
  end.

(** A well-formed image tensor: rank 4 with three channels and a non-empty
    spatial extent. *)
Definition image_shaped (x : tensor) : Prop :=
  exists n h w, shape x = [n; 3; h; w] /\ 1 <= h /\ 1 <= w.

(** The shape of a module's output, or the exception it raises, as a
    function of the shape of its input. *)
Definition rmap {A B : Type} (f : A -> B) (r : result A) : result B :=
  match r with
  | Ok a => Ok (f a)
  | Err e => Err e
  end.

Definition layer_shape (l : layer) (sh : list Z) : result (list Z) :=
  match l with
  | LConv2d L =>
      match sh with
      | [n; ci; h; w] =>
          if (ci =? c_in L) && (c_k L <=? h + 2 * c_pad L) && (c_k L <=? w + 2 * c_pad L)
          then Ok [n; c_out L; conv_out h (c_k L) (c_stride L) (c_pad L);
                   conv_out w (c_k L) (c_stride L) (c_pad L)]
          else Err RuntimeError
      | _ => Err RuntimeError
      end
  | LInstanceNorm2d L =>
      match sh with
      | [n; c; h; w] =>
          match n_affine L with
          | Some _ => if c =? n_features L then Ok [n; c; h; w] else Err RuntimeError
          | None => Ok [n; c; h; w]
          end
      | _ => Err RuntimeError
      end
  | LReLU => Ok sh
  | LTanh => Ok sh
  | LConvTranspose2d L =>
      match sh with
      | [n; ci; h; w] =>
          if (ci =? ct_in L) && (0 <? h) && (0 <? w)
          then Ok [n; ct_out L; convT_out h (ct_k L) (ct_stride L) (ct_pad L);
                   convT_out w (ct_k L) (ct_stride L) (ct_pad L)]
          else Err RuntimeError
      | _ => Err RuntimeError
      end
  end.

Fixpoint sequential_shape (ls : list layer) (sh : list Z) : result (list Z) :=
  match ls with
  | [] => Ok sh
  | l :: ls' => (sh' <- layer_shape l sh ;; sequential_shape ls' sh')%result
  end.

Definition module_shape (m : module) (sh : list Z) : result (list Z) :=
  match m with
  | MLayer l => layer_shape l sh
  | MSequential ls => sequential_shape ls sh
  | MResidualBlock blk =>
      (sh' <- sequential_shape (rb_main blk) sh ;; broadcast_shapes sh sh')%result
  | MGetMatrix _ => Err TypeError
  | MNONLocalBlock2D _ => Err TypeError
  end.


(** Small well-shaped inputs of [forward_atten]: all-zero images of shapes
    (1, 3, 4, 4) and (2, 3, 8, 8). *)
Definition img_small : tensor := zeros [1; 3; 4; 4].
Definition img_other : tensor := zeros [2; 3; 8; 8].


(* ----------------------------------------------------------------- *)
(** *** The pipeline as the specification words it (section 4.6) *)

(** [self.name(x)], without the event log. *)
Definition call_r (self : Generator) (name : string) (x : tensor) : result tensor :=
  (m <- getattr self name ;; module_call m x)%result.

(** The content branch up to the injection point: input stage, two
    down-sampling stages, bottleneck blocks 1 to 3. *)
Definition content_head (self : Generator) (c : tensor) : result tensor :=
  (c <- call_r self "tnet_in_conv" c ;;
   c <- call_r self "tnet_in_spade" c ;;
   c <- call_r self "tnet_in_relu" c ;;
   c <- call_r self "tnet_down_conv_1" c ;;
   c <- call_r self "tnet_down_spade_1" c ;;
   c <- call_r self "tnet_down_relu_1" c ;;
   c <- call_r self "tnet_down_conv_2" c ;;
   c <- call_r self "tnet_down_spade_2" c ;;
   c <- call_r self "tnet_down_relu_2" c ;;
   c <- call_r self "tnet_bottleneck_1" c ;;
   c <- call_r self "tnet_bottleneck_2" c ;;
   call_r self "tnet_bottleneck_3" c)%result.

(** The style branch: input stage, two down-sampling stages, its three
    bottleneck blocks. *)
Definition style_head (self : Generator) (s : tensor) : result tensor :=
  (s <- call_r self "pnet_in" s ;;
   s <- call_r self "pnet_down_1" s ;;
   s <- call_r self "pnet_down_2" s ;;
   s <- call_r self "pnet_bottleneck_1" s ;;
   s <- call_r self "pnet_bottleneck_2" s ;;
   call_r self "pnet_bottleneck_3" s)%result.

(** The makeup parameters computed from the two branches: GetMatrix, then
    [get_weight], then [atten_feature]. *)
Definition makeup_params (self : Generator) (mask_c mask_s diff_c diff_s : tensor)
    (c3 s3 : tensor) : result (tensor * tensor) :=
  (spade <- (m <- getattr self "simple_spade" ;; as_GetMatrix m) ;;
   '(s, gamma, beta) <- GetMatrix_forward spade s3 ;;
   weight <- get_weight mask_c mask_s c3 (Some s) diff_c diff_s ;;
   ag <- (m <- getattr self "atten_bottleneck_g" ;; as_NONLocalBlock2D m) ;;
   ab <- (m <- getattr self "atten_bottleneck_b" ;; as_NONLocalBlock2D m) ;;
   atten_feature mask_s weight gamma beta ag ab)%result.

(** The content branch after the injection point: bottleneck blocks 4 to 6,
    two up-sampling stages, the output stage. *)
Definition content_tail (self : Generator) (c : tensor) : result tensor :=
  (c <- call_r self "tnet_bottleneck_4" c ;;
   c <- call_r self "tnet_bottleneck_5" c ;;
   c <- call_r self "tnet_bottleneck_6" c ;;
   c <- call_r self "tnet_up_conv_1" c ;;
   c <- call_r self "tnet_up_spade_1" c ;;
   c <- call_r self "tnet_up_relu_1" c ;;
   c <- call_r self "tnet_up_conv_2" c ;;
   c <- call_r self "tnet_up_spade_2" c ;;
   c <- call_r self "tnet_up_relu_2" c ;;
   call_r self "tnet_out" c)%result.

(** Mix/test mode: the supplied gamma and beta modulate the content features
    once, between bottleneck blocks 3 and 4. *)
Definition spec_mix (self : Generator) (c gamma : tensor) (beta : option tensor)
  : result tensor :=
  (c3 <- content_head self c ;;
   x <- fuse c3 (Some gamma) beta ;;
   content_tail self x)%result.

(** Training mode: gamma and beta are computed from the two branches and
    modulate the content features once, between bottleneck blocks 3 and 4. *)
Definition spec_train (self : Generator) (c s mask_c mask_s diff_c diff_s : tensor)
  : result tensor :=
  (c3 <- content_head self c ;;
   s3 <- style_head self s ;;
   '(gamma, beta) <- makeup_params self mask_c mask_s diff_c diff_s c3 s3 ;;
   x <- fuse c3 (Some gamma) (Some beta) ;;
   content_tail self x)%result.

(** The makeup parameters that training mode computes. *)
Definition spec_params (self : Generator) (c s mask_c mask_s diff_c diff_s : tensor)
  : result (tensor * tensor) :=
  (c3 <- content_head self c ;;
   s3 <- style_head self s ;;
   makeup_params self mask_c mask_s diff_c diff_s c3 s3)%result.

(** The bottleneck iterations at which a run applied the modulation. *)
Definition fuse_events (tr : list event) : list Z :=
  flat_map (fun e => match e with EFuse i => [i] | _ => [] end) tr.

(** The events of the stages up to and including the computation of gamma
    and beta: everything except the modulation, content bottleneck blocks 4
    to 6, the up-sampling stages and the output stage. *)
Definition head_event (e : event) : bool :=
  match e with
  | ECall name =>
      existsb (String.eqb name)
        ["tnet_in_conv"; "pnet_in"; "tnet_in_spade"; "tnet_in_relu";
         "pnet_down_1"; "tnet_down_conv_1"; "tnet_down_spade_1"; "tnet_down_relu_1";
         "pnet_down_2"; "tnet_down_conv_2"; "tnet_down_spade_2"; "tnet_down_relu_2";
         "pnet_bottleneck_1"; "tnet_bottleneck_1"; "pnet_bottleneck_2";
         "tnet_bottleneck_2"; "pnet_bottleneck_3"; "tnet_bottleneck_3";
         "simple_spade"]
  | EGetWeight => true
  | EAttenFeature => true
  | EFuse _ => false
  end.


(** Inputs of [forward_atten] in the reference configuration: all-zero
    images of batch 1 and 2, and an all-zero makeup map at the bottleneck
    resolution. *)
Definition img256 : tensor := zeros [1; 3; 256; 256].
Definition img256x2 : tensor := zeros [2; 3; 256; 256].
Definition g_ref : tensor := zeros [1; 1; 64; 64].

(** The output contract as the specification words it, for images of shape
    (N, 3, H, W), masks of shape (3, 1, H, W) and difference tensors of shape
    (3, 136, ds, ds). *)
Definition forward_contract (ds : Z) : Prop :=
  forall sd c s mask_c mask_s diff_c diff_s N H W,
    shape c = [N; 3; H; W] -> shape s = [N; 3; H; W] ->
    1 <= N -> 1 <= H -> 1 <= W ->
    shape mask_c = [3; 1; H; W] -> shape mask_s = [3; 1; H; W] ->
    shape diff_c = [3; 136; ds; ds] -> shape diff_s = [3; 136; ds; ds] ->
    exists y,
      snd (forward_atten (generator_of sd) c s mask_c mask_s diff_c diff_s
                         None None false) = Ok (RTensor y)
      /\ shape y = [N; 3; H; W]
      /\ forall idx, Rle (-1) (tget y idx) /\ Rle (tget y idx) 1.

(* ================================================================= *)
(** ** Definitions used in further properties *)

(** The calls and the modulation of a complete run with gamma None, in
    source order (lines 199-249). *)
Definition train_trace : list event :=
  [ECall "tnet_in_conv"; ECall "pnet_in"; ECall "tnet_in_spade"; ECall "tnet_in_relu";
   ECall "pnet_down_1"; ECall "tnet_down_conv_1"; ECall "tnet_down_spade_1";
   ECall "tnet_down_relu_1";
   ECall "pnet_down_2"; ECall "tnet_down_conv_2"; ECall "tnet_down_spade_2";
   ECall "tnet_down_relu_2";
   ECall "pnet_bottleneck_1"; ECall "tnet_bottleneck_1";
   ECall "pnet_bottleneck_2"; ECall "tnet_bottleneck_2";
   ECall "pnet_bottleneck_3"; ECall "tnet_bottleneck_3";
   ECall "simple_spade"; EGetWeight; EAttenFeature; EFuse 3;
   ECall "tnet_bottleneck_4"; ECall "tnet_bottleneck_5"; ECall "tnet_bottleneck_6";
   ECall "tnet_up_conv_1"; ECall "tnet_up_spade_1"; ECall "tnet_up_relu_1";
   ECall "tnet_up_conv_2"; ECall "tnet_up_spade_2"; ECall "tnet_up_relu_2";
   ECall "tnet_out"].

(** The same for a complete run with gamma supplied. *)
Definition mix_trace : list event :=
  [ECall "tnet_in_conv"; ECall "pnet_in"; ECall "tnet_in_spade"; ECall "tnet_in_relu";
   ECall "tnet_down_conv_1"; ECall "tnet_down_spade_1"; ECall "tnet_down_relu_1";
   ECall "tnet_down_conv_2"; ECall "tnet_down_spade_2"; ECall "tnet_down_relu_2";
   ECall "tnet_bottleneck_1"; ECall "tnet_bottleneck_2"; ECall "tnet_bottleneck_3";
   EFuse 3;
   ECall "tnet_bottleneck_4"; ECall "tnet_bottleneck_5"; ECall "tnet_bottleneck_6";
   ECall "tnet_up_conv_1"; ECall "tnet_up_spade_1"; ECall "tnet_up_relu_1";
   ECall "tnet_up_conv_2"; ECall "tnet_up_spade_2"; ECall "tnet_up_relu_2";
   ECall "tnet_out"].

Definition event_eqb (a b : event) : bool :=
  match a, b with
  | ECall n, ECall m => (n =? m)%string
  | EGetWeight, EGetWeight => true
  | EAttenFeature, EAttenFeature => true
  | EFuse i, EFuse j => i =? j
  | _, _ => false
  end.

(** [is_prefix tr full]: the run [tr] is an initial segment of [full]. *)
Fixpoint is_prefix (tr full : list event) : bool :=
  match tr, full with
  | [], _ => true
  | e :: tr', f :: full' => event_eqb e f && is_prefix tr' full'
  | _ :: _, [] => false
  end.

(** The exceptions that tensor operations raise. *)
Definition tensor_error (e : py_error) : bool :=
  match e with
  | RuntimeError | IndexError | TypeError => true
  | AssertionError | UnboundLocalError | AttributeError => false
  end.

(** [raises_only P r]: if [r] is an exception, it is one of [P]. *)
Definition raises_only {A : Type} (P : py_error -> bool) (r : result A) : Prop :=
  match r with
  | Ok _ => True
  | Err e => P e = true
  end.

(** The mask of region [b] resized to the 64 x 64 grid, read at the
    flattened position [k]. *)
Definition resized_mask (mask : tensor) (h w : Z) (b k : Z) : R :=
  tget mask [b; 0; Z.min (k / 64 * h / 64) (h - 1); Z.min (k mod 64 * w / 64) (w - 1)].

(** Channel [c] of the feature map at position [k], restricted to region
    [b] by the resized mask. *)
Definition region_feature (fea mask : tensor) (h w : Z) (b c k : Z) : R :=
  Rmult (tget fea [0; c; k / 64; k mod 64]) (resized_mask mask h w b k).

(** The raw similarity of content position [i] and style position [j] in
    region [b]: the product of the region features scaled by 0.01, summed
    over the channels, plus the product of the difference features. *)
Definition similarity_value (mask_c mask_s fea_c fea_s diff_c diff_s : tensor)
    (hc wc hs ws C D : Z) (b i j : Z) : R :=
  Rplus
    (sumZ C (fun c =>
       Rmult (Rmult (region_feature fea_c mask_c hc wc b c i) (Rdiv 1 100))
             (Rmult (region_feature fea_s mask_s hs ws b c j) (Rdiv 1 100))))
    (sumZ D (fun d =>
       Rmult (tget diff_c [b; d; i / 64; i mod 64])
             (tget diff_s [b; d; j / 64; j mod 64]))).

(** An all-zero two-channel source with three batch items. *)
Definition g_two3 : tensor := zeros [3; 2; 1; 1].

(** A tensor all of whose entries are zero. *)
Definition is_zero (t : tensor) : Prop :=
  forall idx, in_range (shape t) idx -> tget t idx = 0%R.

(** Layers that add no learned offset: convolutions without bias and
    normalizations without affine parameters. *)
Definition bias_free (l : layer) : Prop :=
  match l with
  | LConv2d L => c_bias L = None
  | LInstanceNorm2d L => n_affine L = None
  | _ => True
  end.

Definition bias_free_module (m : module) : Prop :=
  match m with
  | MLayer l => bias_free l
  | MSequential ls => Forall bias_free ls
  | MResidualBlock blk => Forall bias_free (rb_main blk)
  | _ => False
  end.

(** A state dictionary with every parameter one. *)
Definition sd_ones : state_dict := fun _ _ => 1%R.

(** The parameters of the two attention modules: the 1 x 1 convolution [g]
    that [NONLocalBlock2D.__init__] creates. *)
Definition attention_conv_keys : list string :=
  ["atten_bottleneck_g.g.weight"; "atten_bottleneck_g.g.bias";
   "atten_bottleneck_b.g.weight"; "atten_bottleneck_b.g.bias"].

(** Parameters of the content branch and of [pnet_in]. *)
Definition mix_key (key : string) : bool :=
  String.prefix "tnet_" key || String.prefix "pnet_in." key.

(** State dictionaries that differ from [sd_zero] on the attention
    convolutions only, and outside the content branch only. *)
Definition sd_atten : state_dict :=
  fun key _ => if existsb (String.eqb key) attention_conv_keys then 1%R else 0%R.

Definition sd_style : state_dict :=
  fun key _ => if mix_key key then 0%R else 1%R.


(* ================================================================= *)
(** * Properties *)

(** ** Ranges and sums *)

Lemma In_range (n k : Z) : In k (range n) <-> 0 <= k < n.
Proof.
  unfold range. rewrite in_map_iff. split.
  - intros (m & <- & Hm). apply in_seq in Hm. lia.
  - intros Hk. exists (Z.to_nat k). split; [lia|]. apply in_seq. lia.
Qed.

Lemma NoDup_range (n : Z) : NoDup (range n).
Proof.
  unfold range. apply Injective_map_NoDup.
  - intros a b H. lia.
  - apply seq_NoDup.
Qed.



Lemma Rsum_app (l1 l2 : list R) : Rsum (l1 ++ l2) = (Rsum l1 + Rsum l2)%R.
Proof.
  induction l1 as [|a l1 IH]; simpl.
  - lra.
  - rewrite IH. lra.
Qed.

Lemma Rsum_map_ext {A : Type} (f g : A -> R) (l : list A) :
  (forall a, In a l -> f a = g a) -> Rsum (map f l) = Rsum (map g l).
Proof.
  induction l as [|a l IH]; intros H; simpl.
  - reflexivity.
  - rewrite (H a), IH; auto with datatypes.
Qed.

Lemma Rsum_map_zero {A : Type} (f : A -> R) (l : list A) :
  (forall a, In a l -> f a = 0%R) -> Rsum (map f l) = 0%R.
Proof.
  induction l as [|a l IH]; intros H; simpl.
  - reflexivity.
  - rewrite (H a), IH; auto with datatypes. lra.
Qed.

Lemma Rsum_map_plus {A : Type} (f g : A -> R) (l : list A) :
  Rsum (map (fun a => (f a + g a)%R) l) = (Rsum (map f l) + Rsum (map g l))%R.
Proof.
  induction l as [|a l IH]; simpl.
  - lra.
  - rewrite IH. lra.
Qed.

Lemma Rsum_map_scal {A : Type} (f : A -> R) (c : R) (l : list A) :
  Rsum (map (fun a => (f a * c)%R) l) = (Rsum (map f l) * c)%R.
Proof.
  induction l as [|a l IH]; simpl.
  - lra.
  - rewrite IH. lra.
Qed.

Lemma Rsum_map_pos {A : Type} (f : A -> R) (l : list A) :
  l <> [] -> (forall a, In a l -> (0 < f a)%R) -> (0 < Rsum (map f l))%R.
Proof.
  induction l as [|a l IH]; intros Hne H; [congruence|].
  simpl. destruct l as [|b l].
  - simpl. specialize (H a (or_introl eq_refl)). lra.
  - assert (0 < Rsum (map f (b :: l)))%R.
    { apply IH; [discriminate|]. intros; apply H; now right. }
    specialize (H a (or_introl eq_refl)). lra.
Qed.

Lemma sumZ_ext (n : Z) (f g : Z -> R) :
  (forall k, 0 <= k < n -> f k = g k) -> sumZ n f = sumZ n g.
Proof.
  intros H. unfold sumZ. apply Rsum_map_ext. intros k Hk. apply H, In_range, Hk.
Qed.

Lemma sumZ_zero (n : Z) (f : Z -> R) :
  (forall k, 0 <= k < n -> f k = 0%R) -> sumZ n f = 0%R.
Proof.
  intros H. unfold sumZ. apply Rsum_map_zero. intros k Hk. apply H, In_range, Hk.
Qed.

Lemma sumZ_plus (n : Z) (f g : Z -> R) :
  sumZ n (fun k => (f k + g k)%R) = (sumZ n f + sumZ n g)%R.
Proof. unfold sumZ. apply Rsum_map_plus. Qed.

Lemma sumZ_scal (n : Z) (f : Z -> R) (c : R) :
  sumZ n (fun k => (f k * c)%R) = (sumZ n f * c)%R.
Proof. unfold sumZ. apply Rsum_map_scal. Qed.

Lemma sumZ_pos (n : Z) (f : Z -> R) :
  0 < n -> (forall k, 0 <= k < n -> (0 < f k)%R) -> (0 < sumZ n f)%R.
Proof.
  intros Hn H. unfold sumZ. apply Rsum_map_pos.
  - intros E. assert (In 0 (range n)) as Hin by (apply In_range; lia).
    rewrite E in Hin. destruct Hin.
  - intros k Hk. apply H, In_range, Hk.
Qed.

Lemma sumZ_nonneg (n : Z) (f : Z -> R) :
  (forall k, 0 <= k < n -> (0 <= f k)%R) -> (0 <= sumZ n f)%R.
Proof.
  intros H. unfold sumZ.
  assert (forall l, (forall k, In k l -> (0 <= f k)%R) -> (0 <= Rsum (map f l))%R) as G.
  { induction l as [|a l IH]; intros Hl; simpl; [lra|].
    pose proof (Hl a (or_introl eq_refl)).
    assert (0 <= Rsum (map f l))%R by (apply IH; intros; apply Hl; now right). lra. }
  apply G. intros k Hk. apply H, In_range, Hk.
Qed.

Lemma sumZ_ge_term (n : Z) (f : Z -> R) (j : Z) :
  (forall k, 0 <= k < n -> (0 <= f k)%R) -> 0 <= j < n -> (f j <= sumZ n f)%R.
Proof.
  intros H Hj. unfold sumZ.
  assert (Hin : In j (range n)) by (now apply In_range).
  assert (Hnn : forall l, (forall k, In k l -> (0 <= f k)%R) -> (0 <= Rsum (map f l))%R).
  { induction l as [|a l IH]; intros Hl; simpl; [lra|].
    pose proof (Hl a (or_introl eq_refl)).
    assert (0 <= Rsum (map f l))%R by (apply IH; intros; apply Hl; now right). lra. }
  assert (Hall : forall k, In k (range n) -> (0 <= f k)%R)
    by (intros k Hk; apply H, In_range, Hk).
  apply in_split in Hin as (l1 & l2 & E). rewrite E in *.
  rewrite map_app, Rsum_app. simpl.
  assert (0 <= Rsum (map f l1))%R
    by (apply Hnn; intros; apply Hall, in_or_app; now left).
  assert (0 <= Rsum (map f l2))%R
    by (apply Hnn; intros; apply Hall, in_or_app; right; now right).
  lra.
Qed.


Lemma list_eqb_refl (l : list Z) : list_eqb l l = true.
Proof. unfold list_eqb. destruct (list_eq_dec Z.eq_dec l l); congruence. Qed.

Lemma list_eqb_eq (l1 l2 : list Z) : list_eqb l1 l2 = true <-> l1 = l2.
Proof.
  unfold list_eqb. destruct (list_eq_dec Z.eq_dec l1 l2); split; congruence.
Qed.

(** ** ResidualBlock.__init__ *)

Lemma ResidualBlock_init_valid sd name din dout mode a :
  ResidualBlock_use_affine mode = Some a ->
  ResidualBlock_init sd name din dout mode =
    ([SuperInit; Construct "Conv2d"; Construct "InstanceNorm2d"; Construct "ReLU";
      Construct "Conv2d"; Construct "InstanceNorm2d"; Construct "Sequential";
      SetAttr "main"],
     Ok (mkResidualBlock
           [LConv2d (nn_Conv2d sd (name @@ ".main.0") din dout 3 1 1 false);
            LInstanceNorm2d (nn_InstanceNorm2d sd (name @@ ".main.1") dout a);
            LReLU;
            LConv2d (nn_Conv2d sd (name @@ ".main.3") dout dout 3 1 1 false);
            LInstanceNorm2d (nn_InstanceNorm2d sd (name @@ ".main.4") dout a)])).
Proof.
  intros H. unfold ResidualBlock_init. rewrite H. reflexivity.
Qed.

Lemma ResidualBlock_init_unbound sd name din dout mode :
  ResidualBlock_use_affine mode = None ->
  ResidualBlock_init sd name din dout mode =
    ([SuperInit; Construct "Conv2d"], Err UnboundLocalError).
Proof.
  intros H. unfold ResidualBlock_init. rewrite H. reflexivity.
Qed.

Lemma use_affine_cases (mode : option string) :
  (ResidualBlock_use_affine mode = Some true <-> mode = None \/ mode = Some "p")
  /\ (ResidualBlock_use_affine mode = Some false <-> mode = Some "t")
  /\ (ResidualBlock_use_affine mode = None <->
      mode <> None /\ mode <> Some "p" /\ mode <> Some "t").
Proof.
  destruct mode as [m|]; simpl.
  - destruct (String.eqb_spec m "p") as [->|Hp];
      [|destruct (String.eqb_spec m "t") as [->|Ht]];
      intuition congruence.
  - intuition congruence.
Qed.

(** C10, as the claim states it, is contradicted by the constructor: with an
    unrecognised mode the first convolution has been constructed when the
    unbound [use_affine] is read. *)
Lemma C10_counterexample :
  ~ (forall sd name din dout mode,
        mode <> None -> mode <> Some "p" -> mode <> Some "t" ->
        exists tr e,
          ResidualBlock_init sd name din dout mode = (tr, Err e)
          /\ forall cls, ~ In (Construct cls) tr).
Proof.
  intros H.
  destruct (H (fun _ _ => 0%R) "blk" 1 1 (Some "x")) as (tr & e & E & Hno);
    try discriminate.
  rewrite ResidualBlock_init_unbound in E by reflexivity.
  injection E as <- <-.
  apply (Hno "Conv2d"). simpl. auto.
Qed.

(** C10 (amended): a mode other than 'p', 't' or None makes the constructor
    raise [UnboundLocalError] after [super().__init__()] and the first
    [Conv2d] have run and before any normalization layer is constructed or
    [self.main] is assigned; 'p' and None build affine instance
    normalization, 't' builds non-affine normalization, and no other mode
    yields a block. *)
Theorem C10_init_modes sd name din dout mode :
  match ResidualBlock_use_affine mode with
  | None =>
      ResidualBlock_init sd name din dout mode =
        ([SuperInit; Construct "Conv2d"], Err UnboundLocalError)
  | Some a =>
      exists tr,
        ResidualBlock_init sd name din dout mode =
          (tr, Ok (mkResidualBlock
                 [LConv2d (nn_Conv2d sd (name @@ ".main.0") din dout 3 1 1 false);
                  LInstanceNorm2d (nn_InstanceNorm2d sd (name @@ ".main.1") dout a);
                  LReLU;
                  LConv2d (nn_Conv2d sd (name @@ ".main.3") dout dout 3 1 1 false);
                  LInstanceNorm2d (nn_InstanceNorm2d sd (name @@ ".main.4") dout a)]))
  end
  /\ (ResidualBlock_use_affine mode = Some true <-> mode = None \/ mode = Some "p")
  /\ (ResidualBlock_use_affine mode = Some false <-> mode = Some "t")
  /\ (ResidualBlock_use_affine mode = None <->
      mode <> None /\ mode <> Some "p" /\ mode <> Some "t").
Proof.
  split; [|apply use_affine_cases].
  destruct (ResidualBlock_use_affine mode) as [a|] eqn:E.
  - eexists. apply ResidualBlock_init_valid, E.
  - apply ResidualBlock_init_unbound, E.
Qed.

(** ** Broadcasting *)

Lemma pad_left_length (sh : list Z) n : (n <= length sh)%nat -> pad_left n sh = sh.
Proof.
  intros H. unfold pad_left. replace (n - length sh)%nat with O by lia. reflexivity.
Qed.

Lemma broadcast_dims_same (sh : list Z) : broadcast_dims sh sh = Ok sh.
Proof.
  induction sh as [|d sh IH]; simpl.
  - reflexivity.
  - rewrite IH. simpl. now rewrite Z.eqb_refl.
Qed.

Lemma broadcast_shapes_same (sh : list Z) : broadcast_shapes sh sh = Ok sh.
Proof.
  unfold broadcast_shapes. rewrite Nat.max_id, pad_left_length by lia.
  apply broadcast_dims_same.
Qed.

Lemma in_range_length (sh idx : list Z) : in_range sh idx -> length idx = length sh.
Proof. intros H. symmetry. eapply Forall2_length, H. Qed.

Lemma in_rangeb_spec (sh idx : list Z) : in_rangeb sh idx = true <-> in_range sh idx.
Proof.
  unfold in_range. revert idx.
  induction sh as [|d sh IH]; intros [|i idx]; simpl; split; intros H;
    try discriminate; try (inversion H; fail).
  - constructor.
  - reflexivity.
  - apply andb_true_iff in H as [H1 H2]. apply andb_true_iff in H1 as [H0 H1].
    constructor; [lia|]. now apply IH.
  - inversion H; subst. apply andb_true_iff. split; [apply andb_true_iff; split; lia|].
    now apply IH.
Qed.

Lemma bidx_in_range (sh idx : list Z) : in_range sh idx -> bidx sh idx = idx.
Proof.
  intros H. unfold bidx. rewrite (in_range_length _ _ H), Nat.sub_diag. simpl.
  unfold zipWith. induction H as [|d i sh idx Hd H IH]; simpl.
  - reflexivity.
  - rewrite IH. destruct (Z.eqb_spec d 1); [f_equal; lia|reflexivity].
Qed.

Lemma binop_same (f : R -> R -> R) (x y : tensor) :
  shape x = shape y ->
  binop f x y = Ok (mkT (shape x)
                        (fun idx => f (tget x (bidx (shape x) idx))
                                      (tget y (bidx (shape y) idx)))).
Proof.
  intros H. unfold binop. rewrite <- H, broadcast_shapes_same. reflexivity.
Qed.

Lemma append_assoc (a b c : string) : (a @@ b) @@ c = a @@ (b @@ c).
Proof. induction a as [|ch a IH]; simpl; [reflexivity|now rewrite IH]. Qed.

(** ** Layers *)

Lemma conv_out_same (h : Z) : conv_out h 3 1 1 = h.
Proof. unfold conv_out. rewrite Z.div_1_r. lia. Qed.

Lemma conv2d_data_zero (L : Conv2d) (x : tensor) (idx : list Z) :
  (forall i, c_weight L i = 0%R) -> c_bias L = None -> conv2d_data L x idx = 0%R.
Proof.
  intros Hw Hb. unfold conv2d_data.
  destruct idx as [|n [|o [|y [|xx [|]]]]]; try reflexivity.
  rewrite Hb. simpl. rewrite sumZ_zero; [lra|].
  intros i _. apply sumZ_zero. intros ky _. apply sumZ_zero. intros kx _.
  rewrite Hw. lra.
Qed.

Lemma spatial_mean_zero (h w : Z) (f : Z -> Z -> R) :
  (forall y xx, f y xx = 0%R) -> spatial_mean h w f = 0%R.
Proof.
  intros H. unfold spatial_mean. rewrite sumZ_zero.
  - unfold Rdiv. apply Rmult_0_l.
  - intros y _. apply sumZ_zero. intros xx _. apply H.
Qed.

Lemma instnorm_data_zero (L : InstanceNorm2d) (x : tensor) n' c' h w n c y xx :
  shape x = [n'; c'; h; w] ->
  (forall idx, tget x idx = 0%R) ->
  instnorm_data L x [n; c; y; xx] =
    match n_affine L with
    | Some (_, bet) => bet [c]
    | None => 0%R
    end.
Proof.
  intros Hs Hz. unfold instnorm_data. rewrite Hs.
  rewrite (spatial_mean_zero h w (fun y' x' => tget x [n; c; y'; x'])) by (intros; apply Hz).
  rewrite Hz. replace ((0 - 0) / _)%R with 0%R by (unfold Rdiv; ring).
  destruct (n_affine L) as [[gam bet]|]; [ring|reflexivity].
Qed.

Lemma Conv2d_forward_ok (L : Conv2d) (x : tensor) n h w :
  shape x = [n; c_in L; h; w] ->
  c_k L <= h + 2 * c_pad L -> c_k L <= w + 2 * c_pad L ->
  Conv2d_forward L x =
    Ok (mkT [n; c_out L; conv_out h (c_k L) (c_stride L) (c_pad L);
             conv_out w (c_k L) (c_stride L) (c_pad L)]
            (conv2d_data L x)).
Proof.
  intros Hs Hh Hw. unfold Conv2d_forward. rewrite Hs, Z.eqb_refl.
  replace (c_k L <=? h + 2 * c_pad L) with true by lia.
  replace (c_k L <=? w + 2 * c_pad L) with true by lia.
  reflexivity.
Qed.

Lemma InstanceNorm2d_forward_ok (L : InstanceNorm2d) (x : tensor) n c h w :
  shape x = [n; c; h; w] ->
  (n_affine L = None \/ c = n_features L) ->
  InstanceNorm2d_forward L x = Ok (mkT [n; c; h; w] (instnorm_data L x)).
Proof.
  intros Hs Hc. unfold InstanceNorm2d_forward. rewrite Hs.
  destruct (n_affine L) as [p|]; [|reflexivity].
  destruct Hc as [Hc|Hc]; [discriminate|].
  rewrite Hc, Z.eqb_refl. reflexivity.
Qed.

(** ** ResidualBlock.forward *)

Lemma residual_main_ok sd name dim a x N H W :
  shape x = [N; dim; H; W] -> 1 <= H -> 1 <= W ->
  exists f,
    Sequential_forward (residual_layers sd name dim a) x = Ok (mkT [N; dim; H; W] f)
    /\ ((forall i, sd (name @@ ".main.3.weight") i = 0%R) ->
        forall n c y xx,
          f [n; c; y; xx] = if a then sd (name @@ ".main.4.bias") [c] else 0%R).
Proof.
  intros Hs HH HW.
  unfold residual_layers, Sequential_forward, layer_forward.
  rewrite (Conv2d_forward_ok _ x N H W) by (simpl; auto; lia).
  cbn [rbind nn_Conv2d c_in c_k c_pad c_out c_stride]. rewrite !conv_out_same.
  erewrite InstanceNorm2d_forward_ok by (simpl; auto).
  cbn [rbind].
  erewrite (Conv2d_forward_ok _ _ N H W) by (simpl; auto; lia).
  cbn [rbind nn_Conv2d c_in c_k c_pad c_out c_stride]. rewrite !conv_out_same.
  erewrite InstanceNorm2d_forward_ok by (simpl; auto).
  cbn [rbind].
  eexists. split; [reflexivity|].
  intros Hz n c y xx.
  erewrite instnorm_data_zero; [|reflexivity|].
  - destruct a; simpl; rewrite ?append_assoc; reflexivity.
  - intros idx. cbn [tget]. apply conv2d_data_zero; [|reflexivity].
    intros i. simpl. rewrite append_assoc. apply Hz.
Qed.

Lemma ResidualBlock_forward_spec sd name dim a x N H W :
  shape x = [N; dim; H; W] -> 1 <= H -> 1 <= W ->
  exists y m,
    ResidualBlock_forward (mkResidualBlock (residual_layers sd name dim a)) x = Ok y
    /\ shape y = shape x
    /\ Sequential_forward (residual_layers sd name dim a) x = Ok m
    /\ (forall idx, in_range (shape x) idx -> tget y idx = (tget x idx + tget m idx)%R)
    /\ ((forall i, sd (name @@ ".main.3.weight") i = 0%R) ->
        forall n c yy xx,
          in_range (shape x) [n; c; yy; xx] ->
          tget y [n; c; yy; xx] =
            (tget x [n; c; yy; xx]
             + if a then sd (name @@ ".main.4.bias") [c] else 0)%R).
Proof.
  intros Hs HH HW.
  destruct (residual_main_ok sd name dim a x N H W Hs HH HW) as (f & Hm & Hz).
  unfold ResidualBlock_forward. cbn [rb_main]. rewrite Hm. cbn [rbind].
  unfold tadd. rewrite binop_same by (rewrite Hs; reflexivity).
  do 2 eexists. split; [reflexivity|]. split; [reflexivity|]. split; [reflexivity|].
  cbn [tget shape]. rewrite Hs. split.
  - intros idx Hi. rewrite !bidx_in_range; auto.
  - intros Hz3 n c yy xx Hi. rewrite !bidx_in_range; auto. now rewrite Hz.
Qed.

Lemma ResidualBlock_init_same sd name dim mode a :
  ResidualBlock_use_affine mode = Some a ->
  exists tr,
    ResidualBlock_init sd name dim dim mode =
      (tr, Ok (mkResidualBlock (residual_layers sd name dim a))).
Proof.
  intros H. eexists. unfold residual_layers. apply ResidualBlock_init_valid, H.
Qed.

(** C9, as the claim states it, fails for a block with affine normalization:
    with every convolution weight zero the block adds the bias of its second
    normalization to the input. *)
Lemma C9_counterexample :
  ~ (forall sd name dim mode tr blk x N H W y,
        ResidualBlock_init sd name dim dim mode = (tr, Ok blk) ->
        shape x = [N; dim; H; W] -> 1 <= H -> 1 <= W ->
        (forall i, sd (name @@ ".main.0.weight") i = 0%R) ->
        (forall i, sd (name @@ ".main.3.weight") i = 0%R) ->
        ResidualBlock_forward blk x = Ok y ->
        teq y x).
Proof.
  intros H.
  destruct (ResidualBlock_init_same sd_bias "blk" 1 (Some "p") true eq_refl) as (tr & Hi).
  destruct (ResidualBlock_forward_spec sd_bias "blk" 1 true x_small 1 2 2)
    as (y & m & Hf & _ & _ & _ & Hz); try reflexivity; try lia.
  assert (Hin : in_range (shape x_small) [0; 0; 0; 0]).
  { repeat constructor; lia. }
  specialize (Hz (fun _ => eq_refl) 0 0 0 0 Hin).
  destruct (H sd_bias "blk" 1 (Some "p") tr _ x_small 1 2 2 y Hi)
    as [_ Hteq]; try reflexivity; try lia; auto.
  assert (Hin' : in_range (shape y) [0; 0; 0; 0]).
  { destruct (ResidualBlock_forward_spec sd_bias "blk" 1 true x_small 1 2 2)
      as (y' & m' & Hf' & Hs' & _); try reflexivity; try lia.
    rewrite Hf in Hf'. injection Hf' as <-. rewrite Hs'. exact Hin. }
  specialize (Hteq _ Hin'). rewrite Hz in Hteq.
  unfold sd_bias, x_small, zeros in Hteq. simpl in Hteq. lra.
Qed.

(** C9 (amended): for [x] of shape (N, dim, H, W) a block with
    [dim_in = dim_out = dim] returns a tensor of the same shape, equal to [x]
    plus the output of its conv, norm, ReLU, conv, norm pipeline on [x]; when
    the internal convolution weights are zero the output is [x] plus the
    per-channel bias of the second normalization, hence equal to [x] when the
    normalization is not affine or that bias is zero. *)
Theorem C9_residual_forward sd name dim mode a x N H W :
  ResidualBlock_use_affine mode = Some a ->
  shape x = [N; dim; H; W] -> 1 <= H -> 1 <= W ->
  exists tr blk y m,
    ResidualBlock_init sd name dim dim mode = (tr, Ok blk)
    /\ ResidualBlock_forward blk x = Ok y
    /\ shape y = shape x
    /\ Sequential_forward (rb_main blk) x = Ok m
    /\ (forall idx, in_range (shape x) idx -> tget y idx = (tget x idx + tget m idx)%R)
    /\ ((forall i, sd (name @@ ".main.0.weight") i = 0%R) ->
        (forall i, sd (name @@ ".main.3.weight") i = 0%R) ->
        (forall n c yy xx,
            in_range (shape x) [n; c; yy; xx] ->
            tget y [n; c; yy; xx] =
              (tget x [n; c; yy; xx]
               + if a then sd (name @@ ".main.4.bias") [c] else 0)%R)
        /\ (a = false \/ (forall c, sd (name @@ ".main.4.bias") [c] = 0%R) -> teq y x)).
Proof.
  intros Ha Hs HH HW.
  destruct (ResidualBlock_init_same sd name dim mode a Ha) as (tr & Hi).
  destruct (ResidualBlock_forward_spec sd name dim a x N H W Hs HH HW)
    as (y & m & Hf & Hsy & Hm & Hadd & Hz).
  exists tr, (mkResidualBlock (residual_layers sd name dim a)), y, m.
  repeat (split; [assumption|]).
  intros _ Hz3. split; [exact (Hz Hz3)|].
  intros Hb. split; [exact Hsy|].
  intros idx Hidx. rewrite Hsy, Hs in Hidx.
  inversion Hidx as [|? n ? l1 _ H1]; subst. inversion H1 as [|? c ? l2 _ H2]; subst.
  inversion H2 as [|? yy ? l3 _ H3]; subst. inversion H3 as [|? xx ? l4 _ H4]; subst.
  inversion H4; subst.
  rewrite (Hz Hz3) by (rewrite Hs; exact Hidx).
  destruct Hb as [->|Hb]; [simpl; lra|]. destruct a; [rewrite Hb|]; simpl; lra.
Qed.

Lemma C9_residual_forward_witness :
  exists tr blk y m,
    ResidualBlock_init sd_bias "blk" 1 1 (Some "t") = (tr, Ok blk)
    /\ ResidualBlock_forward blk x_small = Ok y
    /\ shape y = shape x_small
    /\ Sequential_forward (rb_main blk) x_small = Ok m
    /\ (forall idx, in_range (shape x_small) idx ->
                    tget y idx = (tget x_small idx + tget m idx)%R)
    /\ ((forall i, sd_bias ("blk" @@ ".main.0.weight") i = 0%R) ->
        (forall i, sd_bias ("blk" @@ ".main.3.weight") i = 0%R) ->
        (forall n c yy xx,
            in_range (shape x_small) [n; c; yy; xx] ->
            tget y [n; c; yy; xx] =
              (tget x_small [n; c; yy; xx]
               + if false then sd_bias ("blk" @@ ".main.4.bias") [c] else 0)%R)
        /\ (false = false \/ (forall c, sd_bias ("blk" @@ ".main.4.bias") [c] = 0%R) ->
            teq y x_small)).
Proof.
  apply (C9_residual_forward sd_bias "blk" 1 (Some "t") false x_small 1 2 2);
    [reflexivity | reflexivity | lia | lia].
Defined.

(** ** view, permute, bmm *)

Lemma filter_nonneg (sh : list Z) :
  Forall (fun d => 0 <= d) sh ->
  filter (fun d => negb (d =? -1)) sh = sh /\ existsb (fun d => d <? 0) sh = false.
Proof.
  induction 1 as [|d sh Hd H [IH1 IH2]]; simpl; [auto|].
  replace (d =? -1) with false by lia. replace (d <? 0) with false by lia.
  simpl. rewrite IH1, IH2. auto.
Qed.

Lemma infer_shape_full (sh : list Z) (n : Z) :
  Forall (fun d => 0 <= d) sh -> numel sh = n -> infer_shape n sh = Ok sh.
Proof.
  intros H Hn. unfold infer_shape. destruct (filter_nonneg sh H) as [-> ->].
  rewrite Nat.sub_diag, Hn, Z.eqb_refl. reflexivity.
Qed.

Lemma infer_shape_last (a b m n : Z) :
  0 < a -> 0 < b -> n = a * b * m -> infer_shape n [a; b; -1] = Ok [a; b; m].
Proof.
  intros Ha Hb ->. unfold infer_shape. simpl filter.
  replace (a =? -1) with false by lia. replace (b =? -1) with false by lia.
  simpl. replace (a <? 0) with false by lia. replace (b <? 0) with false by lia.
  simpl. replace (a * (b * 1)) with (a * b) by ring.
  replace (a * b =? 0) with false by nia.
  rewrite (Z.mul_comm (a * b) m), Z.mod_mul by nia. simpl.
  rewrite Z.div_mul by nia.
  replace (a =? -1) with false by lia. replace (b =? -1) with false by lia.
  reflexivity.
Qed.

Lemma infer_shape_mid (a c m n : Z) :
  0 < a -> 0 < c -> n = a * m * c -> infer_shape n [a; -1; c] = Ok [a; m; c].
Proof.
  intros Ha Hc ->. unfold infer_shape. simpl filter.
  replace (a =? -1) with false by lia. replace (c =? -1) with false by lia.
  simpl. replace (a <? 0) with false by lia. replace (c <? 0) with false by lia.
  simpl. replace (a * (c * 1)) with (a * c) by ring.
  replace (a * c =? 0) with false by nia.
  replace (a * m * c) with (m * (a * c)) by ring.
  rewrite Z.mod_mul by nia. simpl.
  rewrite Z.div_mul by nia.
  replace (a =? -1) with false by lia. replace (c =? -1) with false by lia.
  reflexivity.
Qed.

Lemma view_ok (x : tensor) (sh sh' : list Z) :
  infer_shape (numel (shape x)) sh = Ok sh' ->
  view x sh = Ok (mkT sh' (fun idx => tget x (unravel (shape x) (ravel sh' idx)))).
Proof. intros H. unfold view. rewrite H. reflexivity. Qed.

Lemma permute_021 (x : tensor) (a b c : Z) :
  shape x = [a; b; c] ->
  permute x [0; 2; 1] =
    Ok (mkT [a; c; b] (fun idx => tget x [nthZ idx 0; nthZ idx 2; nthZ idx 1])).
Proof.
  intros H. unfold permute, rank. rewrite H. reflexivity.
Qed.

Lemma bmm_ok (x y : tensor) (b n m p : Z) :
  shape x = [b; n; m] -> shape y = [b; m; p] ->
  bmm x y =
    Ok (mkT [b; n; p]
            (fun idx =>
               match idx with
               | [i; j; k] => sumZ m (fun l => (tget x [i; j; l] * tget y [i; l; k])%R)
               | _ => 0%R
               end)).
Proof.
  intros Hx Hy. unfold bmm. rewrite Hx, Hy, !Z.eqb_refl. reflexivity.
Qed.

Lemma div_mod_pos (q r d : Z) :
  0 <= r < d -> (q * d + r) / d = q /\ (q * d + r) mod d = r.
Proof.
  intros H. split.
  - symmetry. apply (Z.div_unique_pos _ _ q r); [lia|ring].
  - symmetry. apply (Z.mod_unique_pos _ _ q r); [lia|ring].
Qed.

Lemma ravel_3 (a b c i j k : Z) : ravel [a; b; c] [i; j; k] = (i * b + j) * c + k.
Proof. unfold ravel. cbn [combine fold_left fst snd]. ring. Qed.

Lemma ravel_4 (a b c d i j k l : Z) :
  ravel [a; b; c; d] [i; j; k; l] = ((i * b + j) * c + k) * d + l.
Proof. unfold ravel. cbn [combine fold_left fst snd]. ring. Qed.

Lemma unravel_3 (a b c n : Z) :
  unravel [a; b; c] n = [(n / (b * c)) mod a; (n / c) mod b; n mod c].
Proof.
  unfold unravel, numel. cbn [fold_right]. now rewrite !Z.mul_1_r, Z.div_1_r.
Qed.

Lemma unravel_4 (a b c d n : Z) :
  unravel [a; b; c; d] n =
    [(n / (b * (c * d))) mod a; (n / (c * d)) mod b; (n / d) mod c; n mod d].
Proof.
  unfold unravel, numel. cbn [fold_right]. now rewrite !Z.mul_1_r, Z.div_1_r.
Qed.

Lemma unravel_ravel_43 (B H W b y x : Z) :
  0 <= b < B -> 0 <= y < H -> 0 <= x < W ->
  unravel [B; 1; H * W] (ravel [B; 1; H; W] [b; 0; y; x]) = [b; 0; y * W + x].
Proof.
  intros Hb Hy Hx. rewrite ravel_4, unravel_3.
  assert (Hr : 0 <= y * W + x < H * W) by nia.
  replace (((b * 1 + 0) * H + y) * W + x) with (b * (H * W) + (y * W + x)) by ring.
  rewrite Z.mul_1_l, Z.mod_1_r.
  destruct (div_mod_pos b (y * W + x) (H * W) Hr) as [Hd Hm].
  rewrite Hd, Hm, Z.mod_small by lia. reflexivity.
Qed.

Lemma unravel_ravel_34 (B H W b l : Z) :
  0 <= b < B -> 0 <= l < H * W -> 0 < W ->
  unravel [B; 1; H; W] (ravel [B; 1; H * W] [b; 0; l]) = [b; 0; l / W; l mod W].
Proof.
  intros Hb Hl HW. rewrite ravel_3, unravel_4.
  replace ((b * 1 + 0) * (H * W) + l) with (b * (H * W) + l) by ring.
  rewrite Z.mul_1_l, Z.mod_1_r.
  destruct (div_mod_pos b l (H * W) Hl) as [Hd Hm].
  rewrite Hd, Z.mod_small by lia.
  assert (Hq : 0 <= l / W < H).
  { split; [apply Z.div_pos; lia|]. apply Z.div_lt_upper_bound; lia. }
  replace (b * (H * W) + l) with (l + (b * H) * W) by ring.
  rewrite Z.div_add, Z.mod_add by lia.
  rewrite Z.mod_add by lia. rewrite (Z.mod_small (l / W)) by lia.
  reflexivity.
Qed.

(** ** NONLocalBlock2D.forward *)

Lemma NONLocalBlock2D_forward_spec blk source weight B H W :
  shape source = [B; 1; H; W] ->
  sp_size weight = [B; H * W; H * W] ->
  0 < B -> 0 < H -> 0 < W ->
  exists y,
    NONLocalBlock2D_forward blk source weight = Ok y
    /\ shape y = [B; 1; H; W]
    /\ forall b yy xx,
        0 <= b < B -> 0 <= yy < H -> 0 <= xx < W ->
        tget y [b; 0; yy; xx] =
          sumZ (H * W)
               (fun l => (tget (to_dense weight) [b; (yy * W + xx)%Z; l]
                          * tget source [b; 0%Z; (l / W)%Z; (l mod W)%Z])%R).
Proof.
  intros Hs Hw HB HH HW.
  unfold NONLocalBlock2D_forward, size_at. rewrite Hs. cbn [nth_error rbind].
  rewrite (view_ok source _ [B; 1; H * W])
    by (rewrite Hs; apply infer_shape_last;
        [lia | lia | unfold numel; cbn [fold_right]; ring]).
  cbn [rbind]. erewrite permute_021 by reflexivity. cbn [rbind].
  erewrite (bmm_ok _ _ B (H * W) (H * W) 1) by (try reflexivity; exact Hw).
  cbn [rbind]. erewrite permute_021 by reflexivity. cbn [rbind].
  unfold contiguous. cbn [skipn app].
  rewrite (view_ok _ _ [B; 1; H; W])
    by (apply infer_shape_full;
        [repeat constructor; nia | unfold numel; cbn [shape fold_right]; ring]).
  eexists. split; [reflexivity|]. split; [reflexivity|].
  intros b yy xx Hb Hy Hx. cbn [tget shape].
  rewrite unravel_ravel_43 by assumption. cbn [nthZ nth].
  apply sumZ_ext. intros l Hl. cbn [nthZ nth].
  rewrite Hs, unravel_ravel_34 by (auto; lia). reflexivity.
Qed.

(** C7: for a single-channel source of shape (B, 1, H, W) and a weight of
    size (B, H*W, H*W), [NONLocalBlock2D.forward] returns a tensor of shape
    (B, 1, H, W) whose entry at position (y, x) is the sum over all source
    positions of the densified weight's row [y*W + x] times the source; the
    result is the same for every value of the block's convolution
    parameter. *)
Theorem C7_nonlocal_forward blk source weight B H W :
  shape source = [B; 1; H; W] ->
  sp_size weight = [B; H * W; H * W] ->
  0 < B -> 0 < H -> 0 < W ->
  exists y,
    NONLocalBlock2D_forward blk source weight = Ok y
    /\ shape y = [B; 1; H; W]
    /\ (forall b yy xx,
          0 <= b < B -> 0 <= yy < H -> 0 <= xx < W ->
          tget y [b; 0; yy; xx] =
            sumZ (H * W)
                 (fun l => (tget (to_dense weight) [b; (yy * W + xx)%Z; l]
                            * tget source [b; 0%Z; (l / W)%Z; (l mod W)%Z])%R))
    /\ forall blk', NONLocalBlock2D_forward blk' source weight = Ok y.
Proof.
  intros Hs Hw HB HH HW.
  destruct (NONLocalBlock2D_forward_spec blk source weight B H W Hs Hw HB HH HW)
    as (y & Hy & Hsh & Hv).
  exists y. repeat split; auto.
Qed.

Lemma C7_nonlocal_forward_witness :
  exists y,
    NONLocalBlock2D_forward (NONLocalBlock2D_init sd_zero "g") x_small w_empty = Ok y
    /\ shape y = [1; 1; 2; 2]
    /\ (forall b yy xx,
          0 <= b < 1 -> 0 <= yy < 2 -> 0 <= xx < 2 ->
          tget y [b; 0; yy; xx] =
            sumZ (2 * 2)
                 (fun l => (tget (to_dense w_empty) [b; (yy * 2 + xx)%Z; l]
                            * tget x_small [b; 0%Z; (l / 2)%Z; (l mod 2)%Z])%R))
    /\ forall blk', NONLocalBlock2D_forward blk' x_small w_empty = Ok y.
Proof.
  apply (C7_nonlocal_forward (NONLocalBlock2D_init sd_zero "g") x_small w_empty 1 2 2);
    [reflexivity | reflexivity | lia | lia | lia].
Defined.

(** ** interpolate, repeat, indexing *)

Lemma in_range_3 (a b c i j k : Z) :
  0 <= i < a -> 0 <= j < b -> 0 <= k < c -> in_range [a; b; c] [i; j; k].
Proof. intros. unfold in_range. auto. Qed.

Lemma in_range_4 (a b c d i j k l : Z) :
  0 <= i < a -> 0 <= j < b -> 0 <= k < c -> 0 <= l < d ->
  in_range [a; b; c; d] [i; j; k; l].
Proof. intros. unfold in_range. auto. Qed.

Lemma interpolate_ok (x : tensor) (n c h w oh ow : Z) :
  shape x = [n; c; h; w] -> 0 < h -> 0 < w -> 0 < oh -> 0 < ow ->
  interpolate x oh ow =
    Ok (mkT [n; c; oh; ow]
            (fun idx =>
               match idx with
               | [i; j; y; xx] =>
                   tget x [i; j; Z.min (y * h / oh) (h - 1); Z.min (xx * w / ow) (w - 1)]
               | _ => 0%R
               end)).
Proof.
  intros Hs Hh Hw Hoh How. unfold interpolate. rewrite Hs.
  replace (0 <? oh) with true by lia. replace (0 <? ow) with true by lia.
  replace (0 <? h) with true by lia. replace (0 <? w) with true by lia.
  reflexivity.
Qed.

Lemma repeat_channels (x : tensor) (a b c d k : Z) :
  shape x = [a; b; c; d] -> 0 <= k ->
  repeat x [1; k; 1; 1] =
    Ok (mkT [a; k * b; c; d] (fun idx => tget x (zipWith Z.modulo idx [a; b; c; d]))).
Proof.
  intros Hs Hk. unfold repeat, rank. rewrite Hs.
  cbn [length Nat.ltb Nat.leb orb existsb].
  replace (k <? 0) with false by lia.
  cbn [orb Z.ltb Z.compare pad_left length Nat.sub List.repeat app skipn zipWith combine map fst snd].
  rewrite !Z.mul_1_l. reflexivity.
Qed.

Lemma repeat_batch3 (x : tensor) (a b c d : Z) :
  shape x = [a; b; c; d] ->
  repeat x [3; 1; 1; 1] =
    Ok (mkT [3 * a; b; c; d] (fun idx => tget x (zipWith Z.modulo idx [a; b; c; d]))).
Proof.
  intros Hs. unfold repeat, rank. rewrite Hs.
  cbn [length Nat.ltb Nat.leb orb existsb Z.ltb Z.compare pad_left Nat.sub
       List.repeat app skipn zipWith combine map fst snd].
  rewrite !Z.mul_1_l. reflexivity.
Qed.

Lemma select0_ok (x : tensor) (d : Z) (sh : list Z) (i : Z) :
  shape x = d :: sh -> 0 <= i < d ->
  select0 x i = Ok (mkT sh (fun idx => tget x (i :: idx))).
Proof.
  intros Hs Hi. unfold select0. rewrite Hs.
  replace (0 <=? i) with true by lia. replace (i <? d) with true by lia.
  reflexivity.
Qed.

(** The region slots of a (3, 1, H, W) tensor summed and given a batch
    dimension, as in lines 152-153. *)
Lemma sum_slots_ok (g : tensor) (H W : Z) :
  shape g = [3; 1; H; W] ->
  exists out,
    (g0 <- select0 g 0 ;;
     g1 <- select0 g 1 ;;
     g2 <- select0 g 2 ;;
     g01 <- tadd g0 g1 ;;
     g012 <- tadd g01 g2 ;;
     Ok (unsqueeze0 g012))%result = Ok out
    /\ shape out = [1; 1; H; W]
    /\ forall y x, 0 <= y < H -> 0 <= x < W -> tget out [0; 0; y; x] = slot_sum g y x.
Proof.
  intros Hs.
  rewrite !(select0_ok g 3 [1; H; W]) by (auto; lia). cbn [rbind].
  unfold tadd. rewrite binop_same by reflexivity. cbn [rbind shape].
  rewrite binop_same by reflexivity. cbn [rbind shape].
  eexists. split; [reflexivity|]. split; [reflexivity|].
  intros y x Hy Hx. unfold slot_sum. cbn [unsqueeze0 tget tl].
  rewrite !(bidx_in_range [1; H; W] [0; y; x]) by (apply in_range_3; lia).
  reflexivity.
Qed.

(** ** Generator.atten_feature *)

Lemma masked_replica_ok (mask g : tensor) (hm wm H W : Z) :
  shape mask = [3; 1; hm; wm] -> shape g = [1; 1; H; W] ->
  0 < hm -> 0 < wm -> 0 < H -> 0 < W ->
  exists m gm,
    interpolate mask H W = Ok m
    /\ (mask_re <- repeat m [1; 1; 1; 1] ;;
        g_re <- repeat g [3; 1; 1; 1] ;;
        tmul g_re mask_re)%result = Ok gm
    /\ masked_replica mask g gm hm wm H W.
Proof.
  intros Hm Hg Hhm Hwm HH HW.
  rewrite (interpolate_ok mask 3 1 hm wm H W) by assumption.
  do 2 eexists. split; [reflexivity|].
  erewrite repeat_channels by (reflexivity || lia). cbn [rbind].
  erewrite repeat_batch3 by exact Hg. cbn [rbind].
  unfold tmul. rewrite binop_same by reflexivity.
  split; [reflexivity|]. split; [reflexivity|].
  intros r y x Hr Hy Hx. cbn [tget shape].
  change (3 * 1) with 3. change (1 * 1) with 1.
  rewrite !(bidx_in_range [3; 1; H; W] [r; 0; y; x]) by (apply in_range_4; lia).
  unfold zipWith. cbn [combine map fst snd].
  rewrite !Z.mod_1_r, !(Z.mod_small y H), !(Z.mod_small x W), (Z.mod_small r 3) by lia.
  reflexivity.
Qed.

Lemma atten_feature_spec mask_s weight gamma_s beta_s ag ab hm wm H W :
  shape mask_s = [3; 1; hm; wm] -> 0 < hm -> 0 < wm ->
  sp_size weight = [3; H * W; H * W] ->
  shape gamma_s = [1; 1; H; W] -> shape beta_s = [1; 1; H; W] ->
  0 < H -> 0 < W ->
  exists gamma beta gm bm yg yb,
    atten_feature mask_s weight gamma_s beta_s ag ab = Ok (gamma, beta)
    /\ shape gamma = [1; 1; H; W] /\ shape beta = [1; 1; H; W]
    /\ masked_replica mask_s gamma_s gm hm wm H W
    /\ masked_replica mask_s beta_s bm hm wm H W
    /\ NONLocalBlock2D_forward ag gm weight = Ok yg
    /\ NONLocalBlock2D_forward ab bm weight = Ok yb
    /\ (forall y x, 0 <= y < H -> 0 <= x < W -> tget gamma [0; 0; y; x] = slot_sum yg y x)
    /\ (forall y x, 0 <= y < H -> 0 <= x < W -> tget beta [0; 0; y; x] = slot_sum yb y x).
Proof.
  intros Hm Hhm Hwm Hw Hg Hb HH HW.
  destruct (masked_replica_ok mask_s gamma_s hm wm H W) as (m & gm & Him & Hgm & Mg);
    auto.
  destruct (masked_replica_ok mask_s beta_s hm wm H W) as (m' & bm & Him' & Hbm & Mb);
    auto.
  rewrite Him in Him'. injection Him' as <-.
  destruct (NONLocalBlock2D_forward_spec ag gm weight 3 H W) as (yg & Hyg & Syg & _);
    auto; try lia; try apply Mg.
  destruct (NONLocalBlock2D_forward_spec ab bm weight 3 H W) as (yb & Hyb & Syb & _);
    auto; try lia; try apply Mb.
  destruct (sum_slots_ok yg H W Syg) as (gamma & Hgamma & Sgamma & Vgamma).
  destruct (sum_slots_ok yb H W Syb) as (beta & Hbeta & Sbeta & Vbeta).
  exists gamma, beta, gm, bm, yg, yb.
  split; [|exact (conj Sgamma (conj Sbeta (conj Mg (conj Mb (conj Hyg
                     (conj Hyb (conj Vgamma Vbeta)))))))].
  unfold atten_feature, size_at. rewrite Hg. cbn [nth_error rbind skipn].
  rewrite Him. cbn [rbind].
  destruct (repeat m [1; 1; 1; 1]) as [mask_re|] eqn:Hre; [|discriminate].
  cbn [rbind] in Hgm, Hbm |- *.
  destruct (repeat gamma_s [3; 1; 1; 1]) as [g_re|] eqn:Hgre; [|discriminate].
  destruct (repeat beta_s [3; 1; 1; 1]) as [b_re|] eqn:Hbre; [|discriminate].
  cbn [rbind] in Hgm, Hbm |- *. rewrite Hgm. cbn [rbind]. rewrite Hbm. cbn [rbind].
  rewrite Hyg. cbn [rbind]. rewrite Hyb. cbn [rbind].
  revert Hgamma Hbeta.
  destruct (select0 yg 0) as [g0|]; cbn [rbind]; [|discriminate].
  destruct (select0 yg 1) as [g1|]; cbn [rbind]; [|discriminate].
  destruct (select0 yg 2) as [g2|]; cbn [rbind]; [|discriminate].
  destruct (tadd g0 g1) as [g01|]; cbn [rbind]; [|discriminate].
  destruct (tadd g01 g2) as [g012|]; cbn [rbind]; [|discriminate].
  intros [= <-].
  destruct (select0 yb 0) as [b0|]; cbn [rbind]; [|discriminate].
  destruct (select0 yb 1) as [b1|]; cbn [rbind]; [|discriminate].
  destruct (select0 yb 2) as [b2|]; cbn [rbind]; [|discriminate].
  destruct (tadd b0 b1) as [b01|]; cbn [rbind]; [|discriminate].
  destruct (tadd b01 b2) as [b012|]; cbn [rbind]; [|discriminate].
  intros [= <-]. reflexivity.
Qed.

(** With two or more channels the non-local block cannot multiply its
    source by the weight: [view(batch, 1, -1)] flattens the C channels into
    one channel of C*H*W positions, and the weight has H*W columns. *)
Lemma NONLocalBlock2D_forward_channels blk source weight B C H W :
  shape source = [B; C; H; W] ->
  sp_size weight = [B; H * W; H * W] ->
  0 < B -> 2 <= C -> 0 < H -> 0 < W ->
  NONLocalBlock2D_forward blk source weight = Err RuntimeError.
Proof.
  intros Hs Hw HB HC HH HW.
  unfold NONLocalBlock2D_forward, size_at. rewrite Hs. cbn [nth_error rbind].
  rewrite (view_ok source _ [B; 1; C * (H * W)])
    by (rewrite Hs; apply infer_shape_last;
        [lia | lia | unfold numel; cbn [fold_right]; ring]).
  cbn [rbind]. erewrite permute_021 by reflexivity. cbn [rbind].
  unfold bmm. cbn [shape to_dense]. rewrite Hw, Z.eqb_refl.
  replace (H * W =? C * (H * W)) with false by nia. reflexivity.
Qed.

(** C8: the code does not do what the claim, and the docstring of
    [atten_feature] ("feature size: (1, c, h, w)", "return: (1, c, h, w)"),
    say.  For gamma_s and beta_s with C >= 2 channels the channel-wise
    replication of the mask and the three-fold replication succeed, and the
    call then raises inside the non-local block, which treats its source as
    a single-channel map; no gamma and beta are returned. *)
Theorem C8_channels_raise mask_s weight gamma_s beta_s ag ab hm wm C H W :
  shape mask_s = [3; 1; hm; wm] -> 0 < hm -> 0 < wm ->
  sp_size weight = [3; H * W; H * W] ->
  shape gamma_s = [1; C; H; W] -> shape beta_s = [1; C; H; W] ->
  2 <= C -> 0 < H -> 0 < W ->
  atten_feature mask_s weight gamma_s beta_s ag ab = Err RuntimeError.
Proof.
  intros Hm Hhm Hwm Hw Hg Hb HC HH HW.
  unfold atten_feature, size_at. rewrite Hg. cbn [nth_error rbind skipn].
  rewrite (interpolate_ok mask_s 3 1 hm wm H W Hm) by lia. cbn [rbind].
  erewrite repeat_channels; [| reflexivity | lia]. cbn [rbind].
  rewrite (repeat_batch3 gamma_s 1 C H W Hg). cbn [rbind].
  unfold tmul. rewrite binop_same by (cbn [shape]; now rewrite !Z.mul_1_r).
  cbn [rbind].
  rewrite (repeat_batch3 beta_s 1 C H W Hb). cbn [rbind].
  rewrite binop_same by (cbn [shape]; now rewrite !Z.mul_1_r).
  cbn [rbind].
  rewrite (NONLocalBlock2D_forward_channels ag _ weight 3 C H W);
    [reflexivity | reflexivity | exact Hw | lia | lia | lia | lia].
Qed.

Lemma C8_channels_raise_witness :
  atten_feature mask_ones w_empty3 g_two g_two
                (NONLocalBlock2D_init sd_zero "g") (NONLocalBlock2D_init sd_zero "b")
    = Err RuntimeError.
Proof.
  apply (C8_channels_raise mask_ones w_empty3 g_two g_two
           (NONLocalBlock2D_init sd_zero "g") (NONLocalBlock2D_init sd_zero "b")
           1 1 2 1 1);
    [reflexivity | lia | lia | reflexivity | reflexivity | reflexivity | lia | lia | lia].
Defined.

(** ** Multi-indices and sparse tensors *)

Lemma In_indices (sh idx : list Z) : In idx (indices sh) <-> in_range sh idx.
Proof.
  unfold in_range. revert idx. induction sh as [|d sh IH]; intros idx; simpl.
  - split.
    + intros [<-|[]]. constructor.
    + intros H. inversion H. auto.
  - rewrite in_flat_map. split.
    + intros (i & Hi & Hin). apply in_map_iff in Hin as (idx' & <- & Hin').
      constructor; [now apply In_range|now apply IH].
    + intros H. inversion H as [|? i ? idx' Hi Hr]; subst.
      exists i. split; [now apply In_range|]. apply in_map, IH, Hr.
Qed.

Lemma NoDup_indices (sh : list Z) : NoDup (indices sh).
Proof.
  induction sh as [|d sh IH]; simpl.
  - constructor; [intros []|constructor].
  - generalize (NoDup_range d). generalize (range d) as l.
    induction l as [|i l IHl]; intros Hl; simpl; [constructor|].
    inversion Hl as [|? ? Hni Hl']; subst.
    apply NoDup_app.
    + apply Injective_map_NoDup; [|exact IH]. intros a b E. now injection E.
    + apply IHl, Hl'.
    + intros idx Hin Hin'. apply in_map_iff in Hin as (t & <- & _).
      apply in_flat_map in Hin' as (k & Hk & Hin'').
      apply in_map_iff in Hin'' as (t' & E & _). injection E as -> _.
      contradiction.
Qed.

Lemma Rnonzero_true (v : R) : Rnonzero v = true <-> v <> 0%R.
Proof. unfold Rnonzero. destruct (Req_dec_T v 0); split; congruence. Qed.

Lemma Rnonzero_false (v : R) : Rnonzero v = false <-> v = 0%R.
Proof. unfold Rnonzero. destruct (Req_dec_T v 0); split; congruence. Qed.

Lemma In_nonzero (x : tensor) (idx : list Z) :
  In idx (nonzero x) <-> in_range (shape x) idx /\ tget x idx <> 0%R.
Proof.
  unfold nonzero. rewrite filter_In, In_indices, Rnonzero_true. reflexivity.
Qed.

Lemma NoDup_nonzero (x : tensor) : NoDup (nonzero x).
Proof. unfold nonzero. apply NoDup_filter, NoDup_indices. Qed.

Lemma forallb_in_range_nonzero (x : tensor) :
  forallb (in_rangeb (shape x)) (nonzero x) = true.
Proof.
  apply forallb_forall. intros idx H. apply in_rangeb_spec, In_nonzero, H.
Qed.

Lemma dense_of_map (l : list (list Z)) (g : list Z -> R) (idx : list Z) :
  NoDup l ->
  Rsum (map (fun p => if list_eqb (fst p) idx then snd p else 0%R)
            (combine l (map g l)))
  = if in_dec (list_eq_dec Z.eq_dec) idx l then g idx else 0%R.
Proof.
  induction l as [|a l IH]; intros Hnd; simpl; [reflexivity|].
  inversion Hnd as [|? ? Hni Hnd']; subst. rewrite (IH Hnd').
  destruct (list_eq_dec Z.eq_dec a idx) as [->|Hne].
  - rewrite list_eqb_refl.
    destruct (in_dec (list_eq_dec Z.eq_dec) idx l) as [Hin|_]; [contradiction|lra].
  - replace (list_eqb a idx) with false
      by (symmetry; apply not_true_is_false; rewrite list_eqb_eq; exact Hne).
    destruct (in_dec (list_eq_dec Z.eq_dec) idx l); lra.
Qed.

(** ** The sparse correspondence matrix (lines 185-189) *)

Lemma HW_pos : 0 < HW.
Proof. reflexivity. Qed.

Lemma exp32_is_spec : exp32_spec exp32.
Proof. unfold exp32. apply proj2_sig. Qed.

Lemma exp32_nonneg (x : R) : (0 <= exp32 x)%R.
Proof. exact (proj1 exp32_is_spec x). Qed.

Lemma exp32_0 : exp32 0 = 1%R.
Proof. exact (proj2 exp32_is_spec). Qed.

Lemma fold_max_attained (f : Z -> R) (d : R) (l : list Z) :
  fold_right Rmax d (map f l) = d
  \/ exists k, In k l /\ fold_right Rmax d (map f l) = f k.
Proof.
  induction l as [|a l IH]; cbn [map fold_right]; [now left|].
  destruct (Rle_dec (f a) (fold_right Rmax d (map f l))) as [r|r].
  - rewrite (Rmax_right _ _ r).
    destruct IH as [IH|(k & Hk & IH)]; [now left|].
    right. exists k. split; [now right|exact IH].
  - rewrite Rmax_left by lra.
    right. exists a. split; [now left|reflexivity].
Qed.

Lemma fold_max_ge (f : Z -> R) (d : R) (l : list Z) (k : Z) :
  In k l -> (f k <= fold_right Rmax d (map f l))%R.
Proof.
  induction l as [|a l IH]; cbn [map fold_right]; intros Hk; [destruct Hk|].
  destruct Hk as [->|Hk].
  - apply Rmax_l.
  - eapply Rle_trans; [apply IH, Hk|apply Rmax_r].
Qed.

Lemma row_max_attained (m : Z) (f : Z -> R) :
  0 < m -> exists k, 0 <= k < m /\ row_max m f = f k.
Proof.
  intros Hm. unfold row_max.
  destruct (fold_max_attained f (f 0) (range m)) as [H|(k & Hk & H)].
  - exists 0. split; [lia|exact H].
  - exists k. split; [now apply In_range|exact H].
Qed.

Lemma row_max_ge (m : Z) (f : Z -> R) (j : Z) :
  0 <= j < m -> (f j <= row_max m f)%R.
Proof. intros Hj. unfold row_max. now apply fold_max_ge, In_range. Qed.

Lemma row_max_eq (m : Z) (f : Z -> R) (j : Z) :
  0 <= j < m -> (forall k, 0 <= k < m -> (f k <= f j)%R) -> row_max m f = f j.
Proof.
  intros Hj H. destruct (row_max_attained m f) as (k & Hk & E); [lia|].
  pose proof (row_max_ge m f j Hj). pose proof (H k Hk). lra.
Qed.

(** The row maximum contributes [exp32 0 = 1] to the denominator. *)
Lemma softmax_den_ge_1 (m : Z) (f : Z -> R) :
  0 < m -> (1 <= sumZ m (fun j => exp32 (f j - row_max m f)))%R.
Proof.
  intros Hm. destruct (row_max_attained m f Hm) as (k & Hk & E).
  apply Rle_trans with (exp32 (f k - row_max m f)).
  - rewrite E. replace (f k - f k)%R with 0%R by ring. rewrite exp32_0. lra.
  - apply (sumZ_ge_term m (fun j => exp32 (f j - row_max m f)) k); [|exact Hk].
    intros. apply exp32_nonneg.
Qed.

Lemma softmax_row_den (Wt : tensor) (b i : Z) :
  (1 <= sumZ HW (fun j' =>
          exp32 (tget Wt [b; i; j'] * 200
                 - row_max HW (fun j0 => tget Wt [b; i; j0] * 200))))%R.
Proof. exact (softmax_den_ge_1 HW (fun j' => (tget Wt [b; i; j'] * 200)%R) HW_pos). Qed.

Lemma softmax_row_nonneg (Wt : tensor) (b i j : Z) : (0 <= softmax_row Wt b i j)%R.
Proof.
  unfold softmax_row. cbv zeta. pose proof (softmax_row_den Wt b i) as Hd.
  unfold Rdiv. apply Rmult_le_pos; [apply exp32_nonneg|].
  apply Rlt_le, Rinv_0_lt_compat. lra.
Qed.

Lemma softmax_row_sum (Wt : tensor) (b i : Z) :
  sumZ HW (fun j => softmax_row Wt b i j) = 1%R.
Proof.
  unfold softmax_row. cbv zeta. pose proof (softmax_row_den Wt b i) as Hd.
  unfold Rdiv. rewrite sumZ_scal. apply Rinv_r. lra.
Qed.

Lemma softmax_row_le_1 (Wt : tensor) (b i j : Z) :
  0 <= j < HW -> (softmax_row Wt b i j <= 1)%R.
Proof.
  intros Hj. pose proof (softmax_row_sum Wt b i) as Hs. rewrite <- Hs.
  apply (sumZ_ge_term HW (fun j0 => softmax_row Wt b i j0) j); [|exact Hj].
  intros. apply softmax_row_nonneg.
Qed.

(** Where the similarity is the largest of its row the weight is positive:
    its exponential is [exp32 0 = 1]. *)
Lemma softmax_row_max_pos (Wt : tensor) (b i j : Z) :
  0 <= j < HW ->
  (forall j', 0 <= j' < HW -> (tget Wt [b; i; j'] <= tget Wt [b; i; j])%R) ->
  (0 < softmax_row Wt b i j)%R.
Proof.
  intros Hj Hmax. unfold softmax_row. cbv zeta.
  pose proof (softmax_row_den Wt b i) as Hd.
  rewrite (row_max_eq HW (fun j0 => (tget Wt [b; i; j0] * 200)%R) j Hj) in *
    by (intros k Hk; pose proof (Hmax k Hk); lra).
  replace (tget Wt [b; i; j] * 200 - tget Wt [b; i; j] * 200)%R with 0%R by ring.
  rewrite exp32_0. unfold Rdiv. rewrite Rmult_1_l. apply Rinv_0_lt_compat. lra.
Qed.


Lemma sparsify_spec (Wt : tensor) :
  shape Wt = [3; HW; HW] ->
  exists SM sp,
    softmax_last (mul_scalar Wt 200%R) = Ok SM
    /\ (forall b i j, tget SM [b; i; j] = softmax_row Wt b i j)
    /\ sparsify Wt = Ok sp
    /\ sp_indices sp = nonzero Wt
    /\ sp_values sp = map (tget SM) (nonzero Wt)
    /\ sp_size sp = [3; HW; HW]
    /\ forall idx,
        in_range [3; HW; HW] idx ->
        tget (to_dense sp) idx = if Rnonzero (tget Wt idx) then tget SM idx else 0%R.
Proof.
  intros Hs.
  assert (HSM : softmax_last (mul_scalar Wt 200%R) =
                Ok (mkT [3; HW; HW]
                        (fun idx =>
                           let row := fun j =>
                             tget (mul_scalar Wt 200%R) (set_nth 2 j idx) in
                           let mx := row_max HW row in
                           (exp32 (tget (mul_scalar Wt 200%R) idx - mx)
                            / sumZ HW (fun j => exp32 (row j - mx)))%R))).
  { unfold softmax_last, rank. cbn [mul_scalar tmap shape]. rewrite Hs. reflexivity. }
  eexists. eexists. split; [exact HSM|]. split; [intros b i j; reflexivity|].
  unfold sparsify. rewrite HSM. cbn [rbind].
  unfold index_coords. cbn [shape]. rewrite <- Hs, forallb_in_range_nonzero.
  cbn [rbind]. unfold sparse_FloatTensor.
  rewrite length_map, Nat.eqb_refl. rewrite forallb_in_range_nonzero. cbn [andb].
  split; [reflexivity|]. cbn [sp_indices sp_values sp_size].
  split; [reflexivity|]. split; [reflexivity|]. split; [reflexivity|].
  intros idx Hidx. unfold to_dense. cbn [tget sp_indices sp_values].
  rewrite dense_of_map by apply NoDup_nonzero.
  destruct (in_dec (list_eq_dec Z.eq_dec) idx (nonzero Wt)) as [Hin|Hnin].
  - apply In_nonzero in Hin as [_ Hnz]. apply Rnonzero_true in Hnz. now rewrite Hnz.
  - destruct (Rnonzero (tget Wt idx)) eqn:E; [|reflexivity].
    exfalso. apply Hnin, In_nonzero. split; [exact Hidx|apply Rnonzero_true, E].
Qed.

Lemma row_sum_spec (Wt SM : tensor) (sp : sparse) (b i : Z) :
  (forall b i j, tget SM [b; i; j] = softmax_row Wt b i j) ->
  (forall idx, in_range [3; HW; HW] idx ->
     tget (to_dense sp) idx = if Rnonzero (tget Wt idx) then tget SM idx else 0%R) ->
  0 <= b < 3 -> 0 <= i < HW ->
  (row_sum sp b i + dropped_mass Wt b i = 1)%R
  /\ (0 <= dropped_mass Wt b i)%R
  /\ (0 <= row_sum sp b i)%R
  /\ ((forall j, 0 <= j < HW -> tget Wt [b; i; j] <> 0%R) -> row_sum sp b i = 1%R)
  /\ ((exists j, 0 <= j < HW /\ tget Wt [b; i; j] = 0%R
                 /\ forall j', 0 <= j' < HW -> (tget Wt [b; i; j'] <= 0)%R) ->
      (row_sum sp b i < 1)%R)
  /\ ((forall j, 0 <= j < HW -> tget Wt [b; i; j] = 0%R) -> row_sum sp b i = 0%R).
Proof.
  intros HSM Hd Hb Hi.
  assert (Hrow : row_sum sp b i =
                 sumZ HW (fun j => if Rnonzero (tget Wt [b; i; j])
                                   then softmax_row Wt b i j else 0%R)).
  { unfold row_sum. apply sumZ_ext. intros j Hj.
    rewrite Hd by (apply in_range_3; lia). now rewrite HSM. }
  assert (Htot : (row_sum sp b i + dropped_mass Wt b i = 1)%R).
  { rewrite Hrow. unfold dropped_mass. rewrite <- sumZ_plus.
    rewrite <- (softmax_row_sum Wt b i). apply sumZ_ext. intros j _.
    destruct (Rnonzero (tget Wt [b; i; j])); lra. }
  assert (Hterm : forall j, (0 <= (if Rnonzero (tget Wt [b; i; j])
                                   then 0 else softmax_row Wt b i j))%R).
  { intros j. pose proof (softmax_row_nonneg Wt b i j).
    destruct (Rnonzero (tget Wt [b; i; j])); lra. }
  assert (Hdrop : (0 <= dropped_mass Wt b i)%R).
  { unfold dropped_mass. apply sumZ_nonneg. intros j _. apply Hterm. }
  assert (Hnn : (0 <= row_sum sp b i)%R).
  { rewrite Hrow. apply sumZ_nonneg. intros j _.
    pose proof (softmax_row_nonneg Wt b i j).
    destruct (Rnonzero (tget Wt [b; i; j])); lra. }
  split; [exact Htot|]. split; [exact Hdrop|]. split; [exact Hnn|]. split; [|split].
  - intros Hnz. assert (dropped_mass Wt b i = 0%R) as Hz; [|lra].
    unfold dropped_mass. apply sumZ_zero. intros j Hj.
    specialize (Hnz j Hj). apply Rnonzero_true in Hnz. now rewrite Hnz.
  - intros (j & Hj & Hz & Hmax). assert (0 < dropped_mass Wt b i)%R as Hpos; [|lra].
    apply Rlt_le_trans with (softmax_row Wt b i j).
    + apply softmax_row_max_pos; [exact Hj|].
      intros j' Hj'. rewrite Hz. now apply Hmax.
    + pose proof (sumZ_ge_term HW
                    (fun j0 => if Rnonzero (tget Wt [b; i; j0])
                               then 0%R else softmax_row Wt b i j0) j
                    (fun k _ => Hterm k) Hj) as Hge.
      cbv beta in Hge. apply Rnonzero_false in Hz. rewrite Hz in Hge. exact Hge.
  - intros Hall. rewrite Hrow. apply sumZ_zero. intros j Hj.
    replace (Rnonzero (tget Wt [b; i; j])) with false; [reflexivity|].
    symmetry. apply Rnonzero_false. now apply Hall.
Qed.

(** ** Generator.get_weight: the similarity matrix (lines 162-184) *)

Lemma cat_channels (x y : tensor) (a b b' c d : Z) :
  shape x = [a; b; c; d] -> shape y = [a; b'; c; d] ->
  cat x y 1 =
    Ok (mkT [a; b + b'; c; d]
            (fun idx => let i := nthZ idx 1 in
                        if i <? b then tget x idx
                        else tget y (set_nth 1 (i - b) idx))).
Proof.
  intros Hx Hy. unfold cat, rank. rewrite Hx, Hy.
  cbn [length Nat.ltb Nat.leb set_nth nthZ nth andb]. rewrite list_eqb_refl.
  reflexivity.
Qed.

Lemma cat_mismatch (x y : tensor) (a b b' c d c' d' : Z) :
  shape x = [a; b; c; d] -> shape y = [a; b'; c'; d'] -> c <> c' ->
  cat x y 1 = Err RuntimeError.
Proof.
  intros Hx Hy Hne. unfold cat, rank. rewrite Hx, Hy.
  cbn [length Nat.ltb Nat.leb set_nth nthZ nth andb].
  destruct (list_eqb [a; 0; c; d] [a; 0; c'; d']) eqn:E; [|reflexivity].
  apply list_eqb_eq in E. injection E as E _. contradiction.
Qed.

Lemma region_features_ok (mask fea : tensor) (h w C : Z) :
  shape mask = [3; 1; h; w] -> 0 < h -> 0 < w ->
  shape fea = [1; C; 64; 64] -> 0 <= C ->
  exists m mask_re fea_re fm,
    interpolate mask 64 64 = Ok m
    /\ repeat m [1; C; 1; 1] = Ok mask_re
    /\ repeat fea [3; 1; 1; 1] = Ok fea_re
    /\ tmul fea_re mask_re = Ok fm
    /\ shape fm = [3; C; 64; 64]
    /\ ((forall idx, tget fea idx = 0%R) -> forall idx, tget fm idx = 0%R).
Proof.
  intros Hm Hh Hw Hf HC.
  do 4 eexists.
  split; [apply (interpolate_ok mask 3 1 h w 64 64); auto; lia|].
  split; [apply repeat_channels; [reflexivity|exact HC]|].
  split; [apply repeat_batch3, Hf|].
  split; [apply binop_same; cbn [shape]; f_equal; f_equal; lia|].
  split; [reflexivity|].
  intros Hz idx. cbn [tget]. rewrite Hz. ring.
Qed.

Lemma get_weight_similarity_prefix mask_c mask_s fea_c fea_s diff_c diff_s
    hc wc hs ws C :
  shape mask_c = [3; 1; hc; wc] -> 0 < hc -> 0 < wc ->
  shape mask_s = [3; 1; hs; ws] -> 0 < hs -> 0 < ws ->
  shape fea_c = [1; C; 64; 64] -> shape fea_s = [1; C; 64; 64] -> 0 <= C ->
  exists fc fs,
    shape fc = [3; C; 64; 64] /\ shape fs = [3; C; 64; 64]
    /\ ((forall idx, tget fea_c idx = 0%R) -> forall idx, tget fc idx = 0%R)
    /\ get_weight_similarity mask_c mask_s fea_c (Some fea_s) diff_c diff_s =
       (theta_input <- cat (mul_scalar fc (1 / 100)%R) diff_c 1 ;;
        phi_input <- cat (mul_scalar fs (1 / 100)%R) diff_s 1 ;;
        theta_target <- view theta_input [3; -1; HW] ;;
        theta_target <- permute theta_target [0; 2; 1] ;;
        phi_source <- view phi_input [3; -1; HW] ;;
        bmm theta_target phi_source)%result.
Proof.
  intros Hmc Hhc Hwc Hms Hhs Hws Hfc Hfs HC.
  destruct (region_features_ok mask_c fea_c hc wc C)
    as (mc & mcre & fcre & fc & E1 & E2 & E3 & E4 & Sfc & Zfc); auto.
  destruct (region_features_ok mask_s fea_s hs ws C)
    as (ms & msre & fsre & fs & F1 & F2 & F3 & F4 & Sfs & _); auto.
  exists fc, fs. repeat (split; [assumption|]).
  unfold get_weight_similarity. cbn [rbind]. unfold size_at. rewrite Hfs.
  cbn [nth_error rbind].
  rewrite E1. cbn [rbind]. rewrite E2. cbn [rbind]. rewrite E3. cbn [rbind].
  rewrite E4. cbn [rbind].
  rewrite F1. cbn [rbind]. rewrite F2. cbn [rbind]. rewrite F3. cbn [rbind].
  rewrite F4. cbn [rbind]. reflexivity.
Qed.

Lemma get_weight_similarity_ok mask_c mask_s fea_c fea_s diff_c diff_s
    hc wc hs ws C D :
  shape mask_c = [3; 1; hc; wc] -> 0 < hc -> 0 < wc ->
  shape mask_s = [3; 1; hs; ws] -> 0 < hs -> 0 < ws ->
  shape fea_c = [1; C; 64; 64] -> shape fea_s = [1; C; 64; 64] -> 0 <= C ->
  shape diff_c = [3; D; 64; 64] -> shape diff_s = [3; D; 64; 64] ->
  exists Wt,
    get_weight_similarity mask_c mask_s fea_c (Some fea_s) diff_c diff_s = Ok Wt
    /\ shape Wt = [3; HW; HW]
    /\ ((forall idx, tget fea_c idx = 0%R) -> (forall idx, tget diff_c idx = 0%R) ->
        forall idx, tget Wt idx = 0%R).
Proof.
  intros Hmc Hhc Hwc Hms Hhs Hws Hfc Hfs HC Hdc Hds.
  destruct (get_weight_similarity_prefix mask_c mask_s fea_c fea_s diff_c diff_s
              hc wc hs ws C) as (fc & fs & Sfc & Sfs & Zfc & E); auto.
  rewrite E.
  rewrite (cat_channels _ diff_c 3 C D 64 64) by assumption. cbn [rbind].
  rewrite (cat_channels _ diff_s 3 C D 64 64) by assumption. cbn [rbind].
  rewrite (view_ok _ _ [3; C + D; HW])
    by (apply infer_shape_mid; [lia | apply HW_pos
                                | unfold numel, HW; cbn [shape fold_right]; ring]).
  cbn [rbind]. erewrite permute_021 by reflexivity. cbn [rbind].
  rewrite (view_ok _ _ [3; C + D; HW])
    by (apply infer_shape_mid; [lia | apply HW_pos
                                | unfold numel, HW; cbn [shape fold_right]; ring]).
  cbn [rbind]. erewrite bmm_ok by reflexivity.
  eexists. split; [reflexivity|]. split; [reflexivity|].
  intros Hz Hzd idx. cbn [tget].
  destruct idx as [|i [|j [|k [|]]]]; try reflexivity.
  apply sumZ_zero. intros l _. cbn [shape nthZ nth].
  rewrite unravel_4. cbv zeta.
  match goal with |- context [if ?b then _ else _] => destruct b end.
  - cbn [mul_scalar tmap tget]. rewrite Zfc by exact Hz. ring.
  - rewrite Hzd. ring.
Qed.

Lemma get_weight_similarity_mismatch mask_c mask_s fea_c fea_s diff_c diff_s
    hc wc hs ws C D dh dw :
  shape mask_c = [3; 1; hc; wc] -> 0 < hc -> 0 < wc ->
  shape mask_s = [3; 1; hs; ws] -> 0 < hs -> 0 < ws ->
  shape fea_c = [1; C; 64; 64] -> shape fea_s = [1; C; 64; 64] -> 0 <= C ->
  shape diff_c = [3; D; dh; dw] -> dh <> 64 ->
  get_weight_similarity mask_c mask_s fea_c (Some fea_s) diff_c diff_s = Err RuntimeError.
Proof.
  intros Hmc Hhc Hwc Hms Hhs Hws Hfc Hfs HC Hdc Hne.
  destruct (get_weight_similarity_prefix mask_c mask_s fea_c fea_s diff_c diff_s
              hc wc hs ws C) as (fc & fs & Sfc & Sfs & Zfc & E); auto.
  rewrite E.
  rewrite (cat_mismatch _ diff_c 3 C D 64 64 dh dw) by (auto; congruence).
  reflexivity.
Qed.

(** ** Generator.get_weight *)

Lemma get_weight_spec mask_c mask_s fea_c fea_s diff_c diff_s hc wc hs ws C D :
  shape mask_c = [3; 1; hc; wc] -> 0 < hc -> 0 < wc ->
  shape mask_s = [3; 1; hs; ws] -> 0 < hs -> 0 < ws ->
  shape fea_c = [1; C; 64; 64] -> shape fea_s = [1; C; 64; 64] -> 0 <= C ->
  shape diff_c = [3; D; 64; 64] -> shape diff_s = [3; D; 64; 64] ->
  exists Wt SM sp,
    get_weight_similarity mask_c mask_s fea_c (Some fea_s) diff_c diff_s = Ok Wt
    /\ shape Wt = [3; HW; HW]
    /\ ((forall idx, tget fea_c idx = 0%R) -> (forall idx, tget diff_c idx = 0%R) ->
        forall idx, tget Wt idx = 0%R)
    /\ softmax_last (mul_scalar Wt 200%R) = Ok SM
    /\ (forall b i j, tget SM [b; i; j] = softmax_row Wt b i j)
    /\ get_weight mask_c mask_s fea_c (Some fea_s) diff_c diff_s = Ok sp
    /\ sp_indices sp = nonzero Wt
    /\ sp_values sp = map (tget SM) (nonzero Wt)
    /\ sp_size sp = [3; HW; HW]
    /\ forall idx,
        in_range [3; HW; HW] idx ->
        tget (to_dense sp) idx = if Rnonzero (tget Wt idx) then tget SM idx else 0%R.
Proof.
  intros Hmc Hhc Hwc Hms Hhs Hws Hfc Hfs HC Hdc Hds.
  destruct (get_weight_similarity_ok mask_c mask_s fea_c fea_s diff_c diff_s
              hc wc hs ws C D) as (Wt & EW & SW & ZW); auto.
  destruct (sparsify_spec Wt SW) as (SM & sp & ESM & VSM & Esp & Hi & Hv & Hsz & Hd).
  exists Wt, SM, sp. unfold get_weight. rewrite EW. cbn [rbind].
  repeat (split; [assumption || reflexivity|]). exact Hd.
Qed.

(** C1, as the claim states it, fails twice over.  With difference tensors
    of shape (3, 136, 32, 32) [get_weight] raises at the concatenation with
    the 64 x 64 features and returns no matrix; with 64 x 64 difference
    tensors and all-zero features and differences every raw similarity is
    zero, nothing is retained and every row sums to 0. *)
Lemma C1_counterexample : ~ rows_sum_to_one 32 /\ ~ rows_sum_to_one 64.
Proof.
  split; intros H.
  - destruct (H mask256 mask256 fea_zero fea_zero (diff_zero 32) (diff_zero 32))
      as (sp & E & _); try reflexivity.
    unfold get_weight in E.
    rewrite (get_weight_similarity_mismatch mask256 mask256 fea_zero fea_zero
               (diff_zero 32) (diff_zero 32) 256 256 256 256 256 136 32 32) in E;
      try reflexivity; try lia.
    discriminate E.
  - destruct (H mask256 mask256 fea_zero fea_zero (diff_zero 64) (diff_zero 64))
      as (sp & E & Hrow); try reflexivity.
    destruct (get_weight_spec mask256 mask256 fea_zero fea_zero
                (diff_zero 64) (diff_zero 64) 256 256 256 256 256 136)
      as (Wt & SM & sp' & _ & _ & ZW & _ & _ & E' & _ & _ & _ & Hd);
      try reflexivity; try lia.
    rewrite E in E'. injection E' as <-.
    specialize (Hrow 0 0 ltac:(lia) ltac:(unfold HW; lia)).
    assert (Hz : row_sum sp 0 0 = 0%R).
    { unfold row_sum. apply sumZ_zero. intros j Hj.
      rewrite Hd by (apply in_range_3; unfold HW in *; lia).
      rewrite (ZW (fun _ => eq_refl) (fun _ => eq_refl)).
      replace (Rnonzero 0) with false; [reflexivity|].
      symmetry. now apply Rnonzero_false. }
    rewrite Hz in Hrow. lra.
Qed.

(** C1 (amended): for masks of shape (3, 1, h, w), features of shape
    (1, C, 64, 64) and difference tensors of the same spatial size,
    (3, D, 64, 64), [get_weight] returns a sparse matrix of size (3, HW, HW)
    in which the retained entries of each row sum to 1 minus the softmax
    weight of the row's positions whose raw similarity is exactly zero, a
    weight that is never negative.  The sum is 1 for a row without a zero
    similarity, less than 1 for a row in which a zero is the largest
    similarity, and 0 for a row whose similarities are all zero. *)
Theorem C1_row_sums mask_c mask_s fea_c fea_s diff_c diff_s hc wc hs ws C D :
  shape mask_c = [3; 1; hc; wc] -> 0 < hc -> 0 < wc ->
  shape mask_s = [3; 1; hs; ws] -> 0 < hs -> 0 < ws ->
  shape fea_c = [1; C; 64; 64] -> shape fea_s = [1; C; 64; 64] -> 0 <= C ->
  shape diff_c = [3; D; 64; 64] -> shape diff_s = [3; D; 64; 64] ->
  exists Wt sp,
    get_weight_similarity mask_c mask_s fea_c (Some fea_s) diff_c diff_s = Ok Wt
    /\ get_weight mask_c mask_s fea_c (Some fea_s) diff_c diff_s = Ok sp
    /\ sp_size sp = [3; HW; HW]
    /\ forall b i,
        0 <= b < 3 -> 0 <= i < HW ->
        (row_sum sp b i + dropped_mass Wt b i = 1)%R
        /\ (0 <= dropped_mass Wt b i)%R
        /\ (0 <= row_sum sp b i)%R
        /\ ((forall j, 0 <= j < HW -> tget Wt [b; i; j] <> 0%R) -> row_sum sp b i = 1%R)
        /\ ((exists j, 0 <= j < HW /\ tget Wt [b; i; j] = 0%R
                       /\ forall j', 0 <= j' < HW -> (tget Wt [b; i; j'] <= 0)%R) ->
            (row_sum sp b i < 1)%R)
        /\ ((forall j, 0 <= j < HW -> tget Wt [b; i; j] = 0%R) -> row_sum sp b i = 0%R).
Proof.
  intros Hmc Hhc Hwc Hms Hhs Hws Hfc Hfs HC Hdc Hds.
  destruct (get_weight_spec mask_c mask_s fea_c fea_s diff_c diff_s hc wc hs ws C D)
    as (Wt & SM & sp & EW & _ & _ & _ & VSM & Esp & _ & _ & Hsz & Hd); auto.
  exists Wt, sp. repeat (split; [assumption|]).
  intros b i Hb Hi. now apply (row_sum_spec Wt SM sp b i).
Qed.

Lemma C1_row_sums_witness :
  exists Wt sp,
    get_weight_similarity mask256 mask256 fea_zero (Some fea_zero)
                          (diff_zero 64) (diff_zero 64) = Ok Wt
    /\ get_weight mask256 mask256 fea_zero (Some fea_zero)
                  (diff_zero 64) (diff_zero 64) = Ok sp
    /\ sp_size sp = [3; HW; HW]
    /\ forall b i,
        0 <= b < 3 -> 0 <= i < HW ->
        (row_sum sp b i + dropped_mass Wt b i = 1)%R
        /\ (0 <= dropped_mass Wt b i)%R
        /\ (0 <= row_sum sp b i)%R
        /\ ((forall j, 0 <= j < HW -> tget Wt [b; i; j] <> 0%R) -> row_sum sp b i = 1%R)
        /\ ((exists j, 0 <= j < HW /\ tget Wt [b; i; j] = 0%R
                       /\ forall j', 0 <= j' < HW -> (tget Wt [b; i; j'] <= 0)%R) ->
            (row_sum sp b i < 1)%R)
        /\ ((forall j, 0 <= j < HW -> tget Wt [b; i; j] = 0%R) -> row_sum sp b i = 0%R).
Proof.
  apply (C1_row_sums mask256 mask256 fea_zero fea_zero (diff_zero 64) (diff_zero 64)
           256 256 256 256 256 136);
    [reflexivity | lia | lia | reflexivity | lia | lia
     | reflexivity | reflexivity | lia | reflexivity | reflexivity].
Defined.



(** ** Shapes of module outputs *)

Lemma layer_forward_shape (l : layer) (x : tensor) :
  rmap shape (layer_forward l x) = layer_shape l (shape x).
Proof.
  destruct l as [L|L| | |L];
    unfold layer_forward, layer_shape, Conv2d_forward, InstanceNorm2d_forward,
      ConvTranspose2d_forward; try reflexivity;
    destruct (shape x) as [|n [|ci [|h [|w [|]]]]]; try reflexivity.
  - match goal with |- context [if ?b then _ else _] => destruct b end; reflexivity.
  - destruct (n_affine L); [destruct (ci =? n_features L)|]; reflexivity.
  - match goal with |- context [if ?b then _ else _] => destruct b end; reflexivity.
Qed.

Lemma Sequential_forward_shape (ls : list layer) (x : tensor) :
  rmap shape (Sequential_forward ls x) = sequential_shape ls (shape x).
Proof.
  revert x. induction ls as [|l ls IH]; intros x; simpl; [reflexivity|].
  rewrite <- layer_forward_shape.
  destruct (layer_forward l x) as [y|e]; simpl; [apply IH|reflexivity].
Qed.

Lemma binop_shape (f : R -> R -> R) (x y : tensor) :
  rmap shape (binop f x y) = broadcast_shapes (shape x) (shape y).
Proof.
  unfold binop. destruct (broadcast_shapes (shape x) (shape y)); reflexivity.
Qed.

Lemma module_call_shape (m : module) (x : tensor) :
  rmap shape (module_call m x) = module_shape m (shape x).
Proof.
  destruct m as [l|ls|blk|g|b]; simpl; try reflexivity.
  - apply layer_forward_shape.
  - apply Sequential_forward_shape.
  - unfold ResidualBlock_forward. rewrite <- Sequential_forward_shape.
    destruct (Sequential_forward (rb_main blk) x) as [y|e]; simpl; [|reflexivity].
    apply binop_shape.
Qed.

Lemma module_call_ok (m : module) (x : tensor) (sh : list Z) :
  module_shape m (shape x) = Ok sh ->
  exists y, module_call m x = Ok y /\ shape y = sh.
Proof.
  intros H. rewrite <- module_call_shape in H.
  destruct (module_call m x) as [y|e]; simpl in H; [|discriminate].
  exists y. split; [reflexivity|congruence].
Qed.


Lemma Generator_init_ok (sd : state_dict) : Generator_init sd = Ok (generator_of sd).
Proof. reflexivity. Qed.


(** ** Symbolic execution of forward_atten *)

(** Evaluate everything except the calls whose outcome depends on tensor
    data or shapes, then split on the outcome of the first pending call. *)
Ltac norm :=
  lazy -[module_call fuse GetMatrix_forward get_weight atten_feature].

Ltac norm_in H :=
  lazy -[module_call fuse GetMatrix_forward get_weight atten_feature] in H.

Ltac step :=
  match goal with
  | |- context [module_call ?m ?x] => destruct (module_call m x) as [?|?]
  | |- context [fuse ?c ?g ?b] => destruct (fuse c g b) as [?|?]
  | |- context [GetMatrix_forward ?m ?x] =>
      destruct (GetMatrix_forward m x) as [[[? ?] ?]|?]
  | |- context [get_weight ?a ?b ?c ?d ?e ?f] =>
      destruct (get_weight a b c d e f) as [?|?]
  | |- context [atten_feature ?a ?b ?c ?d ?e ?f] =>
      destruct (atten_feature a b c d e f) as [[? ?]|?]
  end.

Lemma pnet_in_seq_ok (sd : state_dict) (s : tensor) :
  image_shaped s ->
  exists y,
    module_call
      (MSequential [LConv2d (nn_Conv2d sd "pnet_in.0" 3 64 7 1 3 false);
                    LInstanceNorm2d (nn_InstanceNorm2d sd "pnet_in.1" 64 true);
                    LReLU]) s = Ok y.
Proof.
  intros (n & h & w & Hs & Hh & Hw).
  unfold module_call, Sequential_forward, layer_forward.
  rewrite (Conv2d_forward_ok _ s n h w) by (simpl; auto; lia). cbn [rbind].
  erewrite InstanceNorm2d_forward_ok by (simpl; auto). cbn [rbind].
  eexists. reflexivity.
Qed.

Lemma forward_atten_mix_independent sd c gamma beta ret
    s1 mc1 ms1 dc1 ds1 s2 mc2 ms2 dc2 ds2 :
  image_shaped s1 -> image_shaped s2 ->
  forward_atten (generator_of sd) c s1 mc1 ms1 dc1 ds1 (Some gamma) beta ret =
  forward_atten (generator_of sd) c s2 mc2 ms2 dc2 ds2 (Some gamma) beta ret.
Proof.
  intros H1 H2.
  destruct (pnet_in_seq_ok sd s1 H1) as [y1 E1].
  destruct (pnet_in_seq_ok sd s2 H2) as [y2 E2].
  norm_in E1. norm_in E2. norm. rewrite E1, E2.
  repeat (norm; try reflexivity; step).
  all: norm; reflexivity.
Qed.

(** C2: in mix/test mode (gamma supplied, ret=False) two runs on the same
    content image with the same gamma and beta return the same outcome,
    including the same sequence of module calls, whatever well-formed style
    images, masks and difference tensors they are given.  (The style image is
    still passed through [pnet_in], so it has to be a well-formed image in
    both runs.) *)
Theorem C2_mix_mode_independent sd c gamma beta
    s1 mc1 ms1 dc1 ds1 s2 mc2 ms2 dc2 ds2 n1 h1 w1 n2 h2 w2 :
  shape s1 = [n1; 3; h1; w1] -> 1 <= h1 -> 1 <= w1 ->
  shape s2 = [n2; 3; h2; w2] -> 1 <= h2 -> 1 <= w2 ->
  forward_atten (generator_of sd) c s1 mc1 ms1 dc1 ds1 (Some gamma) beta false =
  forward_atten (generator_of sd) c s2 mc2 ms2 dc2 ds2 (Some gamma) beta false.
Proof.
  intros S1 Hh1 Hw1 S2 Hh2 Hw2.
  apply forward_atten_mix_independent.
  - exists n1, h1, w1. auto.
  - exists n2, h2, w2. auto.
Qed.

Lemma C2_mix_mode_independent_witness :
  forward_atten (generator_of sd_zero) img_small img_small mask_ones mask_ones
                (diff_zero 64) (diff_zero 64) (Some g_one) (Some g_one) false =
  forward_atten (generator_of sd_zero) img_small img_other mask256 mask256
                (diff_zero 32) (diff_zero 32) (Some g_one) (Some g_one) false.
Proof.
  apply (C2_mix_mode_independent sd_zero img_small g_one (Some g_one)
           img_small mask_ones mask_ones (diff_zero 64) (diff_zero 64)
           img_other mask256 mask256 (diff_zero 32) (diff_zero 32)
           1 4 4 2 8 8);
    [reflexivity | lia | lia | reflexivity | lia | lia].
Defined.

(** ** forward_atten against the pipeline of the specification *)

Ltac finish_iff :=
  solve [intuition (try discriminate; try congruence)].

Lemma forward_atten_mix_refines sd c s mc ms dc ds gamma beta ret y :
  snd (forward_atten (generator_of sd) c s mc ms dc ds (Some gamma) beta ret)
    = Ok (RTensor y)
  <-> is_ok (call_r (generator_of sd) "pnet_in" s) = true
      /\ spec_mix (generator_of sd) c gamma beta = Ok y.
Proof.
  repeat (norm; try finish_iff; step).
  all: norm; finish_iff.
Qed.

Lemma forward_atten_train_refines sd c s mc ms dc ds beta0 y :
  snd (forward_atten (generator_of sd) c s mc ms dc ds None beta0 false)
    = Ok (RTensor y)
  <-> spec_train (generator_of sd) c s mc ms dc ds = Ok y.
Proof.
  repeat (norm; try finish_iff; step).
  all: norm; finish_iff.
Qed.

Lemma forward_atten_ret_refines sd c s mc ms dc ds beta0 v :
  snd (forward_atten (generator_of sd) c s mc ms dc ds None beta0 true) = Ok v
  <-> exists gamma beta,
        v = RList gamma beta
        /\ spec_params (generator_of sd) c s mc ms dc ds = Ok (gamma, beta).
Proof.
  repeat (norm;
          try solve [split; [discriminate | intros (? & ? & _ & ?); discriminate]];
          step).
  all: norm;
    try solve [split; [discriminate | intros (? & ? & _ & ?); discriminate]].
  split.
  - intros [= <-]. eauto.
  - intros (g & b & -> & [= -> ->]). reflexivity.
Qed.

Lemma forward_atten_fuse_events sd c s mc ms dc ds gamma beta ret :
  (fuse_events (fst (forward_atten (generator_of sd) c s mc ms dc ds gamma beta ret)) = []
   \/ fuse_events (fst (forward_atten (generator_of sd) c s mc ms dc ds gamma beta ret))
      = [3])
  /\ match snd (forward_atten (generator_of sd) c s mc ms dc ds gamma beta ret) with
     | Ok (RTensor _) =>
         fuse_events (fst (forward_atten (generator_of sd) c s mc ms dc ds gamma beta ret))
           = [3]
     | _ => True
     end.
Proof.
  destruct gamma as [g|], ret.
  all: repeat (norm; try solve [auto]; step).
  all: norm; auto.
Qed.

Lemma forward_atten_ret_events sd c s mc ms dc ds beta0 :
  forallb head_event
    (fst (forward_atten (generator_of sd) c s mc ms dc ds None beta0 true)) = true.
Proof.
  repeat (norm; try reflexivity; step).
  all: norm; reflexivity.
Qed.

(** ** Successful runs: shapes through the pipeline *)

(** Discharge a pending module call whose input has a known shape. *)
Ltac shape_goal :=
  try match goal with
      | H : shape ?x = _ |- context [shape ?x] => rewrite H
      end;
  lazy -[Z.eqb]; rewrite ?Z.eqb_refl; lazy; reflexivity.

Ltac step_ok :=
  match goal with
  | |- context [module_call ?m ?x] =>
      let y := fresh "y" in
      let E := fresh "E" in
      let S := fresh "S" in
      edestruct (module_call_ok m x) as (y & E & S);
      [ shape_goal | rewrite E ]
  end.

Ltac run_ok := repeat (norm; step_ok); norm.

Lemma content_head_shape sd c N :
  shape c = [N; 3; 256; 256] ->
  exists c3, content_head (generator_of sd) c = Ok c3 /\ shape c3 = [N; 256; 64; 64].
Proof.
  intros Hc. unfold content_head, call_r. run_ok.
  eexists. split; [reflexivity|assumption].
Qed.

Lemma style_head_shape sd s N :
  shape s = [N; 3; 256; 256] ->
  exists s3, style_head (generator_of sd) s = Ok s3 /\ shape s3 = [N; 256; 64; 64].
Proof.
  intros Hs. unfold style_head, call_r. run_ok.
  eexists. split; [reflexivity|assumption].
Qed.

Lemma tanh_range (x : R) : (-1 <= tanh x <= 1)%R.
Proof.
  unfold tanh, sinh, cosh.
  pose proof (exp_pos x) as Hp. pose proof (exp_pos (- x)) as Hn.
  assert (Hc : (0 < (exp x + exp (- x)) / 2)%R) by lra.
  split.
  - apply Rmult_le_reg_r with ((exp x + exp (- x)) / 2)%R; [exact Hc|].
    unfold Rdiv at 2. rewrite Rmult_assoc, Rinv_l by lra. lra.
  - apply Rmult_le_reg_r with ((exp x + exp (- x)) / 2)%R; [exact Hc|].
    unfold Rdiv at 1. rewrite Rmult_assoc, Rinv_l by lra. lra.
Qed.

Lemma seq_tanh_range (L : Conv2d) (x y : tensor) :
  module_call (MSequential [LConv2d L; LTanh]) x = Ok y ->
  forall idx, (-1 <= tget y idx <= 1)%R.
Proof.
  unfold module_call, Sequential_forward, layer_forward. intros H idx.
  destruct (Conv2d_forward L x) as [t|e]; [|discriminate].
  cbn [rbind] in H. injection H as <-. cbn [Tanh_forward tmap tget]. apply tanh_range.
Qed.

Lemma content_tail_shape sd x :
  shape x = [1; 256; 64; 64] ->
  exists y,
    content_tail (generator_of sd) x = Ok y
    /\ shape y = [1; 3; 256; 256]
    /\ forall idx, (-1 <= tget y idx <= 1)%R.
Proof.
  intros Hx. unfold content_tail, call_r. run_ok.
  eexists. split; [reflexivity|]. split; [assumption|].
  match goal with
  | H : module_call (MSequential [LConv2d _; LTanh]) _ = Ok ?y |- _ =>
      exact (seq_tanh_range _ _ _ H)
  end.
Qed.

Lemma broadcast_map (N C h w : Z) :
  broadcast_shapes [N; C; h; w] [1; 1; h; w] = Ok [N; C; h; w].
Proof.
  unfold broadcast_shapes, pad_left. cbn [length Nat.max Nat.sub List.repeat app].
  cbn [broadcast_dims rbind]. rewrite !Z.eqb_refl. cbn [rbind].
  destruct (C =? 1); cbn [rbind]; destruct (N =? 1); reflexivity.
Qed.

Lemma bidx_map (H W n ch y xx : Z) :
  0 <= y < H -> 0 <= xx < W -> bidx [1; 1; H; W] [n; ch; y; xx] = [0; 0; y; xx].
Proof.
  intros Hy Hx. unfold bidx, zipWith.
  cbn [length Nat.sub skipn combine map fst snd Z.eqb Pos.eqb].
  destruct (Z.eqb_spec H 1); destruct (Z.eqb_spec W 1); repeat f_equal; lia.
Qed.

(** The modulation of line 234 entry by entry, for content features of
    shape (N, C, H, W) and maps gamma, beta of shape (1, 1, H, W): the maps
    are broadcast over the batch and the channels. *)
Lemma fuse_affine (c3 g b : tensor) (N C H W : Z) :
  shape c3 = [N; C; H; W] -> shape g = [1; 1; H; W] -> shape b = [1; 1; H; W] ->
  exists x,
    fuse c3 (Some g) (Some b) = Ok x
    /\ shape x = [N; C; H; W]
    /\ forall n ch y xx,
        0 <= n < N -> 0 <= ch < C -> 0 <= y < H -> 0 <= xx < W ->
        tget x [n; ch; y; xx] =
          (tget c3 [n; ch; y; xx] * (1 + tget g [0; 0; y; xx]%Z)
           + tget b [0; 0; y; xx]%Z)%R.
Proof.
  intros Hc Hg Hb. unfold fuse, tmul, tadd, binop.
  cbn [scalar_add tmap shape]. rewrite Hc, Hg, broadcast_map. cbn [rbind shape].
  rewrite Hb, broadcast_map. cbn [rbind].
  eexists. split; [reflexivity|]. split; [reflexivity|].
  intros n ch y xx Hn Hch Hy Hx. cbn [tget].
  rewrite !(bidx_in_range [N; C; H; W] [n; ch; y; xx]) by (apply in_range_4; lia).
  rewrite !(bidx_map H W n ch y xx Hy Hx). cbn [scalar_add tmap tget]. reflexivity.
Qed.

Lemma fuse_ok (c g b : tensor) (sh : list Z) :
  (t <- broadcast_shapes (shape c) (shape g) ;; broadcast_shapes t (shape b))%result
    = Ok sh ->
  exists x, fuse c (Some g) (Some b) = Ok x /\ shape x = sh.
Proof.
  intros H. unfold fuse, tmul, tadd.
  pose proof (binop_shape Rmult c (scalar_add 1%R g)) as H1. cbn [scalar_add tmap shape] in H1.
  destruct (binop Rmult c (scalar_add 1%R g)) as [t|e]; cbn [rmap] in H1;
    rewrite <- H1 in H; cbn [rbind] in H |- *; [|discriminate].
  pose proof (binop_shape Rplus t b) as H2.
  destruct (binop Rplus t b) as [x|e]; cbn [rmap] in H2; rewrite <- H2 in H;
    [|discriminate].
  exists x. split; [reflexivity|congruence].
Qed.

Lemma GetMatrix_forward_ok (m : GetMatrix) (x : tensor) (n h w : Z) :
  shape x = [n; c_in (get_gamma m); h; w] ->
  c_in (get_beta m) = c_in (get_gamma m) ->
  c_k (get_gamma m) = 1 -> c_stride (get_gamma m) = 1 -> c_pad (get_gamma m) = 0 ->
  c_k (get_beta m) = 1 -> c_stride (get_beta m) = 1 -> c_pad (get_beta m) = 0 ->
  1 <= h -> 1 <= w ->
  exists gamma beta,
    GetMatrix_forward m x = Ok (x, gamma, beta)
    /\ shape gamma = [n; c_out (get_gamma m); h; w]
    /\ shape beta = [n; c_out (get_beta m); h; w].
Proof.
  intros Hx Hci Hk Hs Hp Hk' Hs' Hp' Hh Hw. unfold GetMatrix_forward.
  rewrite (Conv2d_forward_ok _ x n h w) by (rewrite ?Hk, ?Hp; auto; lia).
  cbn [rbind].
  rewrite (Conv2d_forward_ok _ x n h w) by (rewrite ?Hk', ?Hp', ?Hci; auto; lia).
  cbn [rbind]. do 2 eexists. split; [reflexivity|].
  rewrite Hk, Hs, Hp, Hk', Hs', Hp'. unfold conv_out.
  rewrite !Z.div_1_r. cbn [shape].
  split; do 2 f_equal; f_equal; try lia; f_equal; lia.
Qed.

Lemma makeup_params_ok sd mc ms dc ds c3 s3 hc wc hs ws D :
  shape mc = [3; 1; hc; wc] -> 0 < hc -> 0 < wc ->
  shape ms = [3; 1; hs; ws] -> 0 < hs -> 0 < ws ->
  shape dc = [3; D; 64; 64] -> shape ds = [3; D; 64; 64] ->
  shape c3 = [1; 256; 64; 64] -> shape s3 = [1; 256; 64; 64] ->
  exists gamma beta,
    makeup_params (generator_of sd) mc ms dc ds c3 s3 = Ok (gamma, beta)
    /\ shape gamma = [1; 1; 64; 64] /\ shape beta = [1; 1; 64; 64].
Proof.
  intros Hmc Hhc Hwc Hms Hhs Hws Hdc Hds Hc3 Hs3.
  unfold makeup_params. norm.
  match goal with
  | |- context [GetMatrix_forward ?m ?x] =>
      destruct (GetMatrix_forward_ok m x 1 64 64) as (g & b & E & Sg & Sb);
        [exact Hs3 | reflexivity | reflexivity | reflexivity | reflexivity
         | reflexivity | reflexivity | reflexivity | lia | lia | rewrite E]
  end.
  norm.
  destruct (get_weight_spec mc ms c3 s3 dc ds hc wc hs ws 256 D)
    as (Wt & SM & sp & _ & _ & _ & _ & _ & Esp & _ & _ & Hsz & _); auto; try lia.
  rewrite Esp. norm.
  match goal with
  | |- context [atten_feature ?m ?w ?g ?b ?ag ?ab] =>
      destruct (atten_feature_spec m w g b ag ab hs ws 64 64)
        as (gamma & beta & _ & _ & _ & _ & Ea & Sgamma & Sbeta & _);
        [exact Hms | exact Hhs | exact Hws | exact Hsz | exact Sg | exact Sb
         | lia | lia | rewrite Ea]
  end.
  exists gamma, beta. auto.
Qed.

Lemma get_weight_cat_mismatch mc ms fc fs dc ds hc wc hs ws C D dh dw :
  shape mc = [3; 1; hc; wc] -> 0 < hc -> 0 < wc ->
  shape ms = [3; 1; hs; ws] -> 0 < hs -> 0 < ws ->
  shape fc = [1; C; 64; 64] -> shape fs = [1; C; 64; 64] -> 0 <= C ->
  shape dc = [3; D; dh; dw] -> dh <> 64 ->
  get_weight mc ms fc (Some fs) dc ds = Err RuntimeError.
Proof.
  intros. unfold get_weight.
  erewrite get_weight_similarity_mismatch; eauto.
Qed.

Lemma get_weight_batch_mismatch mc ms fc fs dc ds :
  shape mc = [3; 1; 256; 256] -> shape ms = [3; 1; 256; 256] ->
  shape fc = [2; 256; 64; 64] -> shape fs = [2; 256; 64; 64] ->
  get_weight mc ms fc (Some fs) dc ds = Err RuntimeError.
Proof.
  intros Hmc Hms Hfc Hfs. unfold get_weight, get_weight_similarity.
  cbn [rbind]. unfold size_at. rewrite Hfs. cbn [nth_error rbind].
  rewrite (interpolate_ok mc 3 1 256 256 64 64) by (auto; lia). cbn [rbind].
  erewrite repeat_channels by (reflexivity || lia). cbn [rbind].
  erewrite repeat_batch3 by exact Hfc. cbn [rbind].
  unfold tmul, binop. cbn [shape]. reflexivity.
Qed.

Lemma pnet_in_call_ok sd s :
  image_shaped s -> is_ok (call_r (generator_of sd) "pnet_in" s) = true.
Proof.
  intros H. destruct (pnet_in_seq_ok sd s H) as [y E].
  norm_in E. unfold call_r. norm. rewrite E. reflexivity.
Qed.

Lemma spec_train_ok sd c s mc ms dc ds hc wc hs ws D :
  shape c = [1; 3; 256; 256] -> shape s = [1; 3; 256; 256] ->
  shape mc = [3; 1; hc; wc] -> 0 < hc -> 0 < wc ->
  shape ms = [3; 1; hs; ws] -> 0 < hs -> 0 < ws ->
  shape dc = [3; D; 64; 64] -> shape ds = [3; D; 64; 64] ->
  exists gamma beta y,
    spec_params (generator_of sd) c s mc ms dc ds = Ok (gamma, beta)
    /\ shape gamma = [1; 1; 64; 64] /\ shape beta = [1; 1; 64; 64]
    /\ spec_train (generator_of sd) c s mc ms dc ds = Ok y
    /\ shape y = [1; 3; 256; 256]
    /\ forall idx, (-1 <= tget y idx <= 1)%R.
Proof.
  intros Hc Hs Hmc Hhc Hwc Hms Hhs Hws Hdc Hds.
  destruct (content_head_shape sd c 1 Hc) as (c3 & Ec & Sc).
  destruct (style_head_shape sd s 1 Hs) as (s3 & Es & Ss).
  destruct (makeup_params_ok sd mc ms dc ds c3 s3 hc wc hs ws D)
    as (gamma & beta & Ep & Sg & Sb); auto.
  destruct (fuse_ok c3 gamma beta [1; 256; 64; 64]) as (x & Ex & Sx).
  { rewrite Sc, Sg, Sb. reflexivity. }
  destruct (content_tail_shape sd x Sx) as (y & Ey & Sy & Ry).
  exists gamma, beta, y. unfold spec_params, spec_train.
  rewrite Ec, Es. cbn [rbind]. rewrite Ep. cbn [rbind]. rewrite Ex. cbn [rbind].
  exact (conj eq_refl (conj Sg (conj Sb (conj Ey (conj Sy Ry))))).
Qed.

Lemma spec_mix_ok sd c gamma beta :
  shape c = [1; 3; 256; 256] ->
  shape gamma = [1; 1; 64; 64] -> shape beta = [1; 1; 64; 64] ->
  exists y, spec_mix (generator_of sd) c gamma (Some beta) = Ok y.
Proof.
  intros Hc Sg Sb.
  destruct (content_head_shape sd c 1 Hc) as (c3 & Ec & Sc).
  destruct (fuse_ok c3 gamma beta [1; 256; 64; 64]) as (x & Ex & Sx).
  { rewrite Sc, Sg, Sb. reflexivity. }
  destruct (content_tail_shape sd x Sx) as (y & Ey & _).
  exists y. unfold spec_mix. rewrite Ec. cbn [rbind]. rewrite Ex. cbn [rbind]. exact Ey.
Qed.

Lemma spec_train_cat_mismatch sd c s mc ms dc ds :
  shape c = [1; 3; 256; 256] -> shape s = [1; 3; 256; 256] ->
  shape mc = [3; 1; 256; 256] -> shape ms = [3; 1; 256; 256] ->
  shape dc = [3; 136; 32; 32] ->
  spec_train (generator_of sd) c s mc ms dc ds = Err RuntimeError.
Proof.
  intros Hc Hs Hmc Hms Hdc.
  destruct (content_head_shape sd c 1 Hc) as (c3 & Ec & Sc).
  destruct (style_head_shape sd s 1 Hs) as (s3 & Es & Ss).
  unfold spec_train. rewrite Ec, Es. cbn [rbind]. unfold makeup_params. norm.
  match goal with
  | |- context [GetMatrix_forward ?m ?x] =>
      destruct (GetMatrix_forward_ok m x 1 64 64) as (g & b & E & Sg & Sb);
        [exact Ss | reflexivity | reflexivity | reflexivity | reflexivity
         | reflexivity | reflexivity | reflexivity | lia | lia | rewrite E]
  end.
  norm.
  rewrite (get_weight_cat_mismatch mc ms c3 s3 dc ds 256 256 256 256 256 136 32 32)
    by (auto; lia).
  reflexivity.
Qed.

Lemma spec_train_batch_mismatch sd c s mc ms dc ds :
  shape c = [2; 3; 256; 256] -> shape s = [2; 3; 256; 256] ->
  shape mc = [3; 1; 256; 256] -> shape ms = [3; 1; 256; 256] ->
  spec_train (generator_of sd) c s mc ms dc ds = Err RuntimeError.
Proof.
  intros Hc Hs Hmc Hms.
  destruct (content_head_shape sd c 2 Hc) as (c3 & Ec & Sc).
  destruct (style_head_shape sd s 2 Hs) as (s3 & Es & Ss).
  unfold spec_train. rewrite Ec, Es. cbn [rbind]. unfold makeup_params. norm.
  match goal with
  | |- context [GetMatrix_forward ?m ?x] =>
      destruct (GetMatrix_forward_ok m x 2 64 64) as (g & b & E & Sg & Sb);
        [exact Ss | reflexivity | reflexivity | reflexivity | reflexivity
         | reflexivity | reflexivity | reflexivity | lia | lia | rewrite E]
  end.
  norm.
  rewrite (get_weight_batch_mismatch mc ms c3 s3 dc ds) by auto.
  reflexivity.
Qed.

(** C5: the modulation [c_tnet * (1 + gamma) + beta] is applied at bottleneck
    iteration 3 only.  The modulation is the affine update: for content
    features of shape (N, C, H, W) and maps gamma, beta of shape (1, 1, H, W)
    its result has, at every position of every channel, the value
    content * (1 + gamma) + beta.  A run that returns an image is exactly the
    content branch up to bottleneck block 3, one modulation, and the content
    branch from bottleneck block 4 on; gamma and beta are the supplied ones
    (mix mode) or the ones computed from the two branches by GetMatrix,
    [get_weight] and [atten_feature] (gamma None); and every run logs the
    modulation at most once, at index 3, exactly once when it returns an
    image. *)
Theorem C5_single_injection sd c s mc ms dc ds gamma beta ret y :
  (forall (c3 g b : tensor) (N C H W : Z),
      shape c3 = [N; C; H; W] -> shape g = [1; 1; H; W] -> shape b = [1; 1; H; W] ->
      exists x,
        fuse c3 (Some g) (Some b) = Ok x
        /\ shape x = [N; C; H; W]
        /\ forall n ch yy xx,
            0 <= n < N -> 0 <= ch < C -> 0 <= yy < H -> 0 <= xx < W ->
            tget x [n; ch; yy; xx] =
              (tget c3 [n; ch; yy; xx] * (1 + tget g [0; 0; yy; xx]%Z)
               + tget b [0; 0; yy; xx]%Z)%R)
  /\ (snd (forward_atten (generator_of sd) c s mc ms dc ds (Some gamma) beta ret)
     = Ok (RTensor y)
   <-> is_ok (call_r (generator_of sd) "pnet_in" s) = true
       /\ spec_mix (generator_of sd) c gamma beta = Ok y)
  /\ (snd (forward_atten (generator_of sd) c s mc ms dc ds None beta false)
        = Ok (RTensor y)
      <-> spec_train (generator_of sd) c s mc ms dc ds = Ok y)
  /\ forall gamma' : option tensor,
      (fuse_events (fst (forward_atten (generator_of sd) c s mc ms dc ds gamma' beta ret))
         = []
       \/ fuse_events (fst (forward_atten (generator_of sd) c s mc ms dc ds gamma' beta ret))
          = [3])
      /\ match snd (forward_atten (generator_of sd) c s mc ms dc ds gamma' beta ret) with
         | Ok (RTensor _) =>
             fuse_events
               (fst (forward_atten (generator_of sd) c s mc ms dc ds gamma' beta ret))
             = [3]
         | _ => True
         end.
Proof.
  split; [exact fuse_affine|].
  split; [apply forward_atten_mix_refines|].
  split; [apply forward_atten_train_refines|].
  intros gamma'. apply forward_atten_fuse_events.
Qed.

(** C3, as the claim states it for every invocation with ret=True, fails
    when gamma is supplied: the early return sits inside the [gamma is None]
    branch, so the run goes through the whole pipeline and returns the
    image. *)
Lemma C3_counterexample :
  ~ (forall sd c s mc ms dc ds gamma beta,
        (forall v,
            snd (forward_atten (generator_of sd) c s mc ms dc ds gamma beta true) = Ok v ->
            exists g b, v = RList g b)
        /\ forallb head_event
             (fst (forward_atten (generator_of sd) c s mc ms dc ds gamma beta true))
           = true).
Proof.
  intros H.
  destruct (H sd_zero img256 img256 mask256 mask256 (diff_zero 64) (diff_zero 64)
              (Some g_ref) (Some g_ref)) as [Hv _].
  destruct (spec_mix_ok sd_zero img256 g_ref g_ref) as (y & Ey); try reflexivity.
  destruct (Hv (RTensor y)) as (g & b & E); [|discriminate E].
  apply forward_atten_mix_refines. split; [|exact Ey].
  apply pnet_in_call_ok. exists 1, 256, 256. repeat split; lia.
Qed.

(** C3 (amended): with ret=True and gamma None, a run that returns returns
    exactly the pair [gamma, beta] that GetMatrix, [get_weight] and
    [atten_feature] compute from the two branches; no run executes the
    modulation, content bottleneck blocks 4 to 6, the up-sampling stages or
    the output stage; and in the reference configuration the run does
    return. *)
Theorem C3_early_return sd c s mc ms dc ds beta0 :
  (forall v,
      snd (forward_atten (generator_of sd) c s mc ms dc ds None beta0 true) = Ok v
      <-> exists gamma beta,
            v = RList gamma beta
            /\ spec_params (generator_of sd) c s mc ms dc ds = Ok (gamma, beta))
  /\ forallb head_event
       (fst (forward_atten (generator_of sd) c s mc ms dc ds None beta0 true)) = true
  /\ forall hc wc hs ws D,
      shape c = [1; 3; 256; 256] -> shape s = [1; 3; 256; 256] ->
      shape mc = [3; 1; hc; wc] -> 0 < hc -> 0 < wc ->
      shape ms = [3; 1; hs; ws] -> 0 < hs -> 0 < ws ->
      shape dc = [3; D; 64; 64] -> shape ds = [3; D; 64; 64] ->
      exists gamma beta,
        snd (forward_atten (generator_of sd) c s mc ms dc ds None beta0 true)
          = Ok (RList gamma beta)
        /\ shape gamma = [1; 1; 64; 64] /\ shape beta = [1; 1; 64; 64].
Proof.
  split; [intros v; apply forward_atten_ret_refines|].
  split; [apply forward_atten_ret_events|].
  intros hc wc hs ws D Hc Hs Hmc Hhc Hwc Hms Hhs Hws Hdc Hds.
  destruct (spec_train_ok sd c s mc ms dc ds hc wc hs ws D)
    as (gamma & beta & y & Ep & Sg & Sb & _); auto.
  exists gamma, beta. split; [|auto].
  apply forward_atten_ret_refines. eauto.
Qed.

Lemma C3_early_return_witness :
  exists gamma beta,
    snd (forward_atten (generator_of sd_zero) img256 img256 mask256 mask256
                       (diff_zero 64) (diff_zero 64) None None true)
      = Ok (RList gamma beta)
    /\ shape gamma = [1; 1; 64; 64] /\ shape beta = [1; 1; 64; 64].
Proof.
  apply (proj2 (proj2 (C3_early_return sd_zero img256 img256 mask256 mask256
                         (diff_zero 64) (diff_zero 64) None))
           256 256 256 256 136);
    [reflexivity | reflexivity | reflexivity | lia | lia
     | reflexivity | lia | lia | reflexivity | reflexivity].
Defined.

(** C4, as the claim states it for any (N, 3, H, W), fails: with the
    difference tensors of shape (3, 136, 32, 32) that the specification
    names, [get_weight] raises at the concatenation even in the reference
    configuration; and with 64 x 64 difference tensors a batch of two images
    makes [get_weight] raise when the replicated features meet the
    three-slot mask. *)
Lemma C4_counterexample : ~ forward_contract 32 /\ ~ forward_contract 64.
Proof.
  split; intros H.
  - destruct (H sd_zero img256 img256 mask256 mask256 (diff_zero 32) (diff_zero 32)
                1 256 256) as (y & E & _); try reflexivity; try lia.
    apply forward_atten_train_refines in E.
    rewrite spec_train_cat_mismatch in E by reflexivity. discriminate E.
  - destruct (H sd_zero img256x2 img256x2 mask256 mask256 (diff_zero 64) (diff_zero 64)
                2 256 256) as (y & E & _); try reflexivity; try lia.
    apply forward_atten_train_refines in E.
    rewrite spec_train_batch_mismatch in E by reflexivity. discriminate E.
Qed.

(** C4 (amended): for a content and a style image of shape (1, 3, 256, 256),
    masks of shape (3, 1, h, w) and difference tensors of shape
    (3, D, 64, 64), with gamma None and ret=False, [forward_atten] returns a
    tensor of shape (1, 3, 256, 256) with every element in [-1, 1]. *)
Theorem C4_output_contract sd c s mc ms dc ds beta0 hc wc hs ws D :
  shape c = [1; 3; 256; 256] -> shape s = [1; 3; 256; 256] ->
  shape mc = [3; 1; hc; wc] -> 0 < hc -> 0 < wc ->
  shape ms = [3; 1; hs; ws] -> 0 < hs -> 0 < ws ->
  shape dc = [3; D; 64; 64] -> shape ds = [3; D; 64; 64] ->
  exists y,
    snd (forward_atten (generator_of sd) c s mc ms dc ds None beta0 false)
      = Ok (RTensor y)
    /\ shape y = [1; 3; 256; 256]
    /\ forall idx, (-1 <= tget y idx <= 1)%R.
Proof.
  intros Hc Hs Hmc Hhc Hwc Hms Hhs Hws Hdc Hds.
  destruct (spec_train_ok sd c s mc ms dc ds hc wc hs ws D)
    as (gamma & beta & y & _ & _ & _ & Ey & Sy & Ry); auto.
  exists y. split; [|auto].
  apply forward_atten_train_refines, Ey.
Qed.

Lemma C4_output_contract_witness :
  exists y,
    snd (forward_atten (generator_of sd_zero) img256 img256 mask256 mask256
                       (diff_zero 64) (diff_zero 64) None None false)
      = Ok (RTensor y)
    /\ shape y = [1; 3; 256; 256]
    /\ forall idx, (-1 <= tget y idx <= 1)%R.
Proof.
  apply (C4_output_contract sd_zero img256 img256 mask256 mask256
           (diff_zero 64) (diff_zero 64) None 256 256 256 256 136);
    [reflexivity | reflexivity | reflexivity | lia | lia
     | reflexivity | lia | lia | reflexivity | reflexivity].
Defined.

(* ================================================================= *)
(** * Further properties *)

(** ** Further properties of forward_atten *)

(** Close a goal whose two sides have become syntactically equal. *)
Ltac same := match goal with |- ?a = ?a => reflexivity end.

(** Split on the outcome of the next pending module call only. *)
Ltac step_call :=
  match goal with
  | |- context [module_call ?m ?x] => destruct (module_call m x) as [?|?]
  end.

(** X1: with gamma supplied the flag [ret] has no effect: the run with
    ret=True is the run with ret=False. *)
Theorem forward_atten_ret_ignored_in_mix sd c s mc ms dc ds gamma beta :
  forward_atten (generator_of sd) c s mc ms dc ds (Some gamma) beta true =
  forward_atten (generator_of sd) c s mc ms dc ds (Some gamma) beta false.
Proof.
  repeat (norm; try same; step).
  all: norm; same.
Qed.

(** X2: with gamma None the argument [beta] is never read: it is
    overwritten at iteration 3 before the modulation uses it. *)
Theorem forward_atten_beta_ignored_in_train sd c s mc ms dc ds beta1 beta2 ret :
  forward_atten (generator_of sd) c s mc ms dc ds None beta1 ret =
  forward_atten (generator_of sd) c s mc ms dc ds None beta2 ret.
Proof.
  destruct ret.
  all: repeat (norm; try same; step).
  all: norm; same.
Qed.

Lemma broadcast_dims_err (p1 p2 : list Z) (e : py_error) :
  broadcast_dims p1 p2 = Err e -> e = RuntimeError.
Proof.
  revert p2. induction p1 as [|d1 t1 IH]; intros [|d2 t2]; simpl; intros H;
    try congruence.
  destruct (broadcast_dims t1 t2) as [t|e'] eqn:Et; simpl in H.
  - destruct (d1 =? d2); [discriminate|].
    destruct (d1 =? 1); [discriminate|].
    destruct (d2 =? 1); [discriminate|congruence].
  - injection H as <-. now apply (IH t2).
Qed.

(** The modulation with gamma but no beta: the product is formed first, so
    a gamma that does not broadcast raises [RuntimeError]; otherwise the sum
    with None raises [TypeError]. *)
Lemma fuse_no_beta (c g : tensor) :
  fuse c (Some g) None
  = Err (if is_ok (broadcast_shapes (shape c) (shape g))
         then TypeError else RuntimeError).
Proof.
  unfold fuse, tmul, binop. cbn [scalar_add tmap shape].
  destruct (broadcast_shapes (shape c) (shape g)) as [sh|e] eqn:E; cbn [rbind is_ok].
  - reflexivity.
  - unfold broadcast_shapes in E. now rewrite (broadcast_dims_err _ _ _ E).
Qed.

Ltac norm_keep_broadcast :=
  lazy -[module_call fuse GetMatrix_forward get_weight atten_feature broadcast_shapes].

(** X3: gamma supplied without beta.  The run never returns a value.  When
    the content branch reaches the injection point (and the style image
    passes [pnet_in]) the modulation [c_tnet * (1 + gamma) + beta] raises:
    [RuntimeError] at the product if gamma does not broadcast against the
    content features, and [TypeError] at the sum with None otherwise. *)
Theorem forward_atten_gamma_without_beta sd c s mc ms dc ds gamma ret :
  match content_head (generator_of sd) c, call_r (generator_of sd) "pnet_in" s with
  | Ok c3, Ok _ =>
      snd (forward_atten (generator_of sd) c s mc ms dc ds (Some gamma) None ret)
      = Err (if is_ok (broadcast_shapes (shape c3) (shape gamma))
             then TypeError else RuntimeError)
  | _, _ =>
      is_ok (snd (forward_atten (generator_of sd) c s mc ms dc ds (Some gamma) None ret))
      = false
  end.
Proof.
  unfold content_head, call_r.
  repeat (norm_keep_broadcast; try same; step_call).
  all: norm_keep_broadcast; rewrite ?fuse_no_beta; norm_keep_broadcast; try same.
  all: match goal with
       | |- context [broadcast_shapes ?a ?b] => destruct (broadcast_shapes a b)
       end; norm_keep_broadcast; same.
Qed.

(** X4: every run is a prefix of the one complete sequence of its mode, and
    a run that returns the image performed all of it.  In particular the
    style branch beyond [pnet_in], [get_weight] and [atten_feature] never run
    when gamma is supplied, and no stage runs twice or out of order. *)
Theorem forward_atten_trace_order sd c s mc ms dc ds gamma beta ret :
  let full := match gamma with None => train_trace | Some _ => mix_trace end in
  let run := forward_atten (generator_of sd) c s mc ms dc ds gamma beta ret in
  is_prefix (fst run) full = true
  /\ match snd run with
     | Ok (RTensor _) => fst run = full
     | _ => True
     end.
Proof.
  destruct gamma as [g|], ret.
  all: repeat (norm; try solve [auto]; step).
  all: norm; auto.
Qed.

(** X5: the style image is passed through [pnet_in] in every mode, so a run
    can only return if [pnet_in] accepts the style image, also when gamma is
    supplied and the style features are never used. *)
Theorem forward_atten_needs_style_image sd c s mc ms dc ds gamma beta ret :
  implb (is_ok (snd (forward_atten (generator_of sd) c s mc ms dc ds gamma beta ret)))
        (is_ok (call_r (generator_of sd) "pnet_in" s)) = true.
Proof.
  unfold call_r. destruct gamma as [g|], ret.
  all: repeat (norm; try same; step).
  all: norm; same.
Qed.

(** ** Which exceptions can be raised *)

Lemma raises_bind {A B : Type} (P : py_error -> bool) (m : result A) (f : A -> result B) :
  raises_only P m -> (forall a, raises_only P (f a)) -> raises_only P (rbind m f).
Proof. destruct m as [a|e]; simpl; auto. Qed.

Ltac raises_cases :=
  repeat match goal with
         | |- context [match ?x with _ => _ end] => destruct x
         | |- context [if ?b then _ else _] => destruct b
         end;
  simpl; auto.

Lemma size_at_raises x k : raises_only tensor_error (size_at x k).
Proof. unfold size_at. raises_cases. Qed.

Lemma interpolate_raises x a b : raises_only tensor_error (interpolate x a b).
Proof. unfold interpolate. raises_cases. Qed.

Lemma repeat_raises x reps : raises_only tensor_error (repeat x reps).
Proof. unfold repeat. raises_cases. Qed.

Lemma broadcast_dims_raises s1 s2 : raises_only tensor_error (broadcast_dims s1 s2).
Proof.
  revert s2. induction s1 as [|d1 t1 IH]; intros [|d2 t2]; simpl; auto.
  specialize (IH t2). destruct (broadcast_dims t1 t2); simpl; auto. raises_cases.
Qed.

Lemma binop_raises f x y : raises_only tensor_error (binop f x y).
Proof.
  unfold binop, broadcast_shapes.
  match goal with |- context [broadcast_dims ?a ?b] =>
    pose proof (broadcast_dims_raises a b) as H; destruct (broadcast_dims a b) end;
    simpl; auto.
Qed.

Lemma cat_raises x y d : raises_only tensor_error (cat x y d).
Proof. unfold cat. raises_cases. Qed.

Lemma view_raises x sh : raises_only tensor_error (view x sh).
Proof. unfold view, infer_shape. raises_cases. Qed.

Lemma permute_raises x p : raises_only tensor_error (permute x p).
Proof. unfold permute. raises_cases. Qed.

Lemma bmm_raises x y : raises_only tensor_error (bmm x y).
Proof. unfold bmm. raises_cases. Qed.

Lemma softmax_last_raises x : raises_only tensor_error (softmax_last x).
Proof. unfold softmax_last. raises_cases. Qed.

Lemma index_coords_raises x ind : raises_only tensor_error (index_coords x ind).
Proof. unfold index_coords. raises_cases. Qed.

Lemma sparse_FloatTensor_raises ind v sz :
  raises_only tensor_error (sparse_FloatTensor ind v sz).
Proof. unfold sparse_FloatTensor. raises_cases. Qed.

Lemma select0_raises x i : raises_only tensor_error (select0 x i).
Proof. unfold select0. raises_cases. Qed.

Lemma layer_forward_raises l x : raises_only tensor_error (layer_forward l x).
Proof.
  destruct l; unfold layer_forward, Conv2d_forward, InstanceNorm2d_forward,
    ConvTranspose2d_forward; raises_cases.
Qed.

Lemma Sequential_forward_raises ls x : raises_only tensor_error (Sequential_forward ls x).
Proof.
  revert x. induction ls as [|l ls IH]; intros x; simpl; auto.
  apply raises_bind; [apply layer_forward_raises|auto].
Qed.

Lemma module_call_raises m x : raises_only tensor_error (module_call m x).
Proof.
  destruct m; simpl; auto.
  - apply layer_forward_raises.
  - apply Sequential_forward_raises.
  - unfold ResidualBlock_forward. apply raises_bind;
      [apply Sequential_forward_raises|intros; apply binop_raises].
Qed.

Lemma fuse_raises c g b : raises_only tensor_error (fuse c g b).
Proof.
  unfold fuse. destruct g as [g|]; [|reflexivity].
  apply raises_bind; [apply binop_raises|].
  intros t. destruct b as [b|]; [apply binop_raises|reflexivity].
Qed.

Lemma GetMatrix_forward_raises m x : raises_only tensor_error (GetMatrix_forward m x).
Proof.
  unfold GetMatrix_forward.
  apply raises_bind; [apply (layer_forward_raises (LConv2d _))|intros].
  apply raises_bind; [apply (layer_forward_raises (LConv2d _))|intros]. exact I.
Qed.

Lemma NONLocalBlock2D_forward_raises blk src w :
  raises_only tensor_error (NONLocalBlock2D_forward blk src w).
Proof.
  unfold NONLocalBlock2D_forward.
  repeat (apply raises_bind; [first [apply size_at_raises | apply view_raises
                                     | apply permute_raises | apply bmm_raises]|intros]).
  apply view_raises.
Qed.

Lemma atten_feature_raises m w g b ag ab :
  raises_only tensor_error (atten_feature m w g b ag ab).
Proof.
  unfold atten_feature.
  apply raises_bind; [apply size_at_raises|intros].
  apply raises_bind; [raises_cases; apply interpolate_raises|intros].
  repeat (apply raises_bind;
          [first [apply repeat_raises | apply binop_raises
                  | apply NONLocalBlock2D_forward_raises | apply select0_raises]
          |intros]).
  exact I.
Qed.

Lemma sparsify_raises w : raises_only tensor_error (sparsify w).
Proof.
  unfold sparsify.
  apply raises_bind; [apply softmax_last_raises|intros].
  apply raises_bind; [apply index_coords_raises|intros].
  apply sparse_FloatTensor_raises.
Qed.

Lemma get_weight_similarity_raises mc ms fc fs dc ds :
  raises_only tensor_error (get_weight_similarity mc ms fc (Some fs) dc ds).
Proof.
  unfold get_weight_similarity. cbn [rbind].
  repeat (apply raises_bind;
          [first [apply size_at_raises | apply interpolate_raises | apply repeat_raises
                  | apply binop_raises | apply cat_raises | apply view_raises
                  | apply permute_raises]
          |intros]).
  apply bmm_raises.
Qed.

Lemma get_weight_raises mc ms fc fs dc ds :
  raises_only tensor_error (get_weight mc ms fc (Some fs) dc ds).
Proof.
  unfold get_weight.
  apply raises_bind; [apply get_weight_similarity_raises|intros; apply sparsify_raises].
Qed.

(** X6: [get_weight] raises [AssertionError] exactly when the style feature
    is None: no tensor operation inside it raises that exception. *)
Theorem get_weight_assertion mc ms fc fs dc ds :
  get_weight mc ms fc fs dc ds = Err AssertionError <-> fs = None.
Proof.
  split.
  - intros E. destruct fs as [t|]; [|reflexivity].
    pose proof (get_weight_raises mc ms fc t dc ds) as H. rewrite E in H.
    discriminate H.
  - intros ->. reflexivity.
Qed.

(** Split on the outcome of the next pending call, keeping what is known
    about the exception it may raise. *)
Ltac step_raises :=
  match goal with
  | |- context [module_call ?m ?x] =>
      let H := fresh "H" in
      pose proof (module_call_raises m x) as H; destruct (module_call m x) as [?|?]
  | |- context [fuse ?c ?g ?b] =>
      let H := fresh "H" in
      pose proof (fuse_raises c g b) as H; destruct (fuse c g b) as [?|?]
  | |- context [GetMatrix_forward ?m ?x] =>
      let H := fresh "H" in
      pose proof (GetMatrix_forward_raises m x) as H;
      destruct (GetMatrix_forward m x) as [[[? ?] ?]|?]
  | |- context [get_weight ?a ?b ?c (Some ?d) ?e ?f] =>
      let H := fresh "H" in
      pose proof (get_weight_raises a b c d e f) as H;
      destruct (get_weight a b c (Some d) e f) as [?|?]
  | |- context [atten_feature ?a ?b ?c ?d ?e ?f] =>
      let H := fresh "H" in
      pose proof (atten_feature_raises a b c d e f) as H;
      destruct (atten_feature a b c d e f) as [[? ?]|?]
  end.

Ltac norm_raises :=
  lazy -[module_call fuse GetMatrix_forward get_weight atten_feature tensor_error].

(** X7: no run of [forward_atten] on a constructed generator raises
    [AttributeError], [UnboundLocalError] or [AssertionError]: every
    attribute looked up by a computed name was set by the constructor,
    [cur_pnet_bottleneck] is bound whenever it is read, and [get_weight] is
    only called with style features. *)
Theorem forward_atten_raises sd c s mc ms dc ds gamma beta ret :
  raises_only tensor_error
    (snd (forward_atten (generator_of sd) c s mc ms dc ds gamma beta ret)).
Proof.
  unfold raises_only. destruct gamma as [g|], ret.
  all: repeat (norm_raises; try solve [exact I | assumption]; step_raises).
  all: norm_raises; solve [exact I | assumption].
Qed.

(** ** GetMatrix.forward *)

Lemma sumZ_single (f : Z -> R) : sumZ 1 f = f 0.
Proof. unfold sumZ. simpl. lra. Qed.

Lemma tget_pad_in_range (x : tensor) (idx : list Z) :
  in_range (shape x) idx -> tget_pad x idx = tget x idx.
Proof.
  intros H. unfold tget_pad. apply in_rangeb_spec in H. now rewrite H.
Qed.

(** A 1 x 1 convolution without bias mixes the channels at each position. *)
Lemma conv1x1_value (w : list Z -> R) (cin cout : Z) (x : tensor) (N H W n o y xx : Z) :
  shape x = [N; cin; H; W] ->
  0 <= n < N -> 0 <= y < H -> 0 <= xx < W ->
  conv2d_data (mkConv2d cin cout 1 1 0 w None) x [n; o; y; xx] =
    sumZ cin (fun i => (w [o; i; 0%Z; 0%Z] * tget x [n; i; y; xx])%R).
Proof.
  intros Hs Hn Hy Hx. unfold conv2d_data. cbn [c_in c_k c_stride c_pad c_weight c_bias bias_at].
  rewrite Rplus_0_r. apply sumZ_ext. intros i Hi.
  rewrite sumZ_single, sumZ_single.
  replace (y * 1 + 0 - 0) with y by ring. replace (xx * 1 + 0 - 0) with xx by ring.
  rewrite tget_pad_in_range by (rewrite Hs; apply in_range_4; lia). reflexivity.
Qed.

(** X8: for an input of shape (N, dim_in, H, W) [GetMatrix.forward] returns
    the input itself together with gamma and beta of shape (N, dim_out, H, W);
    each is, position by position, the channel mix of the input with the
    module's own 1 x 1 kernel, so the two maps share no parameter. *)
Theorem GetMatrix_forward_value sd name dim_in dim_out x N H W :
  shape x = [N; dim_in; H; W] -> 1 <= H -> 1 <= W ->
  exists gamma beta,
    GetMatrix_forward (GetMatrix_init sd name dim_in dim_out) x = Ok (x, gamma, beta)
    /\ shape gamma = [N; dim_out; H; W] /\ shape beta = [N; dim_out; H; W]
    /\ forall n o y xx,
        0 <= n < N -> 0 <= y < H -> 0 <= xx < W ->
        tget gamma [n; o; y; xx] =
          sumZ dim_in (fun i => (sd (name @@ ".get_gamma.weight") [o; i; 0%Z; 0%Z]
                                 * tget x [n; i; y; xx])%R)
        /\ tget beta [n; o; y; xx] =
          sumZ dim_in (fun i => (sd (name @@ ".get_beta.weight") [o; i; 0%Z; 0%Z]
                                 * tget x [n; i; y; xx])%R).
Proof.
  intros Hs HH HW. unfold GetMatrix_forward, GetMatrix_init. cbn [get_gamma get_beta].
  rewrite !(Conv2d_forward_ok _ x N H W) by (simpl; auto; lia). cbn [rbind].
  do 2 eexists. split; [reflexivity|].
  cbn [shape nn_Conv2d c_out c_k c_stride c_pad]. unfold conv_out.
  rewrite !Z.div_1_r.
  replace (H + 2 * 0 - 1 + 1) with H by ring. replace (W + 2 * 0 - 1 + 1) with W by ring.
  split; [reflexivity|]. split; [reflexivity|].
  intros n o y xx Hn Hy Hx. cbn [tget]. unfold nn_Conv2d.
  rewrite !(conv1x1_value _ dim_in dim_out x N H W) by assumption.
  rewrite !append_assoc. split; reflexivity.
Qed.

Lemma GetMatrix_forward_value_witness :
  exists gamma beta,
    GetMatrix_forward (GetMatrix_init sd_zero "simple_spade" 1 1) x_small
      = Ok (x_small, gamma, beta)
    /\ shape gamma = [1; 1; 2; 2] /\ shape beta = [1; 1; 2; 2]
    /\ forall n o y xx,
        0 <= n < 1 -> 0 <= y < 2 -> 0 <= xx < 2 ->
        tget gamma [n; o; y; xx] =
          sumZ 1 (fun i => (sd_zero ("simple_spade" @@ ".get_gamma.weight") [o; i; 0%Z; 0%Z]
                            * tget x_small [n; i; y; xx])%R)
        /\ tget beta [n; o; y; xx] =
          sumZ 1 (fun i => (sd_zero ("simple_spade" @@ ".get_beta.weight") [o; i; 0%Z; 0%Z]
                            * tget x_small [n; i; y; xx])%R).
Proof.
  apply (GetMatrix_forward_value sd_zero "simple_spade" 1 1 x_small 1 2 2);
    [reflexivity | lia | lia].
Defined.

(** X9: [GetMatrix.forward] raises on an input whose channel count is not
    the module's [dim_in]. *)
Theorem GetMatrix_forward_channel_mismatch sd name dim_in dim_out x N C H W :
  shape x = [N; C; H; W] -> C <> dim_in ->
  GetMatrix_forward (GetMatrix_init sd name dim_in dim_out) x = Err RuntimeError.
Proof.
  intros Hs Hne. unfold GetMatrix_forward, GetMatrix_init, Conv2d_forward.
  cbn [get_gamma nn_Conv2d c_in]. rewrite Hs.
  replace (C =? dim_in) with false by lia. reflexivity.
Qed.

Lemma GetMatrix_forward_channel_mismatch_witness :
  GetMatrix_forward (GetMatrix_init sd_zero "simple_spade" 256 1) x_small
    = Err RuntimeError.
Proof.
  apply (GetMatrix_forward_channel_mismatch sd_zero "simple_spade" 256 1 x_small 1 1 2 2);
    [reflexivity | lia].
Defined.

(** ** ResidualBlock with dim_in <> dim_out *)

Lemma broadcast_channels (N din dout H W : Z) :
  broadcast_shapes [N; din; H; W] [N; dout; H; W] =
    if din =? dout then Ok [N; din; H; W]
    else if din =? 1 then Ok [N; dout; H; W]
    else if dout =? 1 then Ok [N; din; H; W]
    else Err RuntimeError.
Proof.
  unfold broadcast_shapes. cbn [length Nat.max pad_left Nat.sub List.repeat app].
  cbn [broadcast_dims rbind].
  rewrite (Z.eqb_refl W), (Z.eqb_refl H), (Z.eqb_refl N). cbn [rbind].
  destruct (din =? dout); [reflexivity|].
  destruct (din =? 1); [reflexivity|].
  destruct (dout =? 1); reflexivity.
Qed.

Lemma residual_main_shape sd name din dout a x N H W :
  shape x = [N; din; H; W] -> 1 <= H -> 1 <= W ->
  exists m,
    Sequential_forward
      [LConv2d (nn_Conv2d sd (name @@ ".main.0") din dout 3 1 1 false);
       LInstanceNorm2d (nn_InstanceNorm2d sd (name @@ ".main.1") dout a);
       LReLU;
       LConv2d (nn_Conv2d sd (name @@ ".main.3") dout dout 3 1 1 false);
       LInstanceNorm2d (nn_InstanceNorm2d sd (name @@ ".main.4") dout a)] x = Ok m
    /\ shape m = [N; dout; H; W].
Proof.
  intros Hs HH HW.
  unfold Sequential_forward, layer_forward.
  rewrite (Conv2d_forward_ok _ x N H W) by (simpl; auto; lia).
  cbn [rbind nn_Conv2d c_in c_k c_pad c_out c_stride]. rewrite !conv_out_same.
  erewrite InstanceNorm2d_forward_ok by (simpl; auto).
  cbn [rbind].
  erewrite (Conv2d_forward_ok _ _ N H W) by (simpl; auto; lia).
  cbn [rbind nn_Conv2d c_in c_k c_pad c_out c_stride]. rewrite !conv_out_same.
  erewrite InstanceNorm2d_forward_ok by (simpl; auto).
  cbn [rbind]. eexists. split; reflexivity.
Qed.

(** X10: a block built with dim_in <> dim_out.  On an input of shape
    (N, dim_in, H, W) the inner pipeline yields dim_out channels and the
    residual addition follows the broadcasting rule: it raises when both
    channel counts exceed one, and otherwise silently broadcasts along the
    channel axis to the larger count. *)
Theorem ResidualBlock_forward_dims sd name din dout mode a x N H W :
  ResidualBlock_use_affine mode = Some a ->
  shape x = [N; din; H; W] -> 1 <= H -> 1 <= W ->
  1 <= din -> 1 <= dout -> din <> dout ->
  exists tr blk,
    ResidualBlock_init sd name din dout mode = (tr, Ok blk)
    /\ (din <> 1 -> dout <> 1 -> ResidualBlock_forward blk x = Err RuntimeError)
    /\ (din = 1 \/ dout = 1 ->
        exists y, ResidualBlock_forward blk x = Ok y
                  /\ shape y = [N; Z.max din dout; H; W]).
Proof.
  intros Ha Hs HH HW Hdin Hdout Hne.
  do 2 eexists. split; [apply ResidualBlock_init_valid, Ha|].
  destruct (residual_main_shape sd name din dout a x N H W Hs HH HW) as (m & Em & Sm).
  unfold ResidualBlock_forward. cbn [rb_main]. rewrite Em. cbn [rbind].
  pose proof (binop_shape Rplus x m) as Hb. rewrite Hs, Sm, broadcast_channels in Hb.
  replace (din =? dout) with false in Hb by lia.
  unfold tadd. split.
  - intros H1 H2. replace (din =? 1) with false in Hb by lia.
    replace (dout =? 1) with false in Hb by lia.
    destruct (binop Rplus x m); simpl in Hb; congruence.
  - intros Hone.
    assert (Hsh : rmap shape (binop Rplus x m) = Ok [N; Z.max din dout; H; W]).
    { rewrite Hb. destruct (Z.eqb_spec din 1) as [E1|E1].
      - rewrite E1. now rewrite Z.max_r by lia.
      - assert (dout = 1) as E2 by (destruct Hone; congruence).
        rewrite E2, Z.eqb_refl. now rewrite Z.max_l by lia. }
    destruct (binop Rplus x m) as [y|e]; simpl in Hsh; [|discriminate].
    exists y. split; [reflexivity|congruence].
Qed.

Lemma ResidualBlock_forward_dims_witness :
  exists tr blk,
    ResidualBlock_init sd_zero "blk" 1 4 (Some "t") = (tr, Ok blk)
    /\ (1 <> 1 -> 4 <> 1 -> ResidualBlock_forward blk x_small = Err RuntimeError)
    /\ (1 = 1 \/ 4 = 1 ->
        exists y, ResidualBlock_forward blk x_small = Ok y
                  /\ shape y = [1; Z.max 1 4; 2; 2]).
Proof.
  apply (ResidualBlock_forward_dims sd_zero "blk" 1 4 (Some "t") false x_small 1 2 2);
    [reflexivity | reflexivity | lia | lia | lia | lia | lia].
Defined.

(** ** The similarity matrix of get_weight, entry by entry *)

Lemma range_app (a b : Z) :
  0 <= a -> 0 <= b -> range (a + b) = range a ++ map (fun l => a + l) (range b).
Proof.
  intros Ha Hb. unfold range.
  replace (Z.to_nat (a + b)) with (Z.to_nat a + Z.to_nat b)%nat by lia.
  rewrite seq_app, map_app. f_equal. simpl.
  rewrite map_map.
  rewrite <- (Nat.add_0_r (Z.to_nat a)) at 1.
  generalize 0%nat as s. generalize (Z.to_nat b) as n.
  induction n as [|n IH]; intros s; simpl; [reflexivity|].
  f_equal; [lia|]. rewrite <- IH. f_equal. f_equal. lia.
Qed.

Lemma sumZ_split (a b : Z) (f : Z -> R) :
  0 <= a -> 0 <= b ->
  sumZ (a + b) f = (sumZ a f + sumZ b (fun l => f (a + l)%Z))%R.
Proof.
  intros Ha Hb. unfold sumZ. rewrite range_app by assumption.
  rewrite map_app, Rsum_app, map_map. reflexivity.
Qed.

Lemma unravel_ravel_flat (B M H W b l k : Z) :
  0 <= b < B -> 0 <= l < M -> 0 <= k < H * W -> 0 < W ->
  unravel [B; M; H; W] (ravel [B; M; H * W] [b; l; k]) = [b; l; k / W; k mod W].
Proof.
  intros Hb Hl Hk HW. rewrite ravel_3, unravel_4.
  assert (Hq : 0 <= k / W < H).
  { split; [apply Z.div_pos; lia|]. apply Z.div_lt_upper_bound; lia. }
  f_equal; [|f_equal; [|f_equal; [|f_equal]]].
  - replace ((b * M + l) * (H * W) + k) with (b * (M * (H * W)) + (l * (H * W) + k))
      by ring.
    destruct (div_mod_pos b (l * (H * W) + k) (M * (H * W))) as [Hd _]; [nia|].
    rewrite Hd. apply Z.mod_small. lia.
  - destruct (div_mod_pos (b * M + l) k (H * W) Hk) as [Hd _]. rewrite Hd.
    replace (b * M + l) with (l + b * M) by ring.
    rewrite Z.mod_add by lia. apply Z.mod_small. lia.
  - replace ((b * M + l) * (H * W) + k) with (k + ((b * M + l) * H) * W) by ring.
    rewrite Z.div_add by lia.
    rewrite Z.mod_add by lia. apply Z.mod_small. lia.
  - replace ((b * M + l) * (H * W) + k) with (k + ((b * M + l) * H) * W) by ring.
    now rewrite Z.mod_add by lia.
Qed.

Lemma region_features_value (mask fea : tensor) (h w C : Z) :
  shape mask = [3; 1; h; w] -> 0 < h -> 0 < w ->
  shape fea = [1; C; 64; 64] -> 0 <= C ->
  exists m mask_re fea_re fm,
    interpolate mask 64 64 = Ok m
    /\ repeat m [1; C; 1; 1] = Ok mask_re
    /\ repeat fea [3; 1; 1; 1] = Ok fea_re
    /\ tmul fea_re mask_re = Ok fm
    /\ shape fm = [3; C; 64; 64]
    /\ forall b c k,
        0 <= b < 3 -> 0 <= c < C -> 0 <= k < HW ->
        tget fm [b; c; k / 64; k mod 64] = region_feature fea mask h w b c k.
Proof.
  intros Hm Hh Hw Hf HC.
  do 4 eexists.
  split; [apply (interpolate_ok mask 3 1 h w 64 64); auto; lia|].
  split; [apply repeat_channels; [reflexivity|exact HC]|].
  split; [apply repeat_batch3, Hf|].
  split; [apply binop_same; cbn [shape]; f_equal; f_equal; lia|].
  split; [reflexivity|].
  intros b c k Hb Hc Hk. unfold HW in Hk.
  assert (Hq : 0 <= k / 64 < 64).
  { split; [apply Z.div_pos; lia|]. apply Z.div_lt_upper_bound; lia. }
  assert (Hr : 0 <= k mod 64 < 64) by (apply Z.mod_pos_bound; lia).
  cbn [tget shape]. change (3 * 1) with 3. rewrite Z.mul_1_r.
  rewrite !(bidx_in_range [3; C; 64; 64]) by (apply in_range_4; lia).
  unfold zipWith. cbn [combine map fst snd].
  rewrite !Z.mod_1_r, (Z.mod_small b 3), (Z.mod_small c C),
    (Z.mod_small (k / 64) 64), (Z.mod_small (k mod 64) 64) by lia.
  reflexivity.
Qed.

Lemma get_weight_similarity_entries mask_c mask_s fea_c fea_s diff_c diff_s
    hc wc hs ws C D :
  shape mask_c = [3; 1; hc; wc] -> 0 < hc -> 0 < wc ->
  shape mask_s = [3; 1; hs; ws] -> 0 < hs -> 0 < ws ->
  shape fea_c = [1; C; 64; 64] -> shape fea_s = [1; C; 64; 64] -> 0 <= C ->
  shape diff_c = [3; D; 64; 64] -> shape diff_s = [3; D; 64; 64] -> 0 <= D ->
  exists Wt,
    get_weight_similarity mask_c mask_s fea_c (Some fea_s) diff_c diff_s = Ok Wt
    /\ shape Wt = [3; HW; HW]
    /\ forall b i j,
        0 <= b < 3 -> 0 <= i < HW -> 0 <= j < HW ->
        tget Wt [b; i; j] =
          similarity_value mask_c mask_s fea_c fea_s diff_c diff_s hc wc hs ws C D b i j.
Proof.
  intros Hmc Hhc Hwc Hms Hhs Hws Hfc Hfs HC Hdc Hds HD.
  destruct (region_features_value mask_c fea_c hc wc C)
    as (mc & mcre & fcre & fc & E1 & E2 & E3 & E4 & Sfc & Vfc); auto.
  destruct (region_features_value mask_s fea_s hs ws C)
    as (ms & msre & fsre & fs & F1 & F2 & F3 & F4 & Sfs & Vfs); auto.
  unfold get_weight_similarity. cbn [rbind]. unfold size_at. rewrite Hfs.
  cbn [nth_error rbind].
  rewrite E1. cbn [rbind]. rewrite E2. cbn [rbind]. rewrite E3. cbn [rbind].
  rewrite E4. cbn [rbind].
  rewrite F1. cbn [rbind]. rewrite F2. cbn [rbind]. rewrite F3. cbn [rbind].
  rewrite F4. cbn [rbind].
  rewrite (cat_channels _ diff_c 3 C D 64 64) by assumption. cbn [rbind].
  rewrite (cat_channels _ diff_s 3 C D 64 64) by assumption. cbn [rbind].
  rewrite (view_ok _ _ [3; C + D; HW])
    by (apply infer_shape_mid; [lia | apply HW_pos
                                | unfold numel, HW; cbn [shape fold_right]; ring]).
  cbn [rbind]. erewrite permute_021 by reflexivity. cbn [rbind].
  rewrite (view_ok _ _ [3; C + D; HW])
    by (apply infer_shape_mid; [lia | apply HW_pos
                                | unfold numel, HW; cbn [shape fold_right]; ring]).
  cbn [rbind]. erewrite bmm_ok by reflexivity.
  eexists. split; [reflexivity|]. split; [reflexivity|].
  intros b i j Hb Hi Hj. cbn [tget shape nthZ nth].
  unfold similarity_value. rewrite (sumZ_split C D) by assumption.
  f_equal.
  - apply sumZ_ext. intros l Hl.
    rewrite !(unravel_ravel_flat 3 (C + D) 64 64) by (unfold HW in *; lia).
    cbn [nthZ nth]. replace (l <? C) with true by lia.
    cbn [mul_scalar tmap tget]. rewrite Vfc, Vfs by assumption. reflexivity.
  - apply sumZ_ext. intros l Hl.
    rewrite !(unravel_ravel_flat 3 (C + D) 64 64) by (unfold HW in *; lia).
    cbn [nthZ nth]. replace (C + l <? C) with false by lia.
    cbn [set_nth]. replace (C + l - C) with l by ring. reflexivity.
Qed.

(** X11: the raw similarity that [get_weight] computes, entry by entry.  The
    masks gate only the appearance term; the difference term is added
    unmasked. *)
Theorem get_weight_similarity_value mask_c mask_s fea_c fea_s diff_c diff_s
    hc wc hs ws C D :
  shape mask_c = [3; 1; hc; wc] -> 0 < hc -> 0 < wc ->
  shape mask_s = [3; 1; hs; ws] -> 0 < hs -> 0 < ws ->
  shape fea_c = [1; C; 64; 64] -> shape fea_s = [1; C; 64; 64] -> 0 <= C ->
  shape diff_c = [3; D; 64; 64] -> shape diff_s = [3; D; 64; 64] -> 0 <= D ->
  exists Wt,
    get_weight_similarity mask_c mask_s fea_c (Some fea_s) diff_c diff_s = Ok Wt
    /\ shape Wt = [3; HW; HW]
    /\ forall b i j,
        0 <= b < 3 -> 0 <= i < HW -> 0 <= j < HW ->
        tget Wt [b; i; j] =
          similarity_value mask_c mask_s fea_c fea_s diff_c diff_s hc wc hs ws C D b i j.
Proof. exact (get_weight_similarity_entries mask_c mask_s fea_c fea_s diff_c diff_s
                 hc wc hs ws C D). Qed.

(** ** Consequences for the sparse correspondence matrix *)

(** X12: the matrix returned by [get_weight] is sub-stochastic: there are as
    many stored values as coordinates, every stored value lies in [0, 1], and
    in the densified matrix every entry lies in [0, 1] and every row sums to
    a number in [0, 1]. *)
Theorem get_weight_substochastic mask_c mask_s fea_c fea_s diff_c diff_s
    hc wc hs ws C D :
  shape mask_c = [3; 1; hc; wc] -> 0 < hc -> 0 < wc ->
  shape mask_s = [3; 1; hs; ws] -> 0 < hs -> 0 < ws ->
  shape fea_c = [1; C; 64; 64] -> shape fea_s = [1; C; 64; 64] -> 0 <= C ->
  shape diff_c = [3; D; 64; 64] -> shape diff_s = [3; D; 64; 64] ->
  exists sp,
    get_weight mask_c mask_s fea_c (Some fea_s) diff_c diff_s = Ok sp
    /\ length (sp_values sp) = length (sp_indices sp)
    /\ Forall (fun v => (0 <= v <= 1)%R) (sp_values sp)
    /\ forall b i,
        0 <= b < 3 -> 0 <= i < HW ->
        (0 <= row_sum sp b i <= 1)%R
        /\ forall j, 0 <= j < HW -> (0 <= tget (to_dense sp) [b; i; j] <= 1)%R.
Proof.
  intros Hmc Hhc Hwc Hms Hhs Hws Hfc Hfs HC Hdc Hds.
  destruct (get_weight_spec mask_c mask_s fea_c fea_s diff_c diff_s hc wc hs ws C D)
    as (Wt & SM & sp & _ & SW & _ & _ & VSM & Esp & Hi & Hv & _ & Hd); auto.
  exists sp. split; [exact Esp|].
  split; [now rewrite Hv, Hi, length_map|].
  assert (Hent : forall b i j, 0 <= b < 3 -> 0 <= i < HW -> 0 <= j < HW ->
                               (0 <= tget (to_dense sp) [b; i; j] <= 1)%R).
  { intros b i j Hb Hi' Hj. rewrite Hd by (apply in_range_3; lia). rewrite VSM.
    pose proof (softmax_row_nonneg Wt b i j). pose proof (softmax_row_le_1 Wt b i j Hj).
    destruct (Rnonzero (tget Wt [b; i; j])); lra. }
  split.
  - rewrite Hv. apply Forall_forall. intros v Hin.
    apply in_map_iff in Hin as (idx & <- & Hin).
    apply In_nonzero in Hin as [Hr _]. rewrite SW in Hr.
    inversion Hr as [|? b ? l1 Hb H1]; subst.
    inversion H1 as [|? i ? l2 Hi' H2]; subst.
    inversion H2 as [|? j ? l3 Hj H3]; subst. inversion H3; subst.
    rewrite VSM. split; [apply softmax_row_nonneg|now apply softmax_row_le_1].
  - intros b i Hb Hi'. split; [|intros j Hj; now apply Hent].
    destruct (row_sum_spec Wt SM sp b i VSM Hd Hb Hi') as (Htot & Hdrop & Hnn & _).
    lra.
Qed.

Lemma get_weight_substochastic_witness :
  exists sp,
    get_weight mask256 mask256 fea_zero (Some fea_zero) (diff_zero 64) (diff_zero 64)
      = Ok sp
    /\ length (sp_values sp) = length (sp_indices sp)
    /\ Forall (fun v => (0 <= v <= 1)%R) (sp_values sp)
    /\ forall b i,
        0 <= b < 3 -> 0 <= i < HW ->
        (0 <= row_sum sp b i <= 1)%R
        /\ forall j, 0 <= j < HW -> (0 <= tget (to_dense sp) [b; i; j] <= 1)%R.
Proof.
  apply (get_weight_substochastic mask256 mask256 fea_zero fea_zero
           (diff_zero 64) (diff_zero 64) 256 256 256 256 256 136);
    [reflexivity | lia | lia | reflexivity | lia | lia
     | reflexivity | reflexivity | lia | reflexivity | reflexivity].
Defined.

(** X13: masking.  A content position that the resized content mask of a
    region switches off, and at which the content difference features
    vanish, has zero similarity with every style position: its row of that
    region holds no entry at all. *)
Theorem get_weight_masked_row_empty mask_c mask_s fea_c fea_s diff_c diff_s
    hc wc hs ws C D b i :
  shape mask_c = [3; 1; hc; wc] -> 0 < hc -> 0 < wc ->
  shape mask_s = [3; 1; hs; ws] -> 0 < hs -> 0 < ws ->
  shape fea_c = [1; C; 64; 64] -> shape fea_s = [1; C; 64; 64] -> 0 <= C ->
  shape diff_c = [3; D; 64; 64] -> shape diff_s = [3; D; 64; 64] -> 0 <= D ->
  0 <= b < 3 -> 0 <= i < HW ->
  resized_mask mask_c hc wc b i = 0%R ->
  (forall d, 0 <= d < D -> tget diff_c [b; d; i / 64; i mod 64] = 0%R) ->
  exists sp,
    get_weight mask_c mask_s fea_c (Some fea_s) diff_c diff_s = Ok sp
    /\ (forall j, ~ In [b; i; j] (sp_indices sp))
    /\ row_sum sp b i = 0%R.
Proof.
  intros Hmc Hhc Hwc Hms Hhs Hws Hfc Hfs HC Hdc Hds HD Hb Hi Hmask Hdiff.
  destruct (get_weight_similarity_entries mask_c mask_s fea_c fea_s diff_c diff_s
              hc wc hs ws C D) as (Wt & EW & SW & VW); auto.
  destruct (get_weight_spec mask_c mask_s fea_c fea_s diff_c diff_s hc wc hs ws C D)
    as (Wt' & SM & sp & EW' & _ & _ & _ & _ & Esp & Hind & _ & _ & Hd); auto.
  rewrite EW in EW'. injection EW' as <-.
  assert (Hz : forall j, 0 <= j < HW -> tget Wt [b; i; j] = 0%R).
  { intros j Hj. rewrite VW by assumption. unfold similarity_value.
    rewrite !sumZ_zero; [lra | |].
    - intros d Hd'. rewrite Hdiff by assumption. ring.
    - intros c Hc. unfold region_feature. rewrite Hmask. ring. }
  exists sp. split; [exact Esp|]. split.
  - intros j Hin. rewrite Hind in Hin. apply In_nonzero in Hin as [Hr Hnz].
    rewrite SW in Hr. inversion Hr as [|? ? ? ? _ H1]; subst.
    inversion H1 as [|? ? ? ? _ H2]; subst. inversion H2 as [|? ? ? ? Hj _]; subst.
    apply Hnz, Hz, Hj.
  - unfold row_sum. apply sumZ_zero. intros j Hj.
    rewrite Hd by (apply in_range_3; lia). rewrite Hz by assumption.
    replace (Rnonzero 0) with false; [reflexivity|].
    symmetry. now apply Rnonzero_false.
Qed.

Lemma get_weight_masked_row_empty_witness :
  exists sp,
    get_weight (zeros [3; 1; 256; 256]) mask256 fea_zero (Some fea_zero)
               (diff_zero 64) (diff_zero 64) = Ok sp
    /\ (forall j, ~ In [0; 0; j] (sp_indices sp))
    /\ row_sum sp 0 0 = 0%R.
Proof.
  apply (get_weight_masked_row_empty (zeros [3; 1; 256; 256]) mask256 fea_zero fea_zero
           (diff_zero 64) (diff_zero 64) 256 256 256 256 256 136 0 0);
    [reflexivity | lia | lia | reflexivity | lia | lia
     | reflexivity | reflexivity | lia | reflexivity | reflexivity | lia
     | lia | unfold HW; lia | reflexivity | reflexivity].
Defined.

Lemma get_weight_similarity_value_witness :
  exists Wt,
    get_weight_similarity mask256 mask256 fea_zero (Some fea_zero)
                          (diff_zero 64) (diff_zero 64) = Ok Wt
    /\ shape Wt = [3; HW; HW]
    /\ forall b i j,
        0 <= b < 3 -> 0 <= i < HW -> 0 <= j < HW ->
        tget Wt [b; i; j] =
          similarity_value mask256 mask256 fea_zero fea_zero (diff_zero 64) (diff_zero 64)
                           256 256 256 256 256 136 b i j.
Proof.
  apply (get_weight_similarity_value mask256 mask256 fea_zero fea_zero
           (diff_zero 64) (diff_zero 64) 256 256 256 256 256 136);
    [reflexivity | lia | lia | reflexivity | lia | lia
     | reflexivity | reflexivity | lia | reflexivity | reflexivity | lia].
Defined.

(** ** Further properties of NONLocalBlock2D.forward *)

Lemma flat_position (H W l : Z) :
  0 < W -> 0 <= l < H * W -> 0 <= l / W < H /\ 0 <= l mod W < W.
Proof.
  intros HW Hl. split; [split|].
  - apply Z.div_pos; lia.
  - apply Z.div_lt_upper_bound; lia.
  - apply Z.mod_pos_bound; lia.
Qed.

(** X14: the block is linear in its source: on a source that is, entry by
    entry, [a * s1 + s2], it returns [a] times its output on [s1] plus its
    output on [s2]. *)
Theorem NONLocalBlock2D_forward_linear blk s1 s2 s3 weight B H W (a : R) :
  shape s1 = [B; 1; H; W] -> shape s2 = [B; 1; H; W] -> shape s3 = [B; 1; H; W] ->
  sp_size weight = [B; H * W; H * W] ->
  0 < B -> 0 < H -> 0 < W ->
  (forall b y x, 0 <= b < B -> 0 <= y < H -> 0 <= x < W ->
     tget s3 [b; 0; y; x] = (a * tget s1 [b; 0%Z; y; x] + tget s2 [b; 0%Z; y; x])%R) ->
  exists y1 y2 y3,
    NONLocalBlock2D_forward blk s1 weight = Ok y1
    /\ NONLocalBlock2D_forward blk s2 weight = Ok y2
    /\ NONLocalBlock2D_forward blk s3 weight = Ok y3
    /\ forall b y x, 0 <= b < B -> 0 <= y < H -> 0 <= x < W ->
         tget y3 [b; 0; y; x] = (a * tget y1 [b; 0%Z; y; x] + tget y2 [b; 0%Z; y; x])%R.
Proof.
  intros S1 S2 S3 Hw HB HH HW Hlin.
  destruct (NONLocalBlock2D_forward_spec blk s1 weight B H W) as (y1 & E1 & _ & V1); auto.
  destruct (NONLocalBlock2D_forward_spec blk s2 weight B H W) as (y2 & E2 & _ & V2); auto.
  destruct (NONLocalBlock2D_forward_spec blk s3 weight B H W) as (y3 & E3 & _ & V3); auto.
  exists y1, y2, y3. repeat (split; [assumption|]).
  intros b y x Hb Hy Hx. rewrite V1, V2, V3 by assumption.
  rewrite (Rmult_comm a), <- sumZ_scal, <- sumZ_plus. apply sumZ_ext. intros l Hl.
  destruct (flat_position H W l HW Hl) as [Hq Hr].
  rewrite Hlin by assumption. ring.
Qed.

Lemma NONLocalBlock2D_forward_linear_witness :
  exists y1 y2 y3,
    NONLocalBlock2D_forward (NONLocalBlock2D_init sd_zero "g") x_small w_empty = Ok y1
    /\ NONLocalBlock2D_forward (NONLocalBlock2D_init sd_zero "g") x_small w_empty = Ok y2
    /\ NONLocalBlock2D_forward (NONLocalBlock2D_init sd_zero "g") x_small w_empty = Ok y3
    /\ forall b y x, 0 <= b < 1 -> 0 <= y < 2 -> 0 <= x < 2 ->
         tget y3 [b; 0; y; x] = (2 * tget y1 [b; 0%Z; y; x] + tget y2 [b; 0%Z; y; x])%R.
Proof.
  apply (NONLocalBlock2D_forward_linear (NONLocalBlock2D_init sd_zero "g")
           x_small x_small x_small w_empty 1 2 2 2%R);
    [reflexivity | reflexivity | reflexivity | reflexivity | lia | lia | lia |].
  intros b y x _ _ _. unfold x_small, zeros. simpl. lra.
Defined.

(** X15: on a source that is constant over a batch item, the output at a
    position is that constant times the sum of the position's row of the
    densified weight; an empty row gives 0, a row summing to 1 gives the
    constant back. *)
Theorem NONLocalBlock2D_forward_constant blk source weight B H W b (v : R) :
  shape source = [B; 1; H; W] ->
  sp_size weight = [B; H * W; H * W] ->
  0 < B -> 0 < H -> 0 < W -> 0 <= b < B ->
  (forall y x, 0 <= y < H -> 0 <= x < W -> tget source [b; 0; y; x] = v) ->
  exists out,
    NONLocalBlock2D_forward blk source weight = Ok out
    /\ forall y x, 0 <= y < H -> 0 <= x < W ->
         tget out [b; 0; y; x] =
           (sumZ (H * W)%Z (fun l => tget (to_dense weight) [b; (y * W + x)%Z; l]) * v)%R.
Proof.
  intros Hs Hw HB HH HW Hb Hc.
  destruct (NONLocalBlock2D_forward_spec blk source weight B H W)
    as (out & E & _ & V); auto.
  exists out. split; [exact E|].
  intros y x Hy Hx. rewrite V by assumption.
  rewrite <- sumZ_scal. apply sumZ_ext. intros l Hl.
  destruct (flat_position H W l HW Hl) as [Hq Hr].
  now rewrite Hc by assumption.
Qed.

Lemma NONLocalBlock2D_forward_constant_witness :
  exists out,
    NONLocalBlock2D_forward (NONLocalBlock2D_init sd_zero "g") x_small w_empty = Ok out
    /\ forall y x, 0 <= y < 2 -> 0 <= x < 2 ->
         tget out [0; 0; y; x] =
           (sumZ (2 * 2)%Z (fun l => tget (to_dense w_empty) [0%Z; (y * 2 + x)%Z; l]) * 0)%R.
Proof.
  apply (NONLocalBlock2D_forward_constant (NONLocalBlock2D_init sd_zero "g")
           x_small w_empty 1 2 2 0 0%R);
    [reflexivity | reflexivity | lia | lia | lia | lia |].
  intros y x _ _. reflexivity.
Defined.

(** X16: a source with more than one channel makes the block raise: it is
    flattened as one channel of C*H*W positions, which the (B, H*W, H*W)
    weight cannot multiply. *)
Theorem NONLocalBlock2D_forward_multichannel blk source weight B C H W :
  shape source = [B; C; H; W] ->
  sp_size weight = [B; H * W; H * W] ->
  0 < B -> 2 <= C -> 0 < H -> 0 < W ->
  NONLocalBlock2D_forward blk source weight = Err RuntimeError.
Proof. apply NONLocalBlock2D_forward_channels. Qed.

Lemma NONLocalBlock2D_forward_multichannel_witness :
  NONLocalBlock2D_forward (NONLocalBlock2D_init sd_zero "g") g_two3 w_empty3
    = Err RuntimeError.
Proof.
  apply (NONLocalBlock2D_forward_multichannel (NONLocalBlock2D_init sd_zero "g")
           g_two3 w_empty3 3 2 1 1);
    [reflexivity | reflexivity | lia | lia | lia | lia].
Defined.

(** ** atten_feature where the weight has no entries *)

(** X17: at a content position whose row of the densified weight is zero in
    each of the three regions, [atten_feature] yields gamma = 0 and beta = 0,
    so the modulation [c * (1 + gamma) + beta] leaves the content features
    at that position as they are. *)
Theorem atten_feature_empty_rows mask_s weight gamma_s beta_s ag ab hm wm H W y x :
  shape mask_s = [3; 1; hm; wm] -> 0 < hm -> 0 < wm ->
  sp_size weight = [3; H * W; H * W] ->
  shape gamma_s = [1; 1; H; W] -> shape beta_s = [1; 1; H; W] ->
  0 < H -> 0 < W -> 0 <= y < H -> 0 <= x < W ->
  (forall r l, 0 <= r < 3 -> 0 <= l < H * W ->
     tget (to_dense weight) [r; y * W + x; l] = 0%R) ->
  exists gamma beta,
    atten_feature mask_s weight gamma_s beta_s ag ab = Ok (gamma, beta)
    /\ tget gamma [0; 0; y; x] = 0%R /\ tget beta [0; 0; y; x] = 0%R.
Proof.
  intros Hm Hhm Hwm Hw Hg Hb HH HW Hy Hx Hrow.
  destruct (atten_feature_spec mask_s weight gamma_s beta_s ag ab hm wm H W)
    as (gamma & beta & gm & bm & yg & yb & E & _ & _ & Mg & Mb & Eg & Eb & Vg & Vb);
    auto.
  destruct (NONLocalBlock2D_forward_spec ag gm weight 3 H W) as (yg' & Eg' & _ & Vyg);
    auto; try lia; try apply Mg.
  destruct (NONLocalBlock2D_forward_spec ab bm weight 3 H W) as (yb' & Eb' & _ & Vyb);
    auto; try lia; try apply Mb.
  rewrite Eg in Eg'. injection Eg' as <-. rewrite Eb in Eb'. injection Eb' as <-.
  exists gamma, beta. split; [exact E|].
  rewrite Vg, Vb by assumption. unfold slot_sum.
  rewrite !Vyg, !Vyb by lia.
  rewrite !sumZ_zero; [lra| | | | | |];
    intros l Hl; rewrite Hrow by lia; ring.
Qed.

Lemma atten_feature_empty_rows_witness :
  exists gamma beta,
    atten_feature mask_ones w_empty3 g_one g_one
                  (NONLocalBlock2D_init sd_zero "g") (NONLocalBlock2D_init sd_zero "b")
      = Ok (gamma, beta)
    /\ tget gamma [0; 0; 0; 0] = 0%R /\ tget beta [0; 0; 0; 0] = 0%R.
Proof.
  apply (atten_feature_empty_rows mask_ones w_empty3 g_one g_one
           (NONLocalBlock2D_init sd_zero "g") (NONLocalBlock2D_init sd_zero "b")
           1 1 1 1 0 0);
    [reflexivity | lia | lia | reflexivity | reflexivity | reflexivity
     | lia | lia | lia | lia |].
  intros r l _ _. reflexivity.
Defined.

(** ** Zero content: the end-to-end scenario of an all-zero image *)

Lemma in_range_4_inv (a b c d : Z) (idx : list Z) :
  in_range [a; b; c; d] idx ->
  exists i j k l,
    idx = [i; j; k; l] /\ 0 <= i < a /\ 0 <= j < b /\ 0 <= k < c /\ 0 <= l < d.
Proof.
  unfold in_range. intros H.
  inversion H as [|? i ? t1 Hi H1]; subst.
  inversion H1 as [|? j ? t2 Hj H2]; subst.
  inversion H2 as [|? k ? t3 Hk H3]; subst.
  inversion H3 as [|? l ? t4 Hl H4]; subst.
  inversion H4; subst.
  exists i, j, k, l. auto.
Qed.

Lemma tget_pad_zero (x : tensor) (idx : list Z) : is_zero x -> tget_pad x idx = 0%R.
Proof.
  intros H. unfold tget_pad. destruct (in_rangeb (shape x) idx) eqn:E; auto.
  apply H, in_rangeb_spec, E.
Qed.

Lemma conv2d_data_zero_input (L : Conv2d) (x : tensor) (idx : list Z) :
  c_bias L = None -> is_zero x -> conv2d_data L x idx = 0%R.
Proof.
  intros Hb Hz. unfold conv2d_data.
  destruct idx as [|n [|o [|y [|xx [|]]]]]; try reflexivity.
  rewrite Hb. simpl. rewrite sumZ_zero; [lra|].
  intros i _. apply sumZ_zero. intros ky _. apply sumZ_zero. intros kx _.
  rewrite tget_pad_zero by assumption. ring.
Qed.

Lemma convT2d_data_zero_input (L : ConvTranspose2d) (x : tensor) (idx : list Z) :
  is_zero x -> convT2d_data L x idx = 0%R.
Proof.
  intros Hz. unfold convT2d_data.
  destruct idx as [|n [|o [|y [|xx [|]]]]]; try reflexivity.
  apply sumZ_zero. intros i _. apply sumZ_zero. intros ky _. apply sumZ_zero.
  intros kx _. cbv zeta.
  match goal with |- context [if ?b then _ else _] => destruct b end; [|reflexivity].
  rewrite tget_pad_zero by assumption. ring.
Qed.

Lemma spatial_mean_zero_in (h w : Z) (f : Z -> Z -> R) :
  (forall y xx, 0 <= y < h -> 0 <= xx < w -> f y xx = 0%R) -> spatial_mean h w f = 0%R.
Proof.
  intros H. unfold spatial_mean. rewrite sumZ_zero.
  - unfold Rdiv. ring.
  - intros y Hy. apply sumZ_zero. intros xx Hx. now apply H.
Qed.

Lemma instnorm_data_zero_input (L : InstanceNorm2d) (x : tensor) (n c h w i j k l : Z) :
  shape x = [n; c; h; w] -> n_affine L = None -> is_zero x ->
  0 <= i < n -> 0 <= j < c -> 0 <= k < h -> 0 <= l < w ->
  instnorm_data L x [i; j; k; l] = 0%R.
Proof.
  intros Hs Ha Hz Hi Hj Hk Hl.
  assert (Hx : forall y xx, 0 <= y < h -> 0 <= xx < w -> tget x [i; j; y; xx] = 0%R).
  { intros y xx Hy Hxx. apply Hz. rewrite Hs. now apply in_range_4. }
  unfold instnorm_data. rewrite Hs, Ha. cbv zeta.
  rewrite (spatial_mean_zero_in h w (fun y' x' => tget x [i; j; y'; x'])) by exact Hx.
  rewrite (Hx k l) by assumption. unfold Rdiv. ring.
Qed.

Lemma tanh_0 : tanh 0 = 0%R.
Proof. unfold tanh. rewrite sinh_0. unfold Rdiv. ring. Qed.

Lemma layer_forward_zero (l : layer) (x y : tensor) :
  layer_forward l x = Ok y -> bias_free l -> is_zero x -> is_zero y.
Proof.
  destruct l as [L|L| | |L]; unfold layer_forward, bias_free; intros E Hb Hz idx Hidx.
  - unfold Conv2d_forward in E.
    destruct (shape x) as [|n [|ci [|h [|w [|]]]]]; try discriminate.
    match type of E with (if ?b then _ else _) = _ => destruct b end; [|discriminate].
    injection E as <-. cbn [tget]. now apply conv2d_data_zero_input.
  - unfold InstanceNorm2d_forward in E.
    destruct (shape x) as [|n [|ci [|h [|w [|]]]]] eqn:Hs; try discriminate.
    rewrite Hb in E. injection E as <-. cbn [tget shape] in *.
    destruct (in_range_4_inv _ _ _ _ _ Hidx) as (i & j & k & l0 & -> & Hi & Hj & Hk & Hl).
    now apply (instnorm_data_zero_input L x n ci h w).
  - injection E as <-. cbn [ReLU_forward tmap tget shape] in *. rewrite Hz by exact Hidx.
    apply Rmax_left. lra.
  - injection E as <-. cbn [Tanh_forward tmap tget shape] in *. rewrite Hz by exact Hidx.
    apply tanh_0.
  - unfold ConvTranspose2d_forward in E.
    destruct (shape x) as [|n [|ci [|h [|w [|]]]]]; try discriminate.
    match type of E with (if ?b then _ else _) = _ => destruct b end; [|discriminate].
    injection E as <-. cbn [tget]. now apply convT2d_data_zero_input.
Qed.

Lemma Sequential_forward_zero (ls : list layer) (x y : tensor) :
  Sequential_forward ls x = Ok y -> Forall bias_free ls -> is_zero x -> is_zero y.
Proof.
  revert x. induction ls as [|l ls IH]; intros x E Hb Hz; simpl in E.
  - injection E as <-. exact Hz.
  - inversion Hb as [|? ? Hl Hls]; subst.
    destruct (layer_forward l x) as [t|e] eqn:El; [|discriminate].
    simpl in E. apply (IH t E Hls). apply (layer_forward_zero l x t El Hl Hz).
Qed.

(** Broadcasting reads every operand inside its own range. *)
Lemma broadcast_dims_zip (p1 p2 sh idx : list Z) :
  broadcast_dims p1 p2 = Ok sh -> in_range sh idx ->
  in_range p1 (zipWith (fun d i => if d =? 1 then 0 else i) p1 idx)
  /\ in_range p2 (zipWith (fun d i => if d =? 1 then 0 else i) p2 idx).
Proof.
  unfold in_range, zipWith. revert p2 sh idx.
  induction p1 as [|d1 t1 IH]; intros [|d2 t2] sh idx E H; simpl in E; try discriminate.
  - injection E as <-. inversion H; subst. simpl. split; constructor.
  - destruct (broadcast_dims t1 t2) as [t|] eqn:Et; [|discriminate]. simpl in E.
    destruct (Z.eqb_spec d1 d2);
      [| destruct (Z.eqb_spec d1 1); [| destruct (Z.eqb_spec d2 1); [|discriminate]]];
      injection E as <-; inversion H as [|? i ? idx' Hi Ht]; subst;
      destruct (IH t2 t idx' Et Ht) as [A B]; simpl;
      (split; constructor; [|assumption| |assumption]);
      repeat match goal with |- context [?a =? 1] => destruct (Z.eqb_spec a 1) end; lia.
Qed.

Lemma broadcast_dims_length (p1 p2 sh : list Z) :
  broadcast_dims p1 p2 = Ok sh -> length sh = length p1 /\ length sh = length p2.
Proof.
  revert p2 sh. induction p1 as [|d1 t1 IH]; intros [|d2 t2] sh E; simpl in E;
    try discriminate.
  - injection E as <-. auto.
  - destruct (broadcast_dims t1 t2) as [t|] eqn:Et; [|discriminate]. simpl in E.
    destruct (IH t2 t Et) as [A B].
    destruct (d1 =? d2); [| destruct (d1 =? 1); [| destruct (d2 =? 1); [|discriminate]]];
      injection E as <-; simpl; auto.
Qed.

Lemma pad_left_zip (k : nat) (s idx : list Z) :
  in_range (List.repeat 1 k ++ s)
           (zipWith (fun d i => if d =? 1 then 0 else i) (List.repeat 1 k ++ s) idx) ->
  in_range s (zipWith (fun d i => if d =? 1 then 0 else i) s (skipn k idx)).
Proof.
  unfold in_range, zipWith. revert idx. induction k as [|k IH]; intros idx H.
  - exact H.
  - destruct idx as [|i idx]; simpl in H; [inversion H|].
    inversion H; subst. simpl. now apply IH.
Qed.

Lemma bidx_broadcast (s1 s2 sh idx : list Z) :
  broadcast_shapes s1 s2 = Ok sh -> in_range sh idx ->
  in_range s1 (bidx s1 idx) /\ in_range s2 (bidx s2 idx).
Proof.
  unfold broadcast_shapes, pad_left. intros E H.
  destruct (broadcast_dims_length _ _ _ E) as [L1 L2].
  rewrite length_app, repeat_length in L1, L2.
  pose proof (in_range_length _ _ H) as Li.
  destruct (broadcast_dims_zip _ _ _ _ E H) as [A B].
  apply pad_left_zip in A. apply pad_left_zip in B.
  unfold bidx.
  replace (length idx - length s1)%nat
    with (Nat.max (length s1) (length s2) - length s1)%nat by lia.
  replace (length idx - length s2)%nat
    with (Nat.max (length s1) (length s2) - length s2)%nat by lia.
  auto.
Qed.

Lemma binop_zero (f : R -> R -> R) (x y z : tensor) :
  binop f x y = Ok z -> f 0%R 0%R = 0%R -> is_zero x -> is_zero y -> is_zero z.
Proof.
  unfold binop. intros E Hf Hx Hy idx Hidx.
  destruct (broadcast_shapes (shape x) (shape y)) as [sh|] eqn:Eb; [|discriminate].
  injection E as <-. cbn [tget shape] in *.
  destruct (bidx_broadcast _ _ _ _ Eb Hidx) as [A B].
  now rewrite Hx, Hy.
Qed.

Lemma module_call_zero (m : module) (x y : tensor) :
  module_call m x = Ok y -> bias_free_module m -> is_zero x -> is_zero y.
Proof.
  destruct m as [l|ls|blk|g|b]; simpl; intros E Hb Hz; try contradiction.
  - exact (layer_forward_zero l x y E Hb Hz).
  - exact (Sequential_forward_zero ls x y E Hb Hz).
  - unfold ResidualBlock_forward in E.
    destruct (Sequential_forward (rb_main blk) x) as [t|e] eqn:Et; [|discriminate].
    simpl in E. apply (binop_zero Rplus x t y E); [lra|exact Hz|].
    exact (Sequential_forward_zero _ x t Et Hb Hz).
Qed.

Lemma fuse_zero (c g b x : tensor) :
  fuse c (Some g) (Some b) = Ok x -> is_zero c -> is_zero b -> is_zero x.
Proof.
  unfold fuse, tmul, tadd. intros E Hc Hb.
  destruct (binop Rmult c (scalar_add 1 g)) as [t|e] eqn:Et; [|discriminate].
  simpl in E. apply (binop_zero Rplus t b x E); [lra| |exact Hb].
  intros idx Hidx. unfold binop in Et.
  destruct (broadcast_shapes (shape c) (shape (scalar_add 1 g))) as [sh|] eqn:Eb;
    [|discriminate].
  injection Et as <-. cbn [tget shape] in *.
  destruct (bidx_broadcast _ _ _ _ Eb Hidx) as [A _].
  rewrite Hc by exact A. ring.
Qed.

(** Propagate "all zero" along the module calls recorded in the context. *)
Ltac zero_chain :=
  repeat match goal with
         | E : module_call ?m ?x = Ok ?y, Z : is_zero ?x |- _ =>
             lazymatch goal with
             | _ : is_zero y |- _ => fail
             | _ => assert (is_zero y)
                      by (apply (module_call_zero m x y E);
                          [simpl; repeat constructor | exact Z])
             end
         end.

Lemma content_head_zero sd c :
  shape c = [1; 3; 256; 256] -> is_zero c ->
  exists c3,
    content_head (generator_of sd) c = Ok c3
    /\ shape c3 = [1; 256; 64; 64] /\ is_zero c3.
Proof.
  intros Hc Hz. unfold content_head, call_r. run_ok. zero_chain.
  eexists. split; [reflexivity|]. split; assumption.
Qed.

Lemma content_tail_zero sd x :
  shape x = [1; 256; 64; 64] -> is_zero x ->
  exists y,
    content_tail (generator_of sd) x = Ok y
    /\ shape y = [1; 3; 256; 256] /\ is_zero y.
Proof.
  intros Hx Hz. unfold content_tail, call_r. run_ok. zero_chain.
  eexists. split; [reflexivity|]. split; assumption.
Qed.

(** X18: mix/test mode on an all-zero content image with an all-zero beta
    returns the all-zero image, whatever the parameters, the gamma and the
    style image are. *)
Theorem forward_atten_mix_zero sd c s mc ms dc ds gamma beta ret :
  shape c = [1; 3; 256; 256] -> is_zero c ->
  shape gamma = [1; 1; 64; 64] -> shape beta = [1; 1; 64; 64] -> is_zero beta ->
  image_shaped s ->
  exists y,
    snd (forward_atten (generator_of sd) c s mc ms dc ds (Some gamma) (Some beta) ret)
      = Ok (RTensor y)
    /\ shape y = [1; 3; 256; 256] /\ is_zero y.
Proof.
  intros Hc Zc Sg Sb Zb Hs.
  destruct (content_head_zero sd c Hc Zc) as (c3 & Ec & Sc & Z3).
  destruct (fuse_ok c3 gamma beta [1; 256; 64; 64]) as (x & Ex & Sx).
  { rewrite Sc, Sg, Sb. reflexivity. }
  pose proof (fuse_zero c3 gamma beta x Ex Z3 Zb) as Zx.
  destruct (content_tail_zero sd x Sx Zx) as (y & Ey & Sy & Zy).
  exists y. split; [|auto].
  apply forward_atten_mix_refines. split; [now apply pnet_in_call_ok|].
  unfold spec_mix. rewrite Ec. cbn [rbind]. rewrite Ex. cbn [rbind]. exact Ey.
Qed.

Lemma zeros_is_zero (sh : list Z) : is_zero (zeros sh).
Proof. intros idx _. reflexivity. Qed.

Lemma forward_atten_mix_zero_witness :
  exists y,
    snd (forward_atten (generator_of sd_ones) img256 img256 mask256 mask256
                       (diff_zero 64) (diff_zero 64) (Some g_ref) (Some g_ref) false)
      = Ok (RTensor y)
    /\ shape y = [1; 3; 256; 256] /\ is_zero y.
Proof.
  apply (forward_atten_mix_zero sd_ones img256 img256 mask256 mask256
           (diff_zero 64) (diff_zero 64) g_ref g_ref false);
    [reflexivity | apply zeros_is_zero | reflexivity | reflexivity
     | apply zeros_is_zero | exists 1, 256, 256; split; [reflexivity | lia]].
Defined.

(** ** Zero content in training mode *)

Lemma makeup_params_zero sd mc ms dc ds c3 s3 hc wc hs ws D :
  shape mc = [3; 1; hc; wc] -> 0 < hc -> 0 < wc ->
  shape ms = [3; 1; hs; ws] -> 0 < hs -> 0 < ws ->
  shape dc = [3; D; 64; 64] -> shape ds = [3; D; 64; 64] -> 0 <= D ->
  shape c3 = [1; 256; 64; 64] -> shape s3 = [1; 256; 64; 64] ->
  is_zero c3 -> is_zero dc ->
  exists gamma beta,
    makeup_params (generator_of sd) mc ms dc ds c3 s3 = Ok (gamma, beta)
    /\ shape gamma = [1; 1; 64; 64] /\ shape beta = [1; 1; 64; 64]
    /\ is_zero gamma /\ is_zero beta.
Proof.
  intros Hmc Hhc Hwc Hms Hhs Hws Hdc Hds HD Hc3 Hs3 Zc Zd.
  unfold makeup_params. norm.
  match goal with
  | |- context [GetMatrix_forward ?m ?x] =>
      destruct (GetMatrix_forward_ok m x 1 64 64) as (g & b & E & Sg & Sb);
        [exact Hs3 | reflexivity | reflexivity | reflexivity | reflexivity
         | reflexivity | reflexivity | reflexivity | lia | lia | rewrite E]
  end.
  norm.
  destruct (get_weight_spec mc ms c3 s3 dc ds hc wc hs ws 256 D)
    as (Wt & SM & sp & EW & _ & _ & _ & _ & Esp & _ & _ & Hsz & Hdense); auto; try lia.
  destruct (get_weight_similarity_entries mc ms c3 s3 dc ds hc wc hs ws 256 D)
    as (Wt' & EW' & _ & HV); auto; try lia.
  rewrite EW in EW'. injection EW' as <-.
  assert (ZW : forall b i j, 0 <= b < 3 -> 0 <= i < HW -> 0 <= j < HW ->
                             tget (to_dense sp) [b; i; j] = 0%R).
  { intros b0 i j Hb Hi Hj.
    rewrite Hdense by (apply in_range_3; assumption).
    replace (Rnonzero (tget Wt [b0; i; j])) with false; [reflexivity|].
    symmetry. apply Rnonzero_false. rewrite HV by assumption.
    unfold similarity_value, region_feature, HW in *.
    assert (0 <= i / 64 < 64) by (split; [apply Z.div_pos | apply Z.div_lt_upper_bound]; lia).
    assert (0 <= i mod 64 < 64) by (apply Z.mod_pos_bound; lia).
    rewrite !sumZ_zero; [lra | |].
    - intros d Hd. rewrite Zd by (rewrite Hdc; apply in_range_4; lia). ring.
    - intros c0 Hc0. rewrite Zc by (rewrite Hc3; apply in_range_4; lia). ring. }
  rewrite Esp. norm.
  match goal with
  | |- context [atten_feature ?m ?w ?g ?b ?ag ?ab] =>
      destruct (atten_feature_spec m w g b ag ab hs ws 64 64)
        as (gamma & beta & gm & bm & yg & yb & Ea & Sgamma & Sbeta & Mg & Mb
            & Eg & Eb & Vg & Vb);
        [exact Hms | exact Hhs | exact Hws | exact Hsz | exact Sg | exact Sb
         | lia | lia | rewrite Ea];
      destruct (NONLocalBlock2D_forward_spec ag gm w 3 64 64)
        as (yg' & Eg' & _ & Wg); [apply Mg | exact Hsz | lia | lia | lia |];
      destruct (NONLocalBlock2D_forward_spec ab bm w 3 64 64)
        as (yb' & Eb' & _ & Wb); [apply Mb | exact Hsz | lia | lia | lia |]
  end.
  rewrite Eg in Eg'. injection Eg' as <-.
  rewrite Eb in Eb'. injection Eb' as <-.
  assert (Zy : forall yv src, (forall b0 yy xx, 0 <= b0 < 3 -> 0 <= yy < 64 -> 0 <= xx < 64 ->
                 tget yv [b0; 0; yy; xx] =
                 sumZ (64 * 64) (fun l => (tget (to_dense sp) [b0; (yy * 64 + xx)%Z; l]
                      * tget src [b0; 0%Z; (l / 64)%Z; (l mod 64)%Z])%R)) ->
               forall yy xx, 0 <= yy < 64 -> 0 <= xx < 64 -> slot_sum yv yy xx = 0%R).
  { intros yv src Hyv yy xx Hy Hx. unfold slot_sum.
    rewrite !Hyv by lia. rewrite !sumZ_zero; [lra | | |];
      intros l Hl; rewrite ZW by (unfold HW; lia); ring. }
  assert (Zg : is_zero gamma).
  { intros idx Hidx. rewrite Sgamma in Hidx.
    destruct (in_range_4_inv _ _ _ _ _ Hidx) as (i & j & k & l & -> & Hi & Hj & Hk & Hl).
    replace i with 0 by lia. replace j with 0 by lia.
    rewrite Vg by assumption. apply (Zy yg gm Wg); assumption. }
  assert (Zb : is_zero beta).
  { intros idx Hidx. rewrite Sbeta in Hidx.
    destruct (in_range_4_inv _ _ _ _ _ Hidx) as (i & j & k & l & -> & Hi & Hj & Hk & Hl).
    replace i with 0 by lia. replace j with 0 by lia.
    rewrite Vb by assumption. apply (Zy yb bm Wb); assumption. }
  exists gamma, beta.
  exact (conj eq_refl (conj Sgamma (conj Sbeta (conj Zg Zb)))).
Qed.

(** X19: training mode on an all-zero content image with all-zero content
    differences.  The similarity of every pair of positions is zero, so the
    correspondence matrix has no entries, gamma and beta are all zero and the
    returned image is all zero: whatever the parameters, the style image, the
    masks and the style differences are. *)
Theorem forward_atten_train_zero sd c s mc ms dc ds beta0 hc wc hs ws D :
  shape c = [1; 3; 256; 256] -> is_zero c -> shape s = [1; 3; 256; 256] ->
  shape mc = [3; 1; hc; wc] -> 0 < hc -> 0 < wc ->
  shape ms = [3; 1; hs; ws] -> 0 < hs -> 0 < ws ->
  shape dc = [3; D; 64; 64] -> shape ds = [3; D; 64; 64] -> 0 <= D -> is_zero dc ->
  (exists y,
     snd (forward_atten (generator_of sd) c s mc ms dc ds None beta0 false)
       = Ok (RTensor y)
     /\ shape y = [1; 3; 256; 256] /\ is_zero y)
  /\ (exists gamma beta,
        snd (forward_atten (generator_of sd) c s mc ms dc ds None beta0 true)
          = Ok (RList gamma beta)
        /\ is_zero gamma /\ is_zero beta).
Proof.
  intros Hc Zc Hs Hmc Hhc Hwc Hms Hhs Hws Hdc Hds HD Zd.
  destruct (content_head_zero sd c Hc Zc) as (c3 & Ec & Sc & Z3).
  destruct (style_head_shape sd s 1 Hs) as (s3 & Es & Ss).
  destruct (makeup_params_zero sd mc ms dc ds c3 s3 hc wc hs ws D)
    as (gamma & beta & Ep & Sg & Sb & Zg & Zb); auto.
  destruct (fuse_ok c3 gamma beta [1; 256; 64; 64]) as (x & Ex & Sx).
  { rewrite Sc, Sg, Sb. reflexivity. }
  pose proof (fuse_zero c3 gamma beta x Ex Z3 Zb) as Zx.
  destruct (content_tail_zero sd x Sx Zx) as (y & Ey & Sy & Zy).
  split.
  - exists y. split; [|auto].
    apply forward_atten_train_refines.
    unfold spec_train. rewrite Ec. cbn [rbind]. rewrite Es. cbn [rbind].
    rewrite Ep. cbn [rbind]. rewrite Ex. cbn [rbind]. exact Ey.
  - exists gamma, beta. split; [|auto].
    apply forward_atten_ret_refines. exists gamma, beta. split; [reflexivity|].
    unfold spec_params. rewrite Ec. cbn [rbind]. rewrite Es. cbn [rbind]. exact Ep.
Qed.

Lemma forward_atten_train_zero_witness :
  (exists y,
     snd (forward_atten (generator_of sd_ones) img256 img256 mask256 mask256
                        (diff_zero 64) (diff_zero 64) None None false)
       = Ok (RTensor y)
     /\ shape y = [1; 3; 256; 256] /\ is_zero y)
  /\ (exists gamma beta,
        snd (forward_atten (generator_of sd_ones) img256 img256 mask256 mask256
                           (diff_zero 64) (diff_zero 64) None None true)
          = Ok (RList gamma beta)
        /\ is_zero gamma /\ is_zero beta).
Proof.
  apply (forward_atten_train_zero sd_ones img256 img256 mask256 mask256
           (diff_zero 64) (diff_zero 64) None 256 256 256 256 136);
    [reflexivity | apply zeros_is_zero | reflexivity | reflexivity | lia | lia
     | reflexivity | lia | lia | reflexivity | reflexivity | lia
     | apply zeros_is_zero].
Defined.

(** ** Parameters that a run does not read *)

Lemma sd_atten_agrees (key : string) :
  existsb (String.eqb key) attention_conv_keys = false -> sd_atten key = sd_zero key.
Proof. intros H. unfold sd_atten, sd_zero. rewrite H. reflexivity. Qed.

Lemma sd_style_agrees (key : string) :
  mix_key key = true -> sd_style key = sd_zero key.
Proof. intros H. unfold sd_style, sd_zero. rewrite H. reflexivity. Qed.

(** X20: the convolution [g] of the two attention modules is created but
    never applied: two generators whose parameters differ only there run
    identically, in every mode. *)
Theorem forward_atten_attention_conv_unused sd1 sd2 c s mc ms dc ds gamma beta ret :
  (forall key, existsb (String.eqb key) attention_conv_keys = false ->
               sd1 key = sd2 key) ->
  forward_atten (generator_of sd1) c s mc ms dc ds gamma beta ret =
  forward_atten (generator_of sd2) c s mc ms dc ds gamma beta ret.
Proof.
  intros H. destruct gamma as [g|], ret; norm;
    repeat match goal with
           | |- context [sd1 ?k] => rewrite (H k eq_refl)
           end;
    reflexivity.
Qed.

Lemma forward_atten_attention_conv_unused_witness :
  forward_atten (generator_of sd_atten) img256 img256 mask256 mask256
                (diff_zero 64) (diff_zero 64) None None false =
  forward_atten (generator_of sd_zero) img256 img256 mask256 mask256
                (diff_zero 64) (diff_zero 64) None None false.
Proof.
  apply (forward_atten_attention_conv_unused sd_atten sd_zero).
  exact sd_atten_agrees.
Defined.

(** X21: with gamma supplied a run reads the parameters of the content
    branch and of [pnet_in] only: generators that agree on those run
    identically, whatever the rest of the style branch holds. *)
Theorem forward_atten_mix_parameters sd1 sd2 c s mc ms dc ds gamma beta ret :
  (forall key, mix_key key = true -> sd1 key = sd2 key) ->
  forward_atten (generator_of sd1) c s mc ms dc ds (Some gamma) beta ret =
  forward_atten (generator_of sd2) c s mc ms dc ds (Some gamma) beta ret.
Proof.
  intros H. destruct ret; norm;
    repeat match goal with
           | |- context [sd1 ?k] => rewrite (H k eq_refl)
           end.
  all: repeat (norm; try same; step).
  all: norm; same.
Qed.

Lemma forward_atten_mix_parameters_witness :
  forward_atten (generator_of sd_style) img256 img256 mask256 mask256
                (diff_zero 64) (diff_zero 64) (Some g_ref) (Some g_ref) false =
  forward_atten (generator_of sd_zero) img256 img256 mask256 mask256
                (diff_zero 64) (diff_zero 64) (Some g_ref) (Some g_ref) false.
Proof.
  apply (forward_atten_mix_parameters sd_style sd_zero).
  exact sd_style_agrees.
Defined.

(** ** Mix mode at any image size *)

Lemma conv_out_731 (h : Z) : conv_out h 7 1 3 = h.
Proof. unfold conv_out. rewrite Z.div_1_r. lia. Qed.

Lemma conv_out_311 (h : Z) : conv_out h 3 1 1 = h.
Proof. unfold conv_out. rewrite Z.div_1_r. lia. Qed.

Lemma conv_out_421 (h : Z) : conv_out h 4 2 1 = h / 2.
Proof.
  unfold conv_out. replace (h + 2 * 1 - 4) with (h + (-1) * 2) by lia.
  rewrite Z.div_add by lia. lia.
Qed.

Lemma convT_out_421 (h : Z) : convT_out h 4 2 1 = 2 * h.
Proof. unfold convT_out. lia. Qed.

Lemma conv_shape (L : Conv2d) (n ci h w : Z) :
  ci = c_in L -> c_k L <= h + 2 * c_pad L -> c_k L <= w + 2 * c_pad L ->
  layer_shape (LConv2d L) [n; ci; h; w]
    = Ok [n; c_out L; conv_out h (c_k L) (c_stride L) (c_pad L);
          conv_out w (c_k L) (c_stride L) (c_pad L)].
Proof.
  intros -> Hh Hw. cbn [layer_shape].
  rewrite Z.eqb_refl, (proj2 (Z.leb_le _ _) Hh), (proj2 (Z.leb_le _ _) Hw).
  reflexivity.
Qed.

Lemma convT_shape (L : ConvTranspose2d) (n ci h w : Z) :
  ci = ct_in L -> 0 < h -> 0 < w ->
  layer_shape (LConvTranspose2d L) [n; ci; h; w]
    = Ok [n; ct_out L; convT_out h (ct_k L) (ct_stride L) (ct_pad L);
          convT_out w (ct_k L) (ct_stride L) (ct_pad L)].
Proof.
  intros -> Hh Hw. cbn [layer_shape].
  rewrite Z.eqb_refl, (proj2 (Z.ltb_lt _ _) Hh), (proj2 (Z.ltb_lt _ _) Hw).
  reflexivity.
Qed.

Lemma norm_shape (L : InstanceNorm2d) (n c h w : Z) :
  n_affine L = None -> layer_shape (LInstanceNorm2d L) [n; c; h; w] = Ok [n; c; h; w].
Proof. intros H. cbn [layer_shape]. now rewrite H. Qed.

Lemma residual_shape (L1 L2 : Conv2d) (I1 I2 : InstanceNorm2d) (n c h w : Z) :
  c_in L1 = c -> c_out L1 = c -> c_k L1 = 3 -> c_stride L1 = 1 -> c_pad L1 = 1 ->
  c_in L2 = c -> c_out L2 = c -> c_k L2 = 3 -> c_stride L2 = 1 -> c_pad L2 = 1 ->
  n_affine I1 = None -> n_affine I2 = None ->
  1 <= h -> 1 <= w ->
  module_shape
    (MResidualBlock
       (mkResidualBlock [LConv2d L1; LInstanceNorm2d I1; LReLU;
                         LConv2d L2; LInstanceNorm2d I2]))
    [n; c; h; w] = Ok [n; c; h; w].
Proof.
  intros A1 A2 A3 A4 A5 B1 B2 B3 B4 B5 N1 N2 Hh Hw.
  cbn [module_shape rb_main sequential_shape].
  rewrite (conv_shape L1 n c h w) by (rewrite ?A3, ?A5; auto; lia).
  cbn [rbind]. rewrite A2, A3, A4, A5, !conv_out_311.
  rewrite norm_shape by assumption. cbn [rbind].
  change (layer_shape LReLU [n; c; h; w]) with (Ok [n; c; h; w]). cbn [rbind].
  rewrite (conv_shape L2 n c h w) by (rewrite ?B3, ?B5; auto; lia).
  cbn [rbind]. rewrite B2, B3, B4, B5, !conv_out_311.
  rewrite norm_shape by assumption. cbn [rbind].
  apply broadcast_shapes_same.
Qed.

(** One module call of the content branch at a symbolic shape. *)
Ltac shape_sym :=
  cbn [module_shape sequential_shape];
  first
    [ apply residual_shape; first [reflexivity | lia]
    | rewrite conv_shape by first [reflexivity | cbn [c_k c_pad]; lia];
      cbn [rbind layer_shape]; reflexivity
    | rewrite convT_shape by first [reflexivity | lia]; reflexivity
    | apply norm_shape; reflexivity
    | reflexivity ].

Ltac step_sym :=
  match goal with
  | Sx : shape ?x = _ |- context [module_call ?m ?x] =>
      let y := fresh "y" in
      let E := fresh "E" in
      let S := fresh "S" in
      edestruct (module_call_ok m x) as (y & E & S);
      [ rewrite Sx; shape_sym
      | rewrite E;
        cbn [c_out c_k c_stride c_pad ct_out ct_k ct_stride ct_pad] in S;
        rewrite ?conv_out_731, ?conv_out_311, ?conv_out_421, ?convT_out_421 in S ]
  end.

Lemma content_head_any_size sd c N H W :
  shape c = [N; 3; H; W] -> 4 <= H -> 4 <= W ->
  exists c3,
    content_head (generator_of sd) c = Ok c3 /\ shape c3 = [N; 256; H / 2 / 2; W / 2 / 2].
Proof.
  intros Hc HH HW.
  assert (2 <= H / 2) by (apply Z.div_le_lower_bound; lia).
  assert (2 <= W / 2) by (apply Z.div_le_lower_bound; lia).
  assert (1 <= H / 2 / 2) by (apply Z.div_le_lower_bound; lia).
  assert (1 <= W / 2 / 2) by (apply Z.div_le_lower_bound; lia).
  unfold content_head, call_r. repeat (norm; step_sym). norm.
  eexists. split; [reflexivity|assumption].
Qed.

Lemma content_tail_any_size sd x N h w :
  shape x = [N; 256; h; w] -> 1 <= h -> 1 <= w ->
  exists y,
    content_tail (generator_of sd) x = Ok y
    /\ shape y = [N; 3; 2 * (2 * h); 2 * (2 * w)]
    /\ forall idx, (-1 <= tget y idx <= 1)%R.
Proof.
  intros Hx Hh Hw. unfold content_tail, call_r. repeat (norm; step_sym). norm.
  eexists. split; [reflexivity|]. split; [assumption|].
  match goal with
  | H : module_call (MSequential [LConv2d _; LTanh]) _ = Ok ?y |- _ =>
      exact (seq_tanh_range _ _ _ H)
  end.
Qed.

(** X22: with gamma and beta supplied the generator is fully convolutional.
    For a batch of images of any height and width of at least 8 and maps
    gamma, beta of the size of the bottleneck, the run returns an image batch
    of the same batch size whose height and width are those of the input
    rounded down to a multiple of 4, with values in [-1, 1]. *)
Theorem forward_atten_mix_any_size sd c s mc ms dc ds gamma beta ret N H W :
  shape c = [N; 3; H; W] -> 8 <= H -> 8 <= W ->
  shape gamma = [1; 1; H / 4; W / 4] -> shape beta = [1; 1; H / 4; W / 4] ->
  image_shaped s ->
  exists y,
    snd (forward_atten (generator_of sd) c s mc ms dc ds (Some gamma) (Some beta) ret)
      = Ok (RTensor y)
    /\ shape y = [N; 3; 4 * (H / 4); 4 * (W / 4)]
    /\ forall idx, (-1 <= tget y idx <= 1)%R.
Proof.
  intros Hc HH HW Sg Sb Hs.
  assert (QH : H / 2 / 2 = H / 4) by (rewrite Z.div_div by lia; reflexivity).
  assert (QW : W / 2 / 2 = W / 4) by (rewrite Z.div_div by lia; reflexivity).
  destruct (content_head_any_size sd c N H W Hc) as (c3 & Ec & Sc); [lia | lia |].
  rewrite QH, QW in Sc.
  destruct (fuse_ok c3 gamma beta [N; 256; H / 4; W / 4]) as (x & Ex & Sx).
  { rewrite Sc, Sg, Sb, broadcast_map. cbn [rbind]. apply broadcast_map. }
  destruct (content_tail_any_size sd x N (H / 4) (W / 4) Sx) as (y & Ey & Sy & Ry).
  { apply Z.div_le_lower_bound; lia. }
  { apply Z.div_le_lower_bound; lia. }
  exists y. split; [|split; [|exact Ry]].
  - apply forward_atten_mix_refines. split; [now apply pnet_in_call_ok|].
    unfold spec_mix. rewrite Ec. cbn [rbind]. rewrite Ex. cbn [rbind]. exact Ey.
  - rewrite Sy.
    replace (2 * (2 * (H / 4))) with (4 * (H / 4)) by ring.
    replace (2 * (2 * (W / 4))) with (4 * (W / 4)) by ring.
    reflexivity.
Qed.

Lemma forward_atten_mix_any_size_witness :
  exists y,
    snd (forward_atten (generator_of sd_zero) (zeros [2; 3; 10; 9]) img_small
                       mask_ones mask_ones (diff_zero 64) (diff_zero 64)
                       (Some (zeros [1; 1; 2; 2])) (Some (zeros [1; 1; 2; 2])) false)
      = Ok (RTensor y)
    /\ shape y = [2; 3; 4 * (10 / 4); 4 * (9 / 4)]
    /\ forall idx, (-1 <= tget y idx <= 1)%R.
Proof.
  apply (forward_atten_mix_any_size sd_zero (zeros [2; 3; 10; 9]) img_small
           mask_ones mask_ones (diff_zero 64) (diff_zero 64)
           (zeros [1; 1; 2; 2]) (zeros [1; 1; 2; 2]) false 2 10 9);
    [reflexivity | lia | lia | reflexivity | reflexivity
     | exists 1, 4, 4; split; [reflexivity | lia]].
Defined.

(** ** atten_feature on single-channel maps *)

(** X23: for a style mask of shape (3, 1, h, w), a correspondence
    weight of size (3, H*W, H*W) and single-batch, single-channel gamma_s and
    beta_s of shape (1, 1, H, W), [atten_feature] returns gamma and beta of
    shape (1, 1, H, W), each the element-wise sum of the three region slots
    that the non-local block yields, with the shared weight, on the
    three-fold replicated and mask-weighted gamma_s (respectively beta_s). *)
Theorem atten_feature_single_channel mask_s weight gamma_s beta_s ag ab hm wm H W :
  shape mask_s = [3; 1; hm; wm] -> 0 < hm -> 0 < wm ->
  sp_size weight = [3; H * W; H * W] ->
  shape gamma_s = [1; 1; H; W] -> shape beta_s = [1; 1; H; W] ->
  0 < H -> 0 < W ->
  exists gamma beta gm bm yg yb,
    atten_feature mask_s weight gamma_s beta_s ag ab = Ok (gamma, beta)
    /\ shape gamma = [1; 1; H; W] /\ shape beta = [1; 1; H; W]
    /\ masked_replica mask_s gamma_s gm hm wm H W
    /\ masked_replica mask_s beta_s bm hm wm H W
    /\ NONLocalBlock2D_forward ag gm weight = Ok yg
    /\ NONLocalBlock2D_forward ab bm weight = Ok yb
    /\ (forall y x, 0 <= y < H -> 0 <= x < W -> tget gamma [0; 0; y; x] = slot_sum yg y x)
    /\ (forall y x, 0 <= y < H -> 0 <= x < W -> tget beta [0; 0; y; x] = slot_sum yb y x).
Proof. apply atten_feature_spec. Qed.

Lemma atten_feature_single_channel_witness :
  exists gamma beta gm bm yg yb,
    atten_feature mask_ones w_empty3 g_one g_one
                  (NONLocalBlock2D_init sd_zero "g") (NONLocalBlock2D_init sd_zero "b")
      = Ok (gamma, beta)
    /\ shape gamma = [1; 1; 1; 1] /\ shape beta = [1; 1; 1; 1]
    /\ masked_replica mask_ones g_one gm 1 1 1 1
    /\ masked_replica mask_ones g_one bm 1 1 1 1
    /\ NONLocalBlock2D_forward (NONLocalBlock2D_init sd_zero "g") gm w_empty3 = Ok yg
    /\ NONLocalBlock2D_forward (NONLocalBlock2D_init sd_zero "b") bm w_empty3 = Ok yb
    /\ (forall y x, 0 <= y < 1 -> 0 <= x < 1 -> tget gamma [0; 0; y; x] = slot_sum yg y x)
    /\ (forall y x, 0 <= y < 1 -> 0 <= x < 1 -> tget beta [0; 0; y; x] = slot_sum yb y x).
Proof.
  apply (atten_feature_single_channel mask_ones w_empty3 g_one g_one
           (NONLocalBlock2D_init sd_zero "g") (NONLocalBlock2D_init sd_zero "b") 1 1 1 1);
    [reflexivity | lia | lia | reflexivity | reflexivity | reflexivity | lia | lia].
Defined.
